(** * LED fan colour corrector: a shallow embedding of [app.js]

    The program is a browser script.  Its core is a handful of pure
    functions over JavaScript numbers (IEEE 754 binary64) and strings:
    RGB <-> HSL <-> HEX conversion, a hue classifier, the per-device
    colour correction and the brightness scaling done by [updateUI].
    The repository holds two versions of the script with the same colour
    functions; the later one, embedded here, adds nine device profiles
    and the brightness slider.  The event handlers, the only writers of
    the script's state, are functions on that state; what they read from
    the page (the text of a box, the number [parseInt] made of it, a
    button's data attributes) is their argument.

    JavaScript numbers are modelled by Rocq's primitive binary64 floats,
    so every arithmetic step below rounds exactly as the script does.
    Strings are [string]s, objects are records, [null] / a thrown
    [TypeError] are [None]. *)

From Stdlib Require Import ZArith Floats Uint63 List Bool String Ascii Lia Setoid.
Import ListNotations.

Set Warnings "-inexact-float".

Local Open Scope float_scope.

(** ** JavaScript numbers *)

Module JS.

Definition number := float.

(** Exact for [|z| < 2^53]; every integer the script manipulates is tiny. *)
Definition of_Z (z : Z) : number :=
  match z with
  | Z0 => 0
  | Zpos _ => of_uint63 (Uint63.of_Z z)
  | Zneg p => - of_uint63 (Uint63.of_Z (Zpos p))
  end.

(** [x === y] on numbers. *)
Definition strict_eq (x y : number) : bool := x =? y.

Definition two52 : number := 4503599627370496.

(** [Math.abs]. *)
Definition Math_abs (x : number) : number := abs x.

(** [Math.max(a, b)]: NaN if either is NaN, and [+0] is larger than [-0]. *)
Definition Math_max (a b : number) : number :=
  if is_nan a then a
  else if is_nan b then b
  else if a <? b then b
  else if b <? a then a
  else if get_sign a then b else a.

(** [Math.min(a, b)]: NaN if either is NaN, and [-0] is smaller than [+0]. *)
Definition Math_min (a b : number) : number :=
  if is_nan a then a
  else if is_nan b then b
  else if a <? b then a
  else if b <? a then b
  else if get_sign a then a else b.

(** [Math.max(a, b, c)] and [Math.min(a, b, c)] fold from the left. *)
Definition Math_max3 (a b c : number) : number := Math_max (Math_max a b) c.
Definition Math_min3 (a b c : number) : number := Math_min (Math_min a b) c.

(** [Math.round(x)]: the integral number closest to [x], ties towards
    [+infinity]; NaN, the infinities and both zeros are returned as they
    are, and a negative [x] that rounds to zero gives [-0].

    From [2^52] on every binary64 number is integral.  Below, [|x|] is
    [m / 2^sh] for the 53-bit mantissa [m] and a shift [sh >= 1]:
    [m >> sh] is the integer part, bit [sh - 1] of [m] is the half, and
    the bits under it tell an exact half from a larger fraction.  A
    positive [x] rounds up from the half on; a negative one moves away
    from zero only past the half. *)
Definition Math_round (x : number) : number :=
  if is_nan x then x
  else if two52 <=? abs x then x
  else if x =? 0 then x
  else
    let '(frac, e) := frshiftexp x in
    let m := normfr_mantissa frac in
    let sh := Uint63.sub 2154 e in
    let q := Uint63.lsr m sh in
    let half := Uint63.bit m (Uint63.sub sh 1) in
    let low := Uint63.land m (Uint63.sub (Uint63.lsl 1 (Uint63.sub sh 1)) 1) in
    if x <? 0 then
      - of_uint63 (if half && negb (Uint63.eqb low 0) then Uint63.add q 1 else q)
    else
      of_uint63 (if half then Uint63.add q 1 else q).

End JS.
Import JS.

(** ** Colour values *)

Record RGB := mkRGB { r : number; g : number; b : number }.
Record HSL := mkHSL { h : number; s : number; l : number }.

(** ** Color utility functions *)

(** [rgbToHsl(r, g, b)].  [h] and [s] are declared without a value; when
    no [case] of the [switch] matches they stay [undefined], which the
    multiplication in the [return] turns into NaN. *)
Definition rgbToHsl (r g b : number) : HSL :=
  let r := r / 255 in
  let g := g / 255 in
  let b := b / 255 in
  let max := Math_max3 r g b in
  let min := Math_min3 r g b in
  let l := (max + min) / 2 in
  let '(h, s) :=
    if strict_eq max min then (0, 0)
    else
      let d := max - min in
      let s := if 0.5 <? l then d / (2 - max - min) else d / (max + min) in
      let h :=
        if strict_eq max r then ((g - b) / d + (if g <? b then 6 else 0)) / 6
        else if strict_eq max g then ((b - r) / d + 2) / 6
        else if strict_eq max b then ((r - g) / d + 4) / 6
        else nan in
      (h, s) in
  mkHSL (Math_round (h * 360)) (Math_round (s * 100)) (Math_round (l * 100)).

(** The arrow function [hue2rgb] local to [hslToRgb]; [t] is reassigned
    by the first two [if]s. *)
Definition hue2rgb (p q t : number) : number :=
  let t := if t <? 0 then t + 1 else t in
  let t := if 1 <? t then t - 1 else t in
  if t <? 1 / 6 then p + (q - p) * 6 * t
  else if t <? 1 / 2 then q
  else if t <? 2 / 3 then p + (q - p) * (2 / 3 - t) * 6
  else p.

(** [hslToRgb(h, s, l)]. *)
Definition hslToRgb (h s l : number) : RGB :=
  let h := h / 360 in
  let s := s / 100 in
  let l := l / 100 in
  let '(r, g, b) :=
    if strict_eq s 0 then (l, l, l)
    else
      let q := if l <? 0.5 then l * (1 + s) else l + s - l * s in
      let p := 2 * l - q in
      (hue2rgb p q (h + 1 / 3), hue2rgb p q h, hue2rgb p q (h - 1 / 3)) in
  mkRGB (Math_round (r * 255)) (Math_round (g * 255)) (Math_round (b * 255)).

(** *** Strings and the two regular expressions *)

Local Open Scope string_scope.

(** The integer part of a number as a [Z] (0 for NaN and the infinities). *)
Definition to_integer (x : number) : Z :=
  match Prim2SF x with
  | S754_finite sg m e =>
      let a := match e with
               | Zneg k => Z.shiftr (Zpos m) (Zpos k)
               | _ => Z.shiftl (Zpos m) e
               end in
      if sg then Z.opp a else a
  | _ => 0%Z
  end.

Definition hex_digit (d : Z) : ascii :=
  nth (Z.to_nat d) (list_ascii_of_string "0123456789abcdef") "0"%char.

Fixpoint hex_digits (fuel : nat) (n : Z) (acc : string) : string :=
  match fuel with
  | O => acc
  | S fuel' =>
      let acc' := String (hex_digit (n mod 16)) acc in
      if (n / 16 =? 0)%Z then acc' else hex_digits fuel' (n / 16) acc'
  end.

(** [n.toString(16)] for an integral [n] or NaN, the only arguments
    [toHex] can pass after [Math.round] and the clamp. *)
Definition Number_toString16 (n : number) : string :=
  if is_nan n then "NaN"
  else
    let z := to_integer n in
    if (z <? 0)%Z then "-" ++ hex_digits 300 (- z) "" else hex_digits 300 z "".

Definition upper_ascii (c : ascii) : ascii :=
  let n := nat_of_ascii c in
  if ((97 <=? n) && (n <=? 122))%nat then ascii_of_nat (n - 32) else c.

Fixpoint toUpperCase (s : string) : string :=
  match s with
  | EmptyString => EmptyString
  | String c t => String (upper_ascii c) (toUpperCase t)
  end.

(** The character class [[a-f\d]] under the [i] flag. *)
Definition hexClass (c : ascii) : bool :=
  let n := nat_of_ascii c in
  (((48 <=? n) && (n <=? 57)) || ((97 <=? n) && (n <=? 102))
   || ((65 <=? n) && (n <=? 70)))%nat.

(** [[a-f\d]{n}] at the head of [s]: the text it consumes and what is left. *)
Fixpoint take_class (n : nat) (s : string) : option (string * string) :=
  match n with
  | O => Some (EmptyString, s)
  | S n' =>
      match s with
      | String c t =>
          if hexClass c then
            match take_class n' t with
            | Some (m, rest) => Some (String c m, rest)
            | None => None
            end
          else None
      | EmptyString => None
      end
  end.

(** [#?] followed by [body]: the matcher first lets [#?] consume a
    leading [#] and, should the rest then fail, retries with it empty. *)
Definition opt_hash {A} (body : string -> option A) (s : string) : option A :=
  match s with
  | String c t =>
      if Ascii.eqb c "#" then
        match body t with
        | Some x => Some x
        | None => body s
        end
      else body s
  | EmptyString => body s
  end.

(** [/^#?([a-f\d]{2})([a-f\d]{2})([a-f\d]{2})$/i.exec(hex)]: the three
    captured groups, or [None] for [null]. *)
Definition exec_hex (hex : string) : option (string * string * string) :=
  opt_hash
    (fun s0 =>
       match take_class 2 s0 with
       | Some (g1, s1) =>
           match take_class 2 s1 with
           | Some (g2, s2) =>
               match take_class 2 s2 with
               | Some (g3, EmptyString) => Some (g1, g2, g3)
               | _ => None
               end
           | None => None
           end
       | None => None
       end) hex.

(** [/^#?([a-f\d]{6})$/i.test(hex)]. *)
Definition isValidHex (hex : string) : bool :=
  match opt_hash
          (fun s0 =>
             match take_class 6 s0 with
             | Some (_, EmptyString) => Some tt
             | _ => None
             end) hex with
  | Some _ => true
  | None => false
  end.

Definition hex_value (c : ascii) : option Z :=
  let n := Z.of_nat (nat_of_ascii c) in
  if ((48 <=? n) && (n <=? 57))%Z then Some (n - 48)%Z
  else if ((97 <=? n) && (n <=? 102))%Z then Some (n - 87)%Z
  else if ((65 <=? n) && (n <=? 70))%Z then Some (n - 55)%Z
  else None.

Fixpoint parse_hex_prefix (s : string) (acc : option Z) : option Z :=
  match s with
  | EmptyString => acc
  | String c t =>
      match hex_value c with
      | Some d =>
          parse_hex_prefix t
            (Some (match acc with Some a => (16 * a + d)%Z | None => d end))
      | None => acc
      end
  end.

(** [parseInt(s, 16)] on text that starts with neither white space, a
    sign nor [0x] (the captured groups never do): the value of the
    longest prefix of hexadecimal digits, NaN when it is empty. *)
Definition parseInt16 (s : string) : number :=
  match parse_hex_prefix s None with
  | Some z => of_Z z
  | None => nan
  end.

(** The arrow function [toHex] local to [rgbToHex]. *)
Definition toHex (n : number) : string :=
  let hex := Number_toString16 (Math_max 0 (Math_min 255 (Math_round n))) in
  if Nat.eqb (String.length hex) 1 then "0" ++ hex else hex.

(** [rgbToHex(r, g, b)]. *)
Definition rgbToHex (r g b : number) : string :=
  toUpperCase ("#" ++ toHex r ++ toHex g ++ toHex b).

(** [hexToRgb(hex)]; [None] is [null]. *)
Definition hexToRgb (hex : string) : option RGB :=
  match exec_hex hex with
  | Some (g1, g2, g3) => Some (mkRGB (parseInt16 g1) (parseInt16 g2) (parseInt16 g3))
  | None => None
  end.

Local Close Scope string_scope.

(** ** Device profiles *)

(** One entry of a profile's [hueCorrections]; a multiplier the object
    literal leaves out is [undefined], here [None]. *)
Module HueCorrection.
Record t := mk {
  range : number * number;
  greenMultiplier : option number;
  blueMultiplier : option number;
  hueShift : number
}.
End HueCorrection.

Module Profile.
Record t := mk {
  name : string;
  brand : string;
  software : string;
  greenReduction : number;
  hueShift : number;
  saturationBoost : number;
  blueReduction : number;
  brightnessRecommendation : option number;
  hueCorrections : list HueCorrection.t
}.
End Profile.

(** Every profile lists its four corrections in the same order: orange,
    yellow, purple, teal/cyan. *)
Definition corrections (og os yg ys pb ps tg ts : number) : list HueCorrection.t :=
  [ HueCorrection.mk (15, 45) (Some og) None os;
    HueCorrection.mk (45, 65) (Some yg) None ys;
    HueCorrection.mk (270, 300) None (Some pb) ps;
    HueCorrection.mk (170, 200) (Some tg) None ts ].

(** [DEVICE_PROFILES], in the order of the object literal.  The first
    version of the script declares the first three entries only (without
    [brand], [software] and [brightnessRecommendation]), with the same
    numbers. *)
Definition DEVICE_PROFILES : list (string * Profile.t) :=
  [ ("tl-fans"%string,
     Profile.mk "Lian Li TL Fans" "lianli" "L-Connect" 0.85 (-8) 1.15 0.7 None
       (corrections 0.08 (-10) 0.15 (-5) 0.85 5 0.9 3));
    ("strimer"%string,
     Profile.mk "Lian Li Strimer" "lianli" "L-Connect" 0.80 (-10) 1.2 0.65 (Some 40)
       (corrections 0.10 (-12) 0.18 (-6) 0.82 6 0.88 4));
    ("sl-fans"%string,
     Profile.mk "Lian Li SL Fans" "lianli" "L-Connect" 0.88 (-6) 1.1 0.75 None
       (corrections 0.12 (-8) 0.20 (-4) 0.88 4 0.92 2));
    ("corsair-ql"%string,
     Profile.mk "Corsair QL Fans" "corsair" "iCUE" 0.73 (-12) 1.2 0.7 None
       (corrections 0.09 (-15) 0.12 (-8) 0.80 8 0.85 5));
    ("corsair-ll"%string,
     Profile.mk "Corsair LL Fans" "corsair" "iCUE" 0.78 (-10) 1.15 0.72 None
       (corrections 0.10 (-12) 0.15 (-6) 0.82 6 0.88 4));
    ("corsair-sp"%string,
     Profile.mk "Corsair SP/ML Fans" "corsair" "iCUE" 0.80 (-8) 1.1 0.75 None
       (corrections 0.27 (-10) 0.18 (-5) 0.85 5 0.90 3));
    ("nzxt-aer"%string,
     Profile.mk "NZXT Aer RGB" "nzxt" "CAM" 0.82 (-8) 1.15 0.70 None
       (corrections 0.05 (-12) 0.10 (-8) 0.80 8 0.85 5));
    ("nzxt-kraken"%string,
     Profile.mk "NZXT Kraken" "nzxt" "CAM" 0.80 (-10) 1.2 0.68 None
       (corrections 0.02 (-15) 0.08 (-10) 0.78 10 0.82 6));
    ("nzxt-hue"%string,
     Profile.mk "NZXT Hue 2" "nzxt" "CAM" 0.85 (-6) 1.1 0.75 None
       (corrections 0.08 (-10) 0.12 (-6) 0.85 5 0.88 4));
    ("cm-masterfan"%string,
     Profile.mk "CM MasterFan" "coolermaster" "MasterPlus+" 0.85 (-5) 1.1 0.78 None
       (corrections 0.15 (-8) 0.20 (-4) 0.88 4 0.90 2));
    ("cm-sickleflow"%string,
     Profile.mk "CM SickleFlow" "coolermaster" "MasterPlus+" 0.82 (-7) 1.15 0.75 None
       (corrections 0.12 (-10) 0.18 (-5) 0.85 5 0.88 3));
    ("cm-halos"%string,
     Profile.mk "CM MasterFan Halo" "coolermaster" "MasterPlus+" 0.80 (-8) 1.2 0.72 None
       (corrections 0.10 (-12) 0.15 (-6) 0.82 6 0.85 4)) ].

(** [DEVICE_PROFILES[key]] for a key of the registry; [None] stands for
    every other key.  For most of those the property read gives
    [undefined]; for a name every object inherits ([constructor],
    [__proto__], ...) it gives a value that is no profile. *)
Fixpoint lookup (key : string) (table : list (string * Profile.t)) : option Profile.t :=
  match table with
  | [] => None
  | (k, p) :: rest => if String.eqb key k then Some p else lookup key rest
  end.

(** ** Color correction algorithm *)

(** [getColorCategory(hue)]. *)
Definition getColorCategory (hue : number) : string :=
  if (0 <=? hue) && (hue <? 15) then "red"
  else if (15 <=? hue) && (hue <? 45) then "orange"
  else if (45 <=? hue) && (hue <? 70) then "yellow"
  else if (70 <=? hue) && (hue <? 150) then "green"
  else if (150 <=? hue) && (hue <? 200) then "teal"
  else if (200 <=? hue) && (hue <? 260) then "blue"
  else if (260 <=? hue) && (hue <? 310) then "purple"
  else if (310 <=? hue) && (hue <? 340) then "pink"
  else "red".

(** The [for ... of] loop of [correctColor]: the first correction whose
    range holds the hue, [None] when the loop ends with
    [specialCorrection] still [null]. *)
Fixpoint findCorrection (hue : number) (cs : list HueCorrection.t)
  : option HueCorrection.t :=
  match cs with
  | [] => None
  | correction :: rest =>
      let '(min, max) := HueCorrection.range correction in
      if (min <=? hue) && (hue <=? max) then Some correction
      else findCorrection hue rest
  end.

(** The body of [correctColor] once [profile] is bound. *)
Definition correctWith (profile : Profile.t) (rgb : RGB) : RGB :=
  let hsl := rgbToHsl (r rgb) (g rgb) (b rgb) in
  let specialCorrection := findCorrection (h hsl) (Profile.hueCorrections profile) in
  let '(correctedG, correctedB, correctedHue) :=
    match specialCorrection with
    | Some sc =>
        let correctedG :=
          match HueCorrection.greenMultiplier sc with
          | Some m => Math_round (g rgb * m)
          | None => g rgb
          end in
        let correctedB :=
          match HueCorrection.blueMultiplier sc with
          | Some m => Math_round (b rgb * m)
          | None => b rgb
          end in
        (correctedG, correctedB,
         Math_max 0 (Math_min 360 (h hsl + HueCorrection.hueShift sc)))
    | None =>
        let '(correctedG, correctedHue) :=
          if (0 <=? h hsl) && (h hsl <=? 90) then
            let warmFactor := 1 - h hsl / 90 in
            let greenReductionAmount :=
              warmFactor * (1 - Profile.greenReduction profile) in
            (Math_round (g rgb * (1 - greenReductionAmount)),
             Math_max 0 (h hsl + Profile.hueShift profile * warmFactor))
          else (g rgb, h hsl) in
        let correctedB :=
          if (200 <=? h hsl) && (h hsl <=? 340) then
            let coolFactor := 1 - Math_abs ((h hsl - 270) / 70) in
            let blueReductionAmount :=
              coolFactor * (1 - Profile.blueReduction profile) in
            Math_round (b rgb * (1 - blueReductionAmount * 0.3))
          else b rgb in
        (correctedG, correctedB, correctedHue)
    end in
  let correctedSat := Math_min 100 (s hsl * Profile.saturationBoost profile) in
  let '(correctedR, correctedG, correctedB) :=
    if (2 <? Math_abs (correctedHue - h hsl))
       || (5 <? Math_abs (correctedSat - s hsl)) then
      let newRgb := hslToRgb correctedHue correctedSat (l hsl) in
      (Math_round ((r rgb + r newRgb) / 2),
       Math_round ((correctedG + g newRgb) / 2),
       Math_round ((correctedB + b newRgb) / 2))
    else (r rgb, correctedG, correctedB) in
  mkRGB (Math_max 0 (Math_min 255 correctedR))
        (Math_max 0 (Math_min 255 correctedG))
        (Math_max 0 (Math_min 255 correctedB)).

(** [correctColor(rgb, deviceProfile)].  For a key that is not registered
    [profile] is [undefined] or has no [hueCorrections], and the [for]
    loop over [profile.hueCorrections] throws: [None]. *)
Definition correctColor (rgb : RGB) (deviceProfile : string) : option RGB :=
  match lookup deviceProfile DEVICE_PROFILES with
  | Some profile => Some (correctWith profile rgb)
  | None => None
  end.

(** ** UI update *)

(** The script's global state. *)
Record State := mkState {
  currentDevice : string;
  currentBrand : string;
  currentBrightness : number;
  currentColor : RGB
}.

(** What [updateUI] writes into the page: the target colour, the
    corrected colour after the brightness adjustment
    ([adjustedCorrected]) with its hex text, and the category that
    selects the tip. *)
Record View := mkView {
  targetHex : string;
  adjustedCorrected : RGB;
  correctedHex : string;
  category : string
}.

(** [updateUI()]; [None] when [correctColor] throws. *)
Definition updateUI (st : State) : option View :=
  let hex := rgbToHex (r (currentColor st)) (g (currentColor st)) (b (currentColor st)) in
  let hsl := rgbToHsl (r (currentColor st)) (g (currentColor st)) (b (currentColor st)) in
  match correctColor (currentColor st) (currentDevice st) with
  | None => None
  | Some corrected =>
      let brightnessFactor := currentBrightness st / 100 in
      let adjustedCorrected :=
        mkRGB (Math_round (r corrected * brightnessFactor))
              (Math_round (g corrected * brightnessFactor))
              (Math_round (b corrected * brightnessFactor)) in
      let correctedHex :=
        rgbToHex (r adjustedCorrected) (g adjustedCorrected) (b adjustedCorrected) in
      Some (mkView hex adjustedCorrected correctedHex (getColorCategory (h hsl)))
  end.

(** * Specification-side definitions *)

(** The integers [lo, lo+1, ..., lo+n-1]. *)
Fixpoint Zrange (lo : Z) (n : nat) : list Z :=
  match n with
  | O => []
  | S n' => lo :: Zrange (lo + 1) n'
  end.

(** A colour channel: one of the integers 0..255. *)
Definition channels : list Z := Zrange 0 256.

(** The nine hue ranges [lo, hi) of the classifier with their category. *)
Definition category_ranges : list (Z * Z * string) :=
  [ (0, 15, "red"); (15, 45, "orange"); (45, 70, "yellow"); (70, 150, "green");
    (150, 200, "teal"); (200, 260, "blue"); (260, 310, "purple");
    (310, 340, "pink"); (340, 360, "red") ]%Z%string.

Definition in_category_range (z : Z) (e : Z * Z * string) : bool :=
  let '(lo, hi, _) := e in ((lo <=? z) && (z <? hi))%Z.

(** The hexadecimal digits, [[0-9a-fA-F]]. *)
Definition hex_alphabet : list ascii :=
  list_ascii_of_string "0123456789abcdefABCDEF".

Definition all_hex (s : string) : Prop :=
  Forall (fun c => In c hex_alphabet) (list_ascii_of_string s).

(** The grammar [^#?[0-9a-fA-F]{6}$]: six hexadecimal digits after an
    optional [#]. *)
Definition hex_grammar (s : string) : Prop :=
  exists body,
    (s = body \/ s = String "#" body) /\ String.length body = 6%nat /\ all_hex body.

(** The value of a hexadecimal digit: its place among [0..9a..f], or
    among [0..9A..F]. *)
Fixpoint index_of (c : ascii) (cs : list ascii) : option nat :=
  match cs with
  | [] => None
  | x :: rest =>
      if Ascii.eqb c x then Some O
      else match index_of c rest with Some i => Some (S i) | None => None end
  end.

Definition digit_value (c : ascii) : Z :=
  match index_of c (list_ascii_of_string "0123456789abcdef") with
  | Some i => Z.of_nat i
  | None =>
      match index_of c (list_ascii_of_string "0123456789ABCDEF") with
      | Some i => Z.of_nat i
      | None => 0
      end
  end.

(** The channel two hexadecimal digits spell. *)
Definition byte_value (c1 c2 : ascii) : number :=
  of_Z (16 * digit_value c1 + digit_value c2).

(** A hex colour normalized: upper case, with a leading [#]. *)
Definition normalize_hex (s : string) : string :=
  match s with
  | String c body =>
      if Ascii.eqb c "#" then String "#" (toUpperCase body)
      else String "#" (toUpperCase s)
  | EmptyString => String "#" EmptyString
  end.

(** Equality of numbers as a test (of the values, so [0] and [-0] differ). *)
Definition num_eqb (x y : number) : bool := PrimFloat.Leibniz.eqb x y.

Definition rgb_eqb (x y : RGB) : bool :=
  num_eqb (r x) (r y) && num_eqb (g x) (g y) && num_eqb (b x) (b y).

(** The test of the [for ... of] loop: [hsl.h >= min && hsl.h <= max]. *)
Definition in_range (hue : number) (c : HueCorrection.t) : bool :=
  (fst (HueCorrection.range c) <=? hue) && (hue <=? snd (HueCorrection.range c)).

(** The check behind the classifier theorem, run on every hue of [0, 360). *)
Definition category_check (z : Z) : bool :=
  match filter (in_category_range z) category_ranges with
  | [e] => String.eqb (getColorCategory (of_Z z)) (snd e)
  | _ => false
  end.

(** The checks behind the hex round trip: one per channel value, and one
    per pair of hexadecimal digits. *)
Definition toHex_check (k : Z) : bool :=
  match toHex (of_Z k) with
  | String c1 (String c2 EmptyString) =>
      hexClass (upper_ascii c1) && hexClass (upper_ascii c2)
      && num_eqb (parseInt16 (String (upper_ascii c1) (String (upper_ascii c2) EmptyString)))
                 (of_Z k)
  | _ => false
  end.

Definition digits_check (c1 c2 : ascii) : bool :=
  let v := parseInt16 (String c1 (String c2 EmptyString)) in
  num_eqb v (byte_value c1 c2)
  && String.eqb (toUpperCase (toHex v))
                (String (upper_ascii c1) (String (upper_ascii c2) EmptyString)).

(** ** The correction pipeline as the specification words it

    Steps 3 to 7 of the algorithm: the direct correction (branch A under
    an active rule, branch B without one), the saturation boost, the
    reconciliation blend and the final clamp. *)

(** What the direct correction yields: the three channels and the hue. *)
Record Direct := mkDirect {
  directR : number; directG : number; directB : number; directHue : number
}.

(** Branch A: the rule's multipliers where present, the hue shifted by
    the rule and kept in [0, 360]. *)
Definition spec_branchA (rule : HueCorrection.t) (rgb : RGB) (hsl : HSL) : Direct :=
  mkDirect
    (r rgb)
    (match HueCorrection.greenMultiplier rule with
     | Some m => Math_round (g rgb * m)
     | None => g rgb
     end)
    (match HueCorrection.blueMultiplier rule with
     | Some m => Math_round (b rgb * m)
     | None => b rgb
     end)
    (Math_max 0 (Math_min 360 (h hsl + HueCorrection.hueShift rule))).

Definition warmFactor (hue : number) : number := 1 - hue / 90.
Definition coolFactor (hue : number) : number := 1 - Math_abs (hue - 270) / 70.

Definition is_warm (hue : number) : bool := (0 <=? hue) && (hue <=? 90).
Definition is_cool (hue : number) : bool := (200 <=? hue) && (hue <=? 340).

(** Branch B: the warm and the cool correction, each applied on its own
    condition. *)
Definition spec_branchB (profile : Profile.t) (rgb : RGB) (hsl : HSL) : Direct :=
  mkDirect
    (r rgb)
    (if is_warm (h hsl) then
       Math_round (g rgb * (1 - warmFactor (h hsl) * (1 - Profile.greenReduction profile)))
     else g rgb)
    (if is_cool (h hsl) then
       Math_round
         (b rgb * (1 - coolFactor (h hsl) * (1 - Profile.blueReduction profile) * 0.3))
     else b rgb)
    (if is_warm (h hsl) then
       Math_max 0 (h hsl + Profile.hueShift profile * warmFactor (h hsl))
     else h hsl).

Definition spec_direct (profile : Profile.t) (rgb : RGB) (hsl : HSL) : Direct :=
  match findCorrection (h hsl) (Profile.hueCorrections profile) with
  | Some rule => spec_branchA rule rgb hsl
  | None => spec_branchB profile rgb hsl
  end.

(** Step 5. *)
Definition spec_saturation (profile : Profile.t) (hsl : HSL) : number :=
  Math_min 100 (s hsl * Profile.saturationBoost profile).

(** The condition of step 6: the hue moved by more than 2 degrees or the
    saturation by more than 5 points. *)
Definition significant (hsl : HSL) (hue sat : number) : bool :=
  (2 <? Math_abs (hue - h hsl)) || (5 <? Math_abs (sat - s hsl)).

Definition average (x y : number) : number := Math_round ((x + y) / 2).

(** Step 6, before the clamp. *)
Definition spec_reconcile (hsl : HSL) (d : Direct) (sat : number) : RGB :=
  if significant hsl (directHue d) sat then
    let derived := hslToRgb (directHue d) sat (l hsl) in
    mkRGB (average (directR d) (r derived))
          (average (directG d) (g derived))
          (average (directB d) (b derived))
  else mkRGB (directR d) (directG d) (directB d).

(** Step 7. *)
Definition clamp255 (x : number) : number := Math_max 0 (Math_min 255 x).

Definition spec_clamp (c : RGB) : RGB :=
  mkRGB (clamp255 (r c)) (clamp255 (g c)) (clamp255 (b c)).

Definition spec_correct (profile : Profile.t) (rgb : RGB) : RGB :=
  let hsl := rgbToHsl (r rgb) (g rgb) (b rgb) in
  spec_clamp
    (spec_reconcile hsl (spec_direct profile rgb hsl) (spec_saturation profile hsl)).

(** ** The RGB -> HSL -> RGB round trip *)

Definition round_trip (c : RGB) : RGB :=
  let hsl := rgbToHsl (r c) (g c) (b c) in
  hslToRgb (h hsl) (s hsl) (l hsl).

(** Both colours agree within [tol] on every channel. *)
Definition within (tol : number) (x y : RGB) : bool :=
  (Math_abs (r x - r y) <=? tol) && (Math_abs (g x - g y) <=? tol)
  && (Math_abs (b x - b y) <=? tol).

Definition gray (k : Z) : RGB := mkRGB (of_Z k) (of_Z k) (of_Z k).

(** The profile registered under [key] (an empty profile for an unknown
    key); used to name registry entries in examples. *)
Definition profile_named (key : string) : Profile.t :=
  match lookup key DEVICE_PROFILES with
  | Some p => p
  | None => Profile.mk "" "" "" nan nan nan nan None []
  end.

(** What branch B does to a colour of hue [h hsl], as the specification
    states it: the warm correction on [0, 90], the cool one on
    [200, 340], each on its own test, and no change outside both. *)
Definition branchB_contract (profile : Profile.t) (rgb : RGB) : Prop :=
  let hsl := rgbToHsl (r rgb) (g rgb) (b rgb) in
  let d := spec_branchB profile rgb hsl in
  correctWith profile rgb
  = spec_clamp (spec_reconcile hsl d (spec_saturation profile hsl))
  /\ directR d = r rgb
  /\ (is_warm (h hsl) = true ->
      directG d
      = Math_round (g rgb * (1 - warmFactor (h hsl) * (1 - Profile.greenReduction profile)))
      /\ directHue d = Math_max 0 (h hsl + Profile.hueShift profile * warmFactor (h hsl)))
  /\ (is_cool (h hsl) = true ->
      directB d
      = Math_round
          (b rgb * (1 - coolFactor (h hsl) * (1 - Profile.blueReduction profile) * 0.3)))
  /\ (is_warm (h hsl) = false -> directG d = g rgb /\ directHue d = h hsl)
  /\ (is_cool (h hsl) = false -> directB d = b rgb)
  /\ (is_warm (h hsl) = false -> is_cool (h hsl) = false ->
      d = mkDirect (r rgb) (g rgb) (b rgb) (h hsl)).

Definition clamp_check (k : Z) : bool := num_eqb (clamp255 (of_Z k)) (of_Z k).

(** ** Predicates of the proofs *)

(** Zero or finite: neither NaN nor an infinity. *)
Definition sf_finite (x : spec_float) : Prop :=
  match x with
  | S754_zero _ | S754_finite _ _ _ => True
  | _ => False
  end.

(** ** The parts of the conversions

    The sub-expressions of [rgbToHsl] and [hslToRgb], named so that
    facts about them can be stated one at a time. *)

(** [h], [s] and [l] of [rgbToHsl] before the [return] scales and rounds
    them, from the channels already divided by 255. *)
Definition hue_of (max min r g b : number) : number :=
  if strict_eq max min then 0
  else
    let d := max - min in
    if strict_eq max r then ((g - b) / d + (if g <? b then 6 else 0)) / 6
    else if strict_eq max g then ((b - r) / d + 2) / 6
    else if strict_eq max b then ((r - g) / d + 4) / 6
    else nan.

Definition light_of (max min : number) : number := (max + min) / 2.

Definition sat_of (max min : number) : number :=
  if strict_eq max min then 0
  else
    let d := max - min in
    if 0.5 <? light_of max min then d / (2 - max - min) else d / (max + min).

(** [q] and [p] of [hslToRgb]. *)
Definition hsl_q (s l : number) : number :=
  if l <? 0.5 then l * (1 + s) else l + s - l * s.

Definition hsl_p (s l : number) : number := 2 * l - hsl_q s l.

(** The two reassignments of [t] that open [hue2rgb], and its four-way
    choice on the result. *)
Definition wrap (t : number) : number :=
  let t := if t <? 0 then t + 1 else t in
  if 1 <? t then t - 1 else t.

Definition hue2rgb_tail (p q t : number) : number :=
  if t <? 1 / 6 then p + (q - p) * 6 * t
  else if t <? 1 / 2 then q
  else if t <? 2 / 3 then p + (q - p) * (2 / 3 - t) * 6
  else p.

(** ** Exhaustive checks

    Each check below is evaluated over the finite set of inputs named
    with it. *)

(** The channels 0..255 divided by 255. *)
Definition unit_channels : list number :=
  Eval vm_compute in map (fun k => of_Z k / 255) channels.

(** [u] is one of the integers [0..bound]. *)
Definition int_ok (bound : int) (u : number) : bool :=
  let '(fr, e) := frshiftexp u in
  let k := Uint63.lsr (normfr_mantissa fr) (Uint63.sub 2154 e) in
  Uint63.leb k bound && num_eqb (of_uint63 k) u.

(** [u] is [+0], or positive and at most 360. *)
Definition degree_ok (u : number) : bool :=
  (u <=? 360) && ((0 <? u) || num_eqb u 0).

(** *** Every colour

    The check behind the range of the hue of [rgbToHsl] and the
    tolerance of the RGB -> HSL -> RGB round trip runs over every colour.
    Saturation and lightness depend on the largest and the smallest
    channel alone, so the colours are visited by these two, then by the
    middle channel and the order of the three among red, green and
    blue. *)

(** A channel with its share of 255: [(c, c / 255)]. *)
Definition chan_pairs : list (number * number) :=
  Eval vm_compute in map (fun k => (of_Z k, of_Z k / 255)) channels.

(** [Math.round] on a positive number below [2^52], in fewer steps: half
    of the unit is added to the mantissa before it is shifted. *)
Definition round_pos (x : number) : number :=
  let '(frac, e) := frshiftexp x in
  let sh := Uint63.sub 2154 e in
  of_uint63
    (Uint63.lsr (Uint63.add (normfr_mantissa frac) (Uint63.lsl 1 (Uint63.sub sh 1))) sh).

(** [out] is within [tol] of the channel [c]. *)
Definition near (tol out c : number) : bool := Math_abs (out - c) <=? tol.

Definition close (tol : number) (out : RGB) (cr cg cb : number) : bool :=
  near tol (r out) cr && near tol (g out) cg && near tol (b out) cb.

(** The first and the third branch of [hue2rgb], scaled and rounded, with
    [d6 = (q - p) * 6] and [qp = q - p]. *)
Definition rise (p d6 t : number) : number := round_pos ((p + d6 * t) * 255).
Definition fall (p qp t : number) : number :=
  round_pos ((p + qp * (2 / 3 - t) * 6) * 255).

(** [hslToRgb] for a hue [kh] of 0..360 once [p] and [q] are known, with
    [P] and [Q] their scaled and rounded values: the hue's sixth of the
    circle tells which branch of [hue2rgb] each channel takes. *)
Definition fast_rgb (P Q p d6 qp kh : number) : RGB :=
  let hq := kh / 360 in
  if kh <? 180 then
    if kh <? 60 then mkRGB Q (rise p d6 hq) P
    else if kh <? 120 then mkRGB (fall p qp (hq + 1 / 3)) Q P
    else mkRGB P Q (rise p d6 (hq - 1 / 3))
  else
    if kh <? 241 then (if kh <? 240 then mkRGB P (fall p qp hq) Q else mkRGB P P Q)
    else if kh <? 300 then mkRGB (rise p d6 (hq + 1 / 3 - 1)) P Q
    else if kh <? 360 then mkRGB Q P (fall p qp (hq - 1 / 3))
    else mkRGB Q P P.

(** The places of the largest, the middle and the smallest channel among
    red, green and blue. *)
Inductive Order := HML | HLM | MHL | LHM | MLH | LMH.

Definition arrange {A : Type} (o : Order) (hi mid lo : A) : A * A * A :=
  match o with
  | HML => (hi, mid, lo)
  | HLM => (hi, lo, mid)
  | MHL => (mid, hi, lo)
  | LHM => (lo, hi, mid)
  | MLH => (mid, lo, hi)
  | LMH => (lo, mid, hi)
  end.

(** The hue [rgbToHsl] computes (before it scales it by 360) for a colour
    so arranged, from the largest, middle and smallest channel and
    [d = mx - mn]. *)
Definition hue_arranged (o : Order) (mx md mn d : number) : number :=
  match o with
  | HML => ((md - mn) / d + 0) / 6
  | HLM => ((mn - md) / d + (if mn <? md then 6 else 0)) / 6
  | MHL => if strict_eq mx md then ((mx - mn) / d + 0) / 6 else ((mn - md) / d + 2) / 6
  | LHM => ((md - mn) / d + 2) / 6
  | MLH => if strict_eq mx md then ((mn - mx) / d + 6) / 6 else ((md - mn) / d + 4) / 6
  | LMH => if strict_eq mx md then ((mx - mn) / d + 2) / 6 else ((mn - md) / d + 4) / 6
  end.

(** [f] on each of the six orders with the hue of the colour so arranged,
    scaled by 360: [hue_arranged] written out, its quotients shared. *)
Definition six_orders (f : Order -> number -> bool) (mx md mn d : number) : bool :=
  let top := strict_eq mx md in
  let up := (md - mn) / d in
  let down := (mn - md) / d in
  f HML ((up + 0) / 6 * 360)
  && f HLM ((down + (if mn <? md then 6 else 0)) / 6 * 360)
  && f MHL ((if top then ((mx - mn) / d + 0) / 6 else (down + 2) / 6) * 360)
  && f LHM ((up + 2) / 6 * 360)
  && f MLH ((if top then ((mn - mx) / d + 6) / 6 else (up + 4) / 6) * 360)
  && f LMH ((if top then ((mx - mn) / d + 2) / 6 else (down + 4) / 6) * 360).

(** Every colour whose largest channel is [hi] and smallest [lo]: its
    hue before rounding is [+0] or positive and at most 360, and the
    round trip brings it back within [tol].  Without saturation the
    round trip gives a gray. *)
Definition pair_check (tol : number) (hi lo : number * number) : bool :=
  if snd lo <=? snd hi then
    let mx := snd hi in
    let mn := snd lo in
    let d := mx - mn in
    let s := Math_round (sat_of mx mn * 100) / 100 in
    let l := Math_round (light_of mx mn * 100) / 100 in
    if strict_eq s 0 then
      let G := Math_round (l * 255) in
      let flat := strict_eq mx mn in
      forallb
        (fun mid : number * number =>
           if (mn <=? snd mid) && (snd mid <=? mx) then
             near tol G (fst hi) && near tol G (fst mid) && near tol G (fst lo)
             && (flat || six_orders (fun _ u => degree_ok u) mx (snd mid) mn d)
           else true)
        chan_pairs
    else
      let q := hsl_q s l in
      let p := hsl_p s l in
      let P := round_pos (p * 255) in
      let Q := round_pos (q * 255) in
      let qp := q - p in
      let d6 := qp * 6 in
      forallb
        (fun mid : number * number =>
           if (mn <=? snd mid) && (snd mid <=? mx) then
             six_orders
               (fun o u =>
                  degree_ok u
                  && let '(cr, cg, cb) := arrange o (fst hi) (fst mid) (fst lo) in
                     close tol (fast_rgb P Q p d6 qp (round_pos u)) cr cg cb)
               mx (snd mid) mn d
           else true)
        chan_pairs
  else true.

(** Saturation and lightness are integers of 0..100 for every pair of a
    largest and a smallest channel. *)
Definition sl_check (mx mn : number) : bool :=
  if mn <=? mx then
    int_ok 100 (Math_round (sat_of mx mn * 100))
    && int_ok 100 (Math_round (light_of mx mn * 100))
  else true.

(** The registered profiles. *)
Definition profiles : list Profile.t := map snd DEVICE_PROFILES.

(** The corrected hue depends on the profile and the hue alone. *)
Definition corrected_hue (profile : Profile.t) (hue : number) : number :=
  directHue (spec_direct profile (mkRGB 0 0 0) (mkHSL hue 0 0)).

(** The directly corrected green and blue of a channel value [c] under
    hue [kh] are integers of 0..255. *)
Definition direct_check (profile : Profile.t) (kh c : Z) : bool :=
  let d := spec_direct profile (mkRGB 0 (of_Z c) (of_Z c)) (mkHSL (of_Z kh) 0 0) in
  int_ok 255 (directG d) && int_ok 255 (directB d).

(** The argument [hue2rgb] works on after its two reassignments is
    finite, and so is its distance to 2/3. *)
Definition t_ok (t0 : number) : bool :=
  let t := wrap t0 in is_finite t && is_finite (2 / 3 - t).

Definition hue_arg_check (profile : Profile.t) (kh : Z) : bool :=
  let hq := corrected_hue profile (of_Z kh) / 360 in
  t_ok (hq + 1 / 3) && t_ok hq && t_ok (hq - 1 / 3).

(** [p], [q] and what [hue2rgb] derives from them are finite. *)
Definition pq_check (profile : Profile.t) (ks kl : Z) : bool :=
  let sat := Math_min 100 (of_Z ks * Profile.saturationBoost profile) in
  let s := sat / 100 in
  let l := of_Z kl / 100 in
  if strict_eq s 0 then is_finite l
  else
    let q := hsl_q s l in
    let p := hsl_p s l in
    is_finite p && is_finite q && is_finite (q - p) && is_finite ((q - p) * 6).

(** Between 0 and 255, ends included. *)
Definition in_0_255 (x : number) : bool := (0 <=? x) && (x <=? 255).

(** ** Brightness *)

(** The slider's handler assigns [currentBrightness] and calls
    [updateUI]; this is the state it leaves. *)
Definition set_brightness (st : State) (percent : number) : State :=
  mkState (currentDevice st) (currentBrand st) percent (currentColor st).

(** [scale(rgb, brightnessPercent)] of the specification. *)
Definition scale (c : RGB) (percent : number) : RGB :=
  mkRGB (Math_round (r c * (percent / 100)))
        (Math_round (g c * (percent / 100)))
        (Math_round (b c * (percent / 100))).

(** Half of an integer, rounded to the nearest integer, ties upwards. *)
Definition half_up (k : Z) : Z := (k + 1) / 2.

(** The brightness scaling of one channel value at 100 and at 50. *)
Definition scale_check (k : Z) : bool :=
  num_eqb (Math_round (of_Z k * (100 / 100))) (of_Z k)
  && num_eqb (Math_round (of_Z k * (50 / 100))) (Math_round (of_Z k / 2))
  && num_eqb (Math_round (of_Z k / 2)) (of_Z (half_up k)).

(** * The rest of the script

    What the page does around the colour functions: the tip it shows,
    and the event handlers, which are the only writers of the state. *)

(** ** Tips *)

(** [COLOR_TIPS], in the order of the object literal. *)
Definition COLOR_TIPS : list (string * string) :=
  [ ("orange",
     "For orange colors, the green channel needs significant reduction. LEDs over-represent green, making orange appear yellow.");
    ("yellow",
     "Yellow is tricky because it's created by mixing red and green. Reduce green substantially and boost red.");
    ("purple",
     "Purple often appears too blue on LEDs. We reduce the blue channel and shift the hue slightly.");
    ("teal",
     "Teal and cyan can appear too green. We balance the green and blue channels for accuracy.");
    ("red",
     "Pure red usually displays accurately, but slight adjustments help maintain vibrancy.");
    ("green",
     "Green LEDs are naturally bright. Consider if you want the full intensity.");
    ("blue",
     "Blue typically displays well on LEDs with minimal correction needed.");
    ("pink",
     "Pink requires careful balancing of red and blue to avoid appearing too magenta.");
    ("default",
     "Use the corrected values in your control software to achieve the desired color.")
  ]%string.

(** [COLOR_TIPS[key]]; [None] is [undefined]. *)
Fixpoint tip_of (key : string) (table : list (string * string)) : option string :=
  match table with
  | [] => None
  | (k, t) :: rest => if String.eqb key k then Some t else tip_of key rest
  end.

(** [COLOR_TIPS[category] || COLOR_TIPS.default]: the left operand unless
    it is [undefined] or the empty string. *)
Definition choose_tip (category : string) : option string :=
  match tip_of category COLOR_TIPS with
  | Some EmptyString => tip_of "default" COLOR_TIPS
  | Some text => Some text
  | None => tip_of "default" COLOR_TIPS
  end.

(** The text [updateUI] writes into [tipText] for the current colour. *)
Definition tipText (st : State) : option string :=
  let hsl := rgbToHsl (r (currentColor st)) (g (currentColor st)) (b (currentColor st)) in
  choose_tip (getColorCategory (h hsl)).

(** ** Event handlers *)

(** The state the script starts in. *)
Definition initial_state : State :=
  mkState "tl-fans" "lianli" 100 (mkRGB 255 102 0).

(** What a handler leaves behind: the state, and whether it went on to
    call [updateUI()]. *)
Record Handled := mkHandled { state : State; updated : bool }.

(** [currentColor = rgb]. *)
Definition set_color (st : State) (rgb : RGB) : State :=
  mkState (currentDevice st) (currentBrand st) (currentBrightness st) rgb.

(** The colour picker's [input] handler; [value] is [e.target.value]. *)
Definition onColorPicker (value : string) (st : State) : Handled :=
  match hexToRgb value with
  | Some rgb => mkHandled (set_color st rgb) true
  | None => mkHandled st false
  end.

(** [value.startsWith('#')]. *)
Definition startsWithHash (value : string) : bool :=
  match value with
  | String c _ => Ascii.eqb c "#"
  | EmptyString => false
  end.

(** The hex box's [input] handler. *)
Definition onHexInput (value : string) (st : State) : Handled :=
  let value := if negb (startsWithHash value) then String "#" value else value in
  if isValidHex value then
    match hexToRgb value with
    | Some rgb => mkHandled (set_color st rgb) true
    | None => mkHandled st false
    end
  else mkHandled st false.

(** The hex box's [blur] handler: the text it writes back into the box. *)
Definition onHexBlur (st : State) : string :=
  rgbToHex (r (currentColor st)) (g (currentColor st)) (b (currentColor st)).

(** The three channel boxes; [id.charAt(0)] names the channel written. *)
Inductive Channel := rInput | gInput | bInput.

Definition channel_of (id : Channel) (c : RGB) : number :=
  match id with
  | rInput => r c
  | gInput => g c
  | bInput => b c
  end.

(** [x || 0] on a number: NaN and both zeros are falsy. *)
Definition or_zero (x : number) : number :=
  if is_nan x || (x =? 0) then 0 else x.

(** A channel box's [input] handler; [parsed] is what
    [parseInt(e.target.value)] returned. *)
Definition onChannelInput (id : Channel) (parsed : number) (st : State) : Handled :=
  let value := or_zero parsed in
  let v := Math_max 0 (Math_min 255 value) in
  let c := currentColor st in
  mkHandled
    (set_color st
       (match id with
        | rInput => mkRGB v (g c) (b c)
        | gInput => mkRGB (r c) v (b c)
        | bInput => mkRGB (r c) (g c) v
        end))
    true.

(** A brand tab's [click] handler; [firstDevice] is the [data-device] of
    the first device button of the brand, [None] when [querySelector]
    finds no such button. *)
Definition onBrandTab (brand : string) (firstDevice : option string) (st : State)
  : Handled :=
  match firstDevice with
  | Some device =>
      mkHandled (mkState device brand (currentBrightness st) (currentColor st)) true
  | None => mkHandled st true
  end.

(** A device button's [click] handler; [hidden] tells whether the button
    carries the class [hidden], [device] and [brand] are its data
    attributes. *)
Definition onDeviceClick (hidden : bool) (device brand : string) (st : State)
  : Handled :=
  if hidden then mkHandled st false
  else mkHandled (mkState device brand (currentBrightness st) (currentColor st)) true.

(** The brightness slider's [input] handler; [parsed] is what
    [parseInt(e.target.value)] returned. *)
Definition onBrightness (parsed : number) (st : State) : Handled :=
  mkHandled (set_brightness st parsed) true.

(** A preset button's [click] handler; [color] is its [data-color]. *)
Definition onPreset (color : string) (st : State) : Handled :=
  match hexToRgb color with
  | Some rgb => mkHandled (set_color st rgb) true
  | None => mkHandled st false
  end.

(** The events that reach a handler writing the state. *)
Inductive Event :=
| ColorPicked (value : string)
| HexTyped (value : string)
| ChannelTyped (id : Channel) (parsed : number)
| BrandClicked (brand : string) (firstDevice : option string)
| DeviceClicked (hidden : bool) (device brand : string)
| BrightnessMoved (parsed : number)
| PresetClicked (color : string).

Definition handle (e : Event) (st : State) : Handled :=
  match e with
  | ColorPicked value => onColorPicker value st
  | HexTyped value => onHexInput value st
  | ChannelTyped id parsed => onChannelInput id parsed st
  | BrandClicked brand firstDevice => onBrandTab brand firstDevice st
  | DeviceClicked hidden device brand => onDeviceClick hidden device brand st
  | BrightnessMoved parsed => onBrightness parsed st
  | PresetClicked color => onPreset color st
  end.

(** The state after a sequence of events, the earliest first. *)
Fixpoint run (events : list Event) (st : State) : State :=
  match events with
  | [] => st
  | e :: rest => run rest (state (handle e st))
  end.

(** [parseInt] returns NaN or an integral number (an infinity among
    them): a number [Math.round] leaves as it is. *)
Definition integral (x : number) : Prop := Math_round x = x.

Definition parsed_integral (e : Event) : Prop :=
  match e with
  | ChannelTyped _ parsed => integral parsed
  | _ => True
  end.

(** A colour whose channels are integers of 0..255. *)
Definition valid_color (c : RGB) : Prop :=
  exists kr kg kb,
    In kr channels /\ In kg channels /\ In kb channels
    /\ c = mkRGB (of_Z kr) (of_Z kg) (of_Z kb).

(** ** Checks for the rest of the script *)

(** [y] is one of the integers 0..[bound]. *)
Definition int_upto (bound : Z) (y : number) : bool :=
  let k := to_integer y in
  (0 <=? k)%Z && (k <=? bound)%Z && num_eqb (of_Z k) y.

(** The green the correction gives the gray [(v, v, v)]. *)
Definition gray_green (profile : Profile.t) (v : Z) : number :=
  Math_round (of_Z v * (1 - (1 - Profile.greenReduction profile))).

Definition gray_correct_check (profile : Profile.t) (v : Z) : bool :=
  rgb_eqb (correctWith profile (gray v))
          (mkRGB (of_Z v) (gray_green profile v) (of_Z v))
  && int_upto v (gray_green profile v).

(** The corrected hue lies in [0, 360], the corrected saturation in
    [0, 100]. *)
Definition hue_range_check (profile : Profile.t) (kh : Z) : bool :=
  let hue := corrected_hue profile (of_Z kh) in
  (0 <=? hue) && (hue <=? 360).

Definition sat_range_check (profile : Profile.t) (ks : Z) : bool :=
  let sat := Math_min 100 (of_Z ks * Profile.saturationBoost profile) in
  (0 <=? sat) && (sat <=? 100).

(** A channel [c] dimmed to [p] percent is an integer of 0..[c]. *)
Definition dim_check (p c : Z) : bool :=
  int_upto c (Math_round (of_Z c * (of_Z p / 100))).

(** A channel before [Math.round]: [+0], or positive and at most 255. *)
Definition channel_ok (y : number) : bool :=
  (y <=? 255) && ((0 <? y) || num_eqb y 0).

(** The percentages 0..100 divided by 100. *)
Definition percents : list number :=
  Eval vm_compute in map (fun k => of_Z k / 100) (Zrange 0 101).

(** The three arguments [hue2rgb] works on for a hue, after its two
    reassignments. *)
Definition hue_args (kh : Z) : list number :=
  let hq := of_Z kh / 360 in
  [wrap (hq + 1 / 3); wrap hq; wrap (hq - 1 / 3)].

Definition wrapped_hues : list number :=
  Eval vm_compute in flat_map hue_args (Zrange 0 361).

(** Every channel [hslToRgb] computes for saturation [s] and lightness
    [l] (both already divided by 100) is in range before it is rounded:
    the check over every hue. *)
Definition hsl_row (s l : number) : bool :=
  if strict_eq s 0 then channel_ok (l * 255)
  else
    let q := hsl_q s l in
    let p := hsl_p s l in
    forallb (fun t => channel_ok (hue2rgb_tail p q t * 255)) wrapped_hues.

(** Hue 360 gives the colour of hue 0. *)
Definition hue_wrap_check (ks kl : Z) : bool :=
  rgb_eqb (hslToRgb 360 (of_Z ks) (of_Z kl)) (hslToRgb 0 (of_Z ks) (of_Z kl)).

(** Lightness 0 is black and lightness 100 white. *)
Definition lightness_ends_check (kh ks : Z) : bool :=
  rgb_eqb (hslToRgb (of_Z kh) (of_Z ks) 0) (gray 0)
  && rgb_eqb (hslToRgb (of_Z kh) (of_Z ks) 100) (gray 255).


(** The hues the direct correction has nothing for: past every rule's
    range and outside the warm and the cool range. *)
Definition idle_hue (hue : number) : bool :=
  ((90 <? hue) && (hue <? 170)) || (340 <? hue).

Definition idle_hue_check (profile : Profile.t) (kh : Z) : bool :=
  let hue := of_Z kh in
  if idle_hue hue then
    match findCorrection hue (Profile.hueCorrections profile) with
    | Some _ => false
    | None =>
        negb (is_warm hue) && negb (is_cool hue) && negb (2 <? Math_abs (hue - hue))
    end
  else true.

(** * Facts about binary64 comparison

    The primitive comparisons are specified on [spec_float]; there the
    order is: sign, then exponent, then mantissa. *)

Module FloatOrder.

Ltac cmp_cases :=
  repeat match goal with
    | |- context [Z.compare ?a ?b] => destruct (Z.compare_spec a b)
    | H : context [Z.compare ?a ?b] |- _ => destruct (Z.compare_spec a b)
    | |- context [Pos.compare_cont Eq ?a ?b] =>
        change (Pos.compare_cont Eq a b) with (Pos.compare a b);
        destruct (Pos.compare_spec a b)
    | H : context [Pos.compare_cont Eq ?a ?b] |- _ =>
        change (Pos.compare_cont Eq a b) with (Pos.compare a b) in H;
        destruct (Pos.compare_spec a b)
    end.

Ltac sf_order :=
  unfold SFltb, SFleb, SFeqb; intros;
  repeat match goal with x : spec_float |- _ => destruct x as [[|]|[|]| |[|] ? ?] end;
  simpl in *; try reflexivity; try discriminate; try congruence;
  cmp_cases; simpl in *; subst; try reflexivity; try discriminate; try lia.

Lemma SFltb_leb_trans x y z :
  SFltb x y = true -> SFleb y z = true -> SFltb x z = true.
Proof. sf_order. Qed.

Lemma SFleb_ltb_trans x y z :
  SFleb x y = true -> SFltb y z = true -> SFltb x z = true.
Proof. sf_order. Qed.

Lemma SFleb_trans x y z :
  SFleb x y = true -> SFleb y z = true -> SFleb x z = true.
Proof. sf_order. Qed.

Lemma SFltb_not_leb x y : SFltb x y = true -> SFleb y x = false.
Proof. sf_order. Qed.

Lemma SFleb_not_ltb x y : SFleb x y = true -> SFltb y x = false.
Proof. sf_order. Qed.

Lemma SFltb_leb x y : SFltb x y = true -> SFleb x y = true.
Proof. sf_order. Qed.

Lemma SFleb_total x y :
  x <> S754_nan -> y <> S754_nan -> SFltb x y = false -> SFleb y x = true.
Proof. sf_order. Qed.

Lemma SFeqb_refl x : x <> S754_nan -> SFeqb x x = true.
Proof.
  destruct x as [[|]|[|]| |[|] m e]; unfold SFeqb; simpl; try congruence;
    rewrite Z.compare_refl;
    change (Pos.compare_cont Eq m m) with (Pos.compare m m);
    rewrite Pos.compare_refl; reflexivity.
Qed.

End FloatOrder.

(** The same facts on numbers, through the specification of the
    primitive operations. *)
Module NumberOrder.

Lemma is_nan_spec x : is_nan x = true <-> Prim2SF x = S754_nan.
Proof.
  unfold is_nan. rewrite FloatAxioms.eqb_spec. split.
  - intros H. destruct (Prim2SF x) eqn:E; try reflexivity;
      rewrite FloatOrder.SFeqb_refl in H by discriminate; discriminate.
  - intros ->. reflexivity.
Qed.

Lemma not_nan_spec x : is_nan x = false <-> Prim2SF x <> S754_nan.
Proof.
  destruct (is_nan_spec x) as [H1 H2].
  destruct (is_nan x); split; intros H; try congruence.
  - elim H. auto.
  - intros E. specialize (H2 E). discriminate.
Qed.

Lemma ltb_leb_trans x y z : (x <? y) = true -> (y <=? z) = true -> (x <? z) = true.
Proof. rewrite !FloatAxioms.ltb_spec, FloatAxioms.leb_spec. apply FloatOrder.SFltb_leb_trans. Qed.

Lemma leb_ltb_trans x y z : (x <=? y) = true -> (y <? z) = true -> (x <? z) = true.
Proof. rewrite !FloatAxioms.ltb_spec, FloatAxioms.leb_spec. apply FloatOrder.SFleb_ltb_trans. Qed.

Lemma leb_trans x y z : (x <=? y) = true -> (y <=? z) = true -> (x <=? z) = true.
Proof. rewrite !FloatAxioms.leb_spec. apply FloatOrder.SFleb_trans. Qed.

Lemma ltb_not_leb x y : (x <? y) = true -> (y <=? x) = false.
Proof. rewrite FloatAxioms.ltb_spec, FloatAxioms.leb_spec. apply FloatOrder.SFltb_not_leb. Qed.

Lemma leb_not_ltb x y : (x <=? y) = true -> (y <? x) = false.
Proof. rewrite FloatAxioms.ltb_spec, FloatAxioms.leb_spec. apply FloatOrder.SFleb_not_ltb. Qed.

Lemma ltb_leb x y : (x <? y) = true -> (x <=? y) = true.
Proof. rewrite FloatAxioms.ltb_spec, FloatAxioms.leb_spec. apply FloatOrder.SFltb_leb. Qed.

Lemma leb_total x y :
  is_nan x = false -> is_nan y = false -> (x <? y) = false -> (y <=? x) = true.
Proof.
  rewrite !not_nan_spec, FloatAxioms.ltb_spec, FloatAxioms.leb_spec. apply FloatOrder.SFleb_total.
Qed.

(** Every comparison with NaN is false. *)
Lemma nan_leb_l x y : is_nan x = true -> (x <=? y) = false.
Proof. rewrite is_nan_spec, FloatAxioms.leb_spec. intros ->. reflexivity. Qed.

Lemma nan_leb_r x y : is_nan y = true -> (x <=? y) = false.
Proof.
  rewrite is_nan_spec, FloatAxioms.leb_spec. intros ->. destruct (Prim2SF x); reflexivity.
Qed.

Lemma nan_ltb_l x y : is_nan x = true -> (x <? y) = false.
Proof. rewrite is_nan_spec, FloatAxioms.ltb_spec. intros ->. reflexivity. Qed.

Lemma nan_ltb_r x y : is_nan y = true -> (x <? y) = false.
Proof.
  rewrite is_nan_spec, FloatAxioms.ltb_spec. intros ->. destruct (Prim2SF x); reflexivity.
Qed.

(** A number below [lo] is below every constant from [lo] on, and a
    number from [hi] on is under no constant up to [hi]. *)
Lemma below_fails x lo c :
  (x <? lo) = true -> (lo <=? c) = true -> (c <=? x) = false.
Proof. intros H1 H2. apply ltb_not_leb. eapply ltb_leb_trans; eauto. Qed.

Lemma above_fails x hi c :
  (hi <=? x) = true -> (c <=? hi) = true -> (x <? c) = false.
Proof. intros H1 H2. apply leb_not_ltb. eapply leb_trans; eauto. Qed.

End NumberOrder.

(** * Enumeration over small integer ranges *)

Lemma In_Zrange z lo n : In z (Zrange lo n) <-> (lo <= z < lo + Z.of_nat n)%Z.
Proof.
  revert lo. induction n as [|n IH]; intros lo; simpl.
  - lia.
  - rewrite IH. lia.
Qed.

Lemma In_channels z : In z channels <-> (0 <= z <= 255)%Z.
Proof. unfold channels. rewrite In_Zrange. simpl. lia. Qed.

Lemma forallb_Zrange (f : Z -> bool) lo n :
  forallb f (Zrange lo n) = true ->
  forall z, (lo <= z < lo + Z.of_nat n)%Z -> f z = true.
Proof.
  intros H z Hz. rewrite forallb_forall in H. apply H, In_Zrange, Hz.
Qed.

(** * The hue classifier *)

Lemma category_check_all : forallb category_check (Zrange 0 360) = true.
Proof. vm_compute. reflexivity. Qed.

(** C7.  Every integer hue of [0, 360) lies in exactly one of the nine
    ranges [0,15) [15,45) [45,70) [70,150) [150,200) [200,260) [260,310)
    [310,340) [340,360), and [getColorCategory] returns that range's
    category (red, orange, yellow, green, teal, blue, purple, pink, red);
    each boundary hue gets the category of the range it starts. *)
Theorem getColorCategory_partition (z : Z) (Hz : (0 <= z < 360)%Z) :
  (exists e,
      In e category_ranges /\ in_category_range z e = true
      /\ getColorCategory (of_Z z) = snd e
      /\ forall e', In e' category_ranges -> in_category_range z e' = true -> e' = e)
  /\ Forall (fun e => getColorCategory (of_Z (fst (fst e))) = snd e) category_ranges.
Proof.
  split.
  - pose proof (forallb_Zrange _ _ _ category_check_all z Hz) as H.
    unfold category_check in H.
    destruct (filter (in_category_range z) category_ranges) as [|e [|e2 rest]] eqn:F;
      try discriminate.
    assert (Hin : forall x, In x category_ranges /\ in_category_range z x = true <-> x = e).
    { intros x. rewrite <- filter_In, F. simpl. intuition congruence. }
    exists e. destruct (proj2 (Hin e) eq_refl) as [He1 He2].
    repeat split; trivial.
    + apply String.eqb_eq, H.
    + intros e' H1 H2. apply Hin. auto.
  - repeat constructor.
Qed.

Lemma getColorCategory_partition_witness :
  (exists e,
      In e category_ranges /\ in_category_range 45 e = true
      /\ getColorCategory (of_Z 45) = snd e
      /\ forall e', In e' category_ranges -> in_category_range 45 e' = true -> e' = e)
  /\ Forall (fun e => getColorCategory (of_Z (fst (fst e))) = snd e) category_ranges.
Proof. apply (getColorCategory_partition 45). lia. Defined.

(** * The scan for a special correction *)

Lemma findCorrection_cons hue c cs :
  findCorrection hue (c :: cs)
  = if in_range hue c then Some c else findCorrection hue cs.
Proof.
  unfold in_range. simpl. destruct (HueCorrection.range c). reflexivity.
Qed.

Lemma findCorrection_Some hue cs c :
  findCorrection hue cs = Some c <->
  exists pre post,
    cs = pre ++ c :: post /\ in_range hue c = true
    /\ Forall (fun x => in_range hue x = false) pre.
Proof.
  induction cs as [|c0 cs IH].
  - simpl. split; [discriminate|].
    intros (pre & post & E & _). destruct pre; discriminate.
  - rewrite findCorrection_cons. destruct (in_range hue c0) eqn:R.
    + split.
      * intros [= <-]. exists [], cs. auto.
      * intros (pre & post & E & Hc & Hpre).
        destruct pre as [|x pre]; simpl in E; injection E as -> E.
        -- reflexivity.
        -- inversion Hpre; congruence.
    + rewrite IH. split.
      * intros (pre & post & -> & Hc & Hpre). exists (c0 :: pre), post. auto.
      * intros (pre & post & E & Hc & Hpre).
        destruct pre as [|x pre]; simpl in E; injection E as -> E.
        -- congruence.
        -- inversion Hpre; subst. exists pre, post. auto.
Qed.

Lemma findCorrection_None hue cs :
  findCorrection hue cs = None <-> Forall (fun x => in_range hue x = false) cs.
Proof.
  induction cs as [|c0 cs IH].
  - simpl. split; auto.
  - rewrite findCorrection_cons. destruct (in_range hue c0) eqn:R.
    + split; [discriminate|]. inversion 1; congruence.
    + rewrite IH. split; [auto|]. inversion 1; auto.
Qed.

(** C2.  The scan returns the first correction, in list order, whose
    closed interval holds the hue, also when a later interval holds it
    too, and nothing when no interval does.  Both ends are inclusive:
    under 'tl-fans' hue 45 lies in [15,45] and in [45,65], and the scan
    (also the one [correctWith] runs on an input of hue 45) picks the
    first-declared [15,45]. *)
Theorem findCorrection_first_match :
  (forall hue cs c,
      findCorrection hue cs = Some c <->
      exists pre post,
        cs = pre ++ c :: post /\ in_range hue c = true
        /\ Forall (fun x => in_range hue x = false) pre)
  /\ (forall hue cs,
      findCorrection hue cs = None <-> Forall (fun x => in_range hue x = false) cs)
  /\ (forall hue c,
      in_range hue c
      = (fst (HueCorrection.range c) <=? hue) && (hue <=? snd (HueCorrection.range c)))
  /\ exists p orange yellow rest,
      lookup "tl-fans" DEVICE_PROFILES = Some p
      /\ Profile.hueCorrections p = orange :: yellow :: rest
      /\ HueCorrection.range orange = (15, 45)
      /\ HueCorrection.range yellow = (45, 65)
      /\ in_range 45 orange = true /\ in_range 45 yellow = true
      /\ in_range 15 orange = true
      /\ findCorrection 45 (Profile.hueCorrections p) = Some orange
      /\ h (rgbToHsl 255 191 0) = 45
      /\ findCorrection (h (rgbToHsl 255 191 0)) (Profile.hueCorrections p) = Some orange
      /\ correctWith p (mkRGB 255 191 0) = mkRGB 255 82 0.
Proof.
  split; [exact findCorrection_Some|].
  split; [exact findCorrection_None|].
  split; [reflexivity|].
  eexists _, _, _, _.
  split; [reflexivity|]. split; [reflexivity|].
  repeat split; vm_compute; reflexivity.
Qed.

(** * Hex strings *)

Lemma num_eqb_eq x y : num_eqb x y = true <-> x = y.
Proof. apply FloatAxioms.Leibniz.eqb_spec. Qed.

Lemma rgb_eqb_eq x y : rgb_eqb x y = true <-> x = y.
Proof.
  unfold rgb_eqb. rewrite !andb_true_iff, !num_eqb_eq.
  destruct x, y; simpl. split.
  - intros [[-> ->] ->]. reflexivity.
  - intros [= -> -> ->]. auto.
Qed.

Lemma hexClass_alphabet c : hexClass c = true <-> In c hex_alphabet.
Proof.
  assert (E : hexClass c = existsb (Ascii.eqb c) hex_alphabet)
    by (destruct c as [[] [] [] [] [] [] [] []]; vm_compute; reflexivity).
  rewrite E, existsb_exists. split.
  - intros (x & Hx & Heq). apply Ascii.eqb_eq in Heq. congruence.
  - intros H. exists c. split; [assumption|apply Ascii.eqb_refl].
Qed.

Lemma toUpperCase_app s1 s2 :
  toUpperCase (s1 ++ s2) = (toUpperCase s1 ++ toUpperCase s2)%string.
Proof. induction s1 as [|c s1 IH]; simpl; congruence. Qed.

Lemma toHex_channel k :
  In k channels ->
  exists c1 c2,
    toHex (of_Z k) = String c1 (String c2 EmptyString)
    /\ hexClass (upper_ascii c1) = true /\ hexClass (upper_ascii c2) = true
    /\ parseInt16 (String (upper_ascii c1) (String (upper_ascii c2) EmptyString)) = of_Z k.
Proof.
  intros Hk.
  assert (H : forallb toHex_check channels = true) by (vm_compute; reflexivity).
  rewrite forallb_forall in H. specialize (H k Hk). unfold toHex_check in H.
  destruct (toHex (of_Z k)) as [|c1 [|c2 [|c3 rest]]]; try discriminate.
  rewrite !andb_true_iff, num_eqb_eq in H. destruct H as [[H1 H2] H3].
  exists c1, c2. auto.
Qed.

Lemma digits_pair c1 c2 :
  hexClass c1 = true -> hexClass c2 = true ->
  parseInt16 (String c1 (String c2 EmptyString)) = byte_value c1 c2
  /\ toUpperCase (toHex (byte_value c1 c2))
     = String (upper_ascii c1) (String (upper_ascii c2) EmptyString).
Proof.
  intros H1 H2. apply hexClass_alphabet in H1, H2.
  assert (H : forallb (fun x => forallb (digits_check x) hex_alphabet) hex_alphabet = true)
    by (vm_compute; reflexivity).
  rewrite forallb_forall in H. specialize (H c1 H1).
  rewrite forallb_forall in H. specialize (H c2 H2).
  unfold digits_check in H. rewrite andb_true_iff, num_eqb_eq, String.eqb_eq in H.
  destruct H as [E1 E2]. rewrite <- E1. auto.
Qed.

(** The three groups of [exec_hex] on six digits, with or without [#]. *)
Lemma exec_hex_digits c1 c2 c3 c4 c5 c6 (sharp : bool) :
  hexClass c1 = true -> hexClass c2 = true -> hexClass c3 = true ->
  hexClass c4 = true -> hexClass c5 = true -> hexClass c6 = true ->
  let body := String c1 (String c2 (String c3 (String c4 (String c5 (String c6 EmptyString))))) in
  exec_hex (if sharp then String "#" body else body)
  = Some (String c1 (String c2 EmptyString), String c3 (String c4 EmptyString),
          String c5 (String c6 EmptyString)).
Proof.
  intros H1 H2 H3 H4 H5 H6 body. unfold exec_hex, opt_hash, body.
  destruct sharp.
  - rewrite Ascii.eqb_refl. simpl. rewrite H1, H2, H3, H4, H5, H6. reflexivity.
  - destruct (Ascii.eqb c1 "#") eqn:E.
    + apply Ascii.eqb_eq in E. subst c1. discriminate.
    + simpl. rewrite H1, H2, H3, H4, H5, H6. reflexivity.
Qed.

Lemma take_class_6 s0 :
  match take_class 6 s0 with Some (_, EmptyString) => true | _ => false end = true ->
  exists c1 c2 c3 c4 c5 c6,
    s0 = String c1 (String c2 (String c3 (String c4 (String c5 (String c6 EmptyString)))))
    /\ hexClass c1 = true /\ hexClass c2 = true /\ hexClass c3 = true
    /\ hexClass c4 = true /\ hexClass c5 = true /\ hexClass c6 = true.
Proof.
  destruct s0 as [|c1 [|c2 [|c3 [|c4 [|c5 [|c6 rest]]]]]]; simpl;
    repeat match goal with
      | |- context [hexClass ?c] => destruct (hexClass c) eqn:?; simpl
      end; try discriminate.
  destruct rest; [|discriminate].
  intros _. exists c1, c2, c3, c4, c5, c6. auto 10.
Qed.

Lemma take_class_222 s0 g :
  match take_class 2 s0 with
  | Some (g1, s1) =>
      match take_class 2 s1 with
      | Some (g2, s2) =>
          match take_class 2 s2 with
          | Some (g3, EmptyString) => Some (g1, g2, g3)
          | _ => None
          end
      | None => None
      end
  | None => None
  end = Some g ->
  match take_class 6 s0 with Some (_, EmptyString) => true | _ => false end = true.
Proof.
  destruct s0 as [|c1 [|c2 [|c3 [|c4 [|c5 [|c6 rest]]]]]]; simpl;
    repeat match goal with
      | |- context [hexClass ?c] => destruct (hexClass c) eqn:?; simpl
      end; try discriminate.
  destruct rest; [reflexivity|discriminate].
Qed.

Lemma grammar_digits s :
  hex_grammar s <->
  exists c1 c2 c3 c4 c5 c6 (sharp : bool),
    let body := String c1 (String c2 (String c3 (String c4 (String c5 (String c6 EmptyString))))) in
    s = (if sharp then String "#" body else body)
    /\ hexClass c1 = true /\ hexClass c2 = true /\ hexClass c3 = true
    /\ hexClass c4 = true /\ hexClass c5 = true /\ hexClass c6 = true.
Proof.
  split.
  - intros (body & Hs & Hlen & Hall).
    destruct body as [|c1 [|c2 [|c3 [|c4 [|c5 [|c6 [|c7 rest]]]]]]]; try discriminate.
    unfold all_hex in Hall. simpl in Hall.
    repeat match goal with
      | H : Forall _ (_ :: _) |- _ => inversion H; clear H; subst
      end.
    destruct Hs as [Hs|Hs]; subst s;
      [exists c1, c2, c3, c4, c5, c6, false|exists c1, c2, c3, c4, c5, c6, true];
      cbv zeta; rewrite !hexClass_alphabet; auto 10.
  - intros (c1 & c2 & c3 & c4 & c5 & c6 & sharp & Hs & H1 & H2 & H3 & H4 & H5 & H6).
    cbv zeta in Hs.
    exists (String c1 (String c2 (String c3 (String c4 (String c5 (String c6 EmptyString)))))).
    split; [destruct sharp; auto|]. split; [reflexivity|].
    unfold all_hex. simpl. rewrite hexClass_alphabet in *.
    repeat (apply Forall_cons; [assumption|]). apply Forall_nil.
Qed.

Lemma isValidHex_grammar s : isValidHex s = true <-> hex_grammar s.
Proof.
  rewrite grammar_digits. unfold isValidHex, opt_hash. split.
  - destruct s as [|c t].
    + simpl. discriminate.
    + destruct (Ascii.eqb c "#") eqn:E.
      * apply Ascii.eqb_eq in E. subst c.
        replace (take_class 6 (String "#" t)) with (@None (string * string))
          by reflexivity.
        destruct (match take_class 6 t with Some (_, EmptyString) => true | _ => false end) eqn:T.
        -- intros _. apply take_class_6 in T.
           destruct T as (c1 & c2 & c3 & c4 & c5 & c6 & -> & H).
           exists c1, c2, c3, c4, c5, c6, true. auto.
        -- destruct (take_class 6 t) as [[m [|]]|]; discriminate.
      * intros H.
        assert (T : match take_class 6 (String c t) with
                    | Some (_, EmptyString) => true | _ => false end = true)
          by (destruct (take_class 6 (String c t)) as [[m [|]]|]; auto; discriminate).
        apply take_class_6 in T.
        destruct T as (c1 & c2 & c3 & c4 & c5 & c6 & -> & H').
        exists c1, c2, c3, c4, c5, c6, false. auto.
  - intros (c1 & c2 & c3 & c4 & c5 & c6 & sharp & Hs & H1 & H2 & H3 & H4 & H5 & H6).
    cbv zeta in Hs. subst s. destruct sharp.
    + rewrite Ascii.eqb_refl. simpl. rewrite H1, H2, H3, H4, H5, H6. reflexivity.
    + destruct (Ascii.eqb c1 "#") eqn:E.
      * apply Ascii.eqb_eq in E. subst c1. discriminate.
      * simpl. rewrite H1, H2, H3, H4, H5, H6. reflexivity.
Qed.

Lemma exec_hex_grammar s g : exec_hex s = Some g -> hex_grammar s.
Proof.
  rewrite <- isValidHex_grammar. unfold exec_hex, isValidHex, opt_hash.
  destruct s as [|c t].
  - simpl. discriminate.
  - destruct (Ascii.eqb c "#") eqn:E.
    + apply Ascii.eqb_eq in E. subst c.
      match goal with
      | |- match ?X with _ => _ end = _ -> _ => destruct X as [g'|] eqn:B
      end.
      * intros _. apply take_class_222 in B.
        destruct (take_class 6 t) as [[m [|]]|]; try discriminate. reflexivity.
      * simpl. discriminate.
    + intros B. apply take_class_222 in B.
      destruct (take_class 6 (String c t)) as [[m [|]]|]; try discriminate. reflexivity.
Qed.

Lemma hexToRgb_digits c1 c2 c3 c4 c5 c6 (sharp : bool) :
  hexClass c1 = true -> hexClass c2 = true -> hexClass c3 = true ->
  hexClass c4 = true -> hexClass c5 = true -> hexClass c6 = true ->
  let body := String c1 (String c2 (String c3 (String c4 (String c5 (String c6 EmptyString))))) in
  hexToRgb (if sharp then String "#" body else body)
  = Some (mkRGB (byte_value c1 c2) (byte_value c3 c4) (byte_value c5 c6)).
Proof.
  intros H1 H2 H3 H4 H5 H6 body. unfold hexToRgb.
  unfold body. rewrite exec_hex_digits by assumption.
  rewrite (proj1 (digits_pair c1 c2 H1 H2)), (proj1 (digits_pair c3 c4 H3 H4)),
    (proj1 (digits_pair c5 c6 H5 H6)).
  reflexivity.
Qed.

(** C8.  [hexToRgb] returns [null] (here [None]; nothing is thrown, the
    function is total) exactly on the strings that are not six
    hexadecimal digits after an optional [#], and on the others the three
    channels the digit pairs spell; [isValidHex] accepts exactly that
    grammar, so [hexToRgb] succeeds if and only if [isValidHex] accepts. *)
Theorem hexToRgb_validates (hex : string) :
  (hexToRgb hex = None <-> ~ hex_grammar hex)
  /\ (forall c1 c2 c3 c4 c5 c6,
        let body :=
          String c1 (String c2 (String c3 (String c4 (String c5 (String c6 EmptyString))))) in
        all_hex body -> hex = body \/ hex = String "#" body ->
        hexToRgb hex
        = Some (mkRGB (byte_value c1 c2) (byte_value c3 c4) (byte_value c5 c6)))
  /\ (isValidHex hex = true <-> hex_grammar hex)
  /\ (hexToRgb hex <> None <-> isValidHex hex = true)
  /\ hexToRgb "#12G456" = None.
Proof.
  assert (Hsome : hex_grammar hex -> hexToRgb hex <> None).
  { rewrite grammar_digits.
    intros (c1 & c2 & c3 & c4 & c5 & c6 & sharp & Hs & H1 & H2 & H3 & H4 & H5 & H6).
    cbv zeta in Hs. subst hex.
    rewrite (hexToRgb_digits c1 c2 c3 c4 c5 c6 sharp) by assumption. discriminate. }
  assert (Hnone : ~ hex_grammar hex -> hexToRgb hex = None).
  { intros Hn. unfold hexToRgb. destruct (exec_hex hex) as [[[g1 g2] g3]|] eqn:E.
    - elim Hn. eapply exec_hex_grammar, E.
    - reflexivity. }
  split; [|split; [|split; [|split]]].
  - split; [|exact Hnone]. intros E Hg. exact (Hsome Hg E).
  - intros c1 c2 c3 c4 c5 c6 body Hall Hs.
    unfold all_hex, body in Hall. cbn [list_ascii_of_string] in Hall.
    repeat match goal with
      | H : Forall _ (_ :: _) |- _ =>
          apply Forall_cons_iff in H; destruct H as [?%hexClass_alphabet H]
      end.
    destruct Hs as [-> | ->].
    + apply (hexToRgb_digits c1 c2 c3 c4 c5 c6 false); assumption.
    + apply (hexToRgb_digits c1 c2 c3 c4 c5 c6 true); assumption.
  - apply isValidHex_grammar.
  - rewrite isValidHex_grammar. split; [|exact Hsome].
    intros Hne. destruct (hexToRgb hex) eqn:E; [|congruence].
    unfold hexToRgb in E. destruct (exec_hex hex) as [[[g1 g2] g3]|] eqn:E'; [|discriminate].
    eapply exec_hex_grammar, E'.
  - reflexivity.
Qed.

Lemma toHex_byte c1 c2 :
  hexClass c1 = true -> hexClass c2 = true ->
  toUpperCase (toHex (byte_value c1 c2))
  = String (upper_ascii c1) (String (upper_ascii c2) EmptyString).
Proof. intros H1 H2. apply digits_pair; assumption. Qed.

(** C5.  The hex round trip is exact both ways: channels 0..255 written
    by [rgbToHex] are read back by [hexToRgb] unchanged, and a string of
    the grammar (either case, with or without [#]) read by [hexToRgb] is
    written back by [rgbToHex] in upper case with a leading [#]. *)
Theorem hex_round_trip :
  (forall cr cg cb : Z,
      In cr channels -> In cg channels -> In cb channels ->
      hexToRgb (rgbToHex (of_Z cr) (of_Z cg) (of_Z cb))
      = Some (mkRGB (of_Z cr) (of_Z cg) (of_Z cb)))
  /\ (forall hex : string,
      hex_grammar hex ->
      exists rgb,
        hexToRgb hex = Some rgb
        /\ rgbToHex (r rgb) (g rgb) (b rgb) = normalize_hex hex).
Proof.
  split.
  - intros cr cg cb Hr Hg Hb. unfold rgbToHex.
    destruct (toHex_channel cr Hr) as (r1 & r2 & -> & Hr1 & Hr2 & Er).
    destruct (toHex_channel cg Hg) as (g1 & g2 & -> & Hg1 & Hg2 & Eg).
    destruct (toHex_channel cb Hb) as (b1 & b2 & -> & Hb1 & Hb2 & Eb).
    cbn [append toUpperCase]. change (upper_ascii "#") with "#"%char.
    unfold hexToRgb.
    rewrite (exec_hex_digits _ _ _ _ _ _ true) by assumption.
    rewrite Er, Eg, Eb. reflexivity.
  - intros hex Hg. apply grammar_digits in Hg.
    destruct Hg as (c1 & c2 & c3 & c4 & c5 & c6 & sharp & Hs & H1 & H2 & H3 & H4 & H5 & H6).
    cbv zeta in Hs. subst hex.
    eexists. split; [apply hexToRgb_digits; assumption|].
    cbn [r g b]. unfold rgbToHex.
    rewrite !toUpperCase_app, !toHex_byte by assumption.
    destruct sharp.
    + reflexivity.
    + unfold normalize_hex. destruct (Ascii.eqb c1 "#") eqn:E.
      * apply Ascii.eqb_eq in E. subst c1. discriminate.
      * reflexivity.
Qed.

(** * Facts about binary64 arithmetic *)

Module SpecFacts.

(** The sign given to [binary_round_aux] only labels its result. *)
Lemma SFabs_binary_round_aux sg m e lc :
  SFabs (binary_round_aux prec emax sg m e lc) = binary_round_aux prec emax false m e lc.
Proof.
  unfold binary_round_aux.
  destruct (shr_fexp prec emax m e lc) as [mrs' e'].
  destruct (shr_fexp prec emax _ e' loc_Exact) as [mrs'' e''].
  destruct (shr_m mrs''); try reflexivity.
  destruct (e'' <=? emax - prec)%Z; reflexivity.
Qed.

Lemma SFabs_div x y :
  SFabs (SF64div x y) = SF64div (SFabs x) (SFabs y).
Proof.
  unfold SF64div, SFdiv.
  destruct x as [sx|sx| |sx mx ex], y as [sy|sy| |sy my ey]; try reflexivity.
  cbn [SFabs].
  destruct (SFdiv_core_binary prec emax (Z.pos mx) ex (Z.pos my) ey) as [[mz ez] lz].
  apply SFabs_binary_round_aux.
Qed.

End SpecFacts.

Lemma abs_div x y : abs (x / y) = abs x / abs y.
Proof.
  apply Prim2SF_inj.
  rewrite FloatAxioms.abs_spec, !FloatAxioms.div_spec, !FloatAxioms.abs_spec.
  apply SpecFacts.SFabs_div.
Qed.

(** * The correction pipeline *)

(** [correctWith] is the pipeline of the specification. *)
Lemma correctWith_pipeline profile rgb :
  correctWith profile rgb = spec_correct profile rgb.
Proof.
  unfold correctWith, spec_correct, spec_clamp, spec_reconcile, spec_direct,
    spec_saturation, significant, average, clamp255.
  set (hsl := rgbToHsl (r rgb) (g rgb) (b rgb)).
  destruct (findCorrection (h hsl) (Profile.hueCorrections profile)) as [rule|].
  - unfold spec_branchA. cbn [directR directG directB directHue].
    destruct (_ || _); reflexivity.
  - unfold spec_branchB, is_warm, is_cool, warmFactor, coolFactor, Math_abs.
    rewrite abs_div. change (abs 70) with 70.
    cbn [directR directG directB directHue].
    destruct ((0 <=? h hsl) && (h hsl <=? 90)),
      ((200 <=? h hsl) && (h hsl <=? 340)); destruct (_ || _); reflexivity.
Qed.

(** C3.  Without an active rule, a hue in [0, 90] turns green into
    [round(g * (1 - warmFactor * (1 - greenReduction)))] with
    [warmFactor = 1 - h/90] and the hue into
    [max(0, h + hueShift * warmFactor)]; on its own test, a hue in
    [200, 340] turns blue into
    [round(b * (1 - coolFactor * (1 - blueReduction) * 0.3))] with
    [coolFactor = 1 - |h - 270|/70]; a hue outside both ranges leaves the
    three channels and the hue as they were.  [correctWith] then goes on
    from these values. *)
Theorem no_rule_branch (profile : Profile.t) (rgb : RGB)
  (Hnone : findCorrection (h (rgbToHsl (r rgb) (g rgb) (b rgb)))
             (Profile.hueCorrections profile) = None) :
  branchB_contract profile rgb
  /\ (forall hue, warmFactor hue = 1 - hue / 90)
  /\ (forall hue, coolFactor hue = 1 - Math_abs (hue - 270) / 70)
  /\ (forall hue, is_warm hue = (0 <=? hue) && (hue <=? 90))
  /\ (forall hue, is_cool hue = (200 <=? hue) && (hue <=? 340)).
Proof.
  split; [|repeat split].
  unfold branchB_contract. cbv zeta.
  split.
  - rewrite correctWith_pipeline. unfold spec_correct, spec_direct.
    rewrite Hnone. reflexivity.
  - unfold spec_branchB. cbn [directR directG directB directHue].
    split; [reflexivity|].
    destruct (is_warm _), (is_cool _); repeat split; intros; try discriminate; reflexivity.
Qed.

Lemma no_rule_branch_witness :
  branchB_contract (profile_named "tl-fans") (mkRGB 0 0 255)
  /\ (forall hue, warmFactor hue = 1 - hue / 90)
  /\ (forall hue, coolFactor hue = 1 - Math_abs (hue - 270) / 70)
  /\ (forall hue, is_warm hue = (0 <=? hue) && (hue <=? 90))
  /\ (forall hue, is_cool hue = (200 <=? hue) && (hue <=? 340)).
Proof.
  apply (no_rule_branch (profile_named "tl-fans") (mkRGB 0 0 255)).
  vm_compute. reflexivity.
Defined.

Lemma clamp255_channel k : In k channels -> clamp255 (of_Z k) = of_Z k.
Proof.
  intros Hk.
  assert (H : forallb clamp_check channels = true) by (vm_compute; reflexivity).
  rewrite forallb_forall in H. apply num_eqb_eq, H, Hk.
Qed.

(** C4.  In both branches the corrected saturation is
    [min(100, s * saturationBoost)].  Exactly when the corrected hue is
    more than 2 away from the original or the corrected saturation more
    than 5, the colour is recomputed with [hslToRgb] from the corrected
    hue, the corrected saturation and the original lightness, and each
    channel becomes the rounded average of the directly corrected and the
    recomputed one; otherwise the directly corrected channels are kept.
    The final clamp, which leaves every integer of 0..255 as it is,
    closes both cases. *)
Theorem reconciliation (profile : Profile.t) (rgb : RGB) :
  let hsl := rgbToHsl (r rgb) (g rgb) (b rgb) in
  let d := spec_direct profile rgb hsl in
  let sat := Math_min 100 (s hsl * Profile.saturationBoost profile) in
  let derived := hslToRgb (directHue d) sat (l hsl) in
  let far := (2 <? Math_abs (directHue d - h hsl)) || (5 <? Math_abs (sat - s hsl)) in
  (far = true ->
   correctWith profile rgb
   = spec_clamp (mkRGB (Math_round ((directR d + r derived) / 2))
                       (Math_round ((directG d + g derived) / 2))
                       (Math_round ((directB d + b derived) / 2))))
  /\ (far = false ->
      correctWith profile rgb = spec_clamp (mkRGB (directR d) (directG d) (directB d)))
  /\ (forall c, spec_clamp c = mkRGB (clamp255 (r c)) (clamp255 (g c)) (clamp255 (b c)))
  /\ (forall k, In k channels -> clamp255 (of_Z k) = of_Z k)
  /\ (forall rule,
        findCorrection (h hsl) (Profile.hueCorrections profile) = Some rule ->
        d = spec_branchA rule rgb hsl)
  /\ (findCorrection (h hsl) (Profile.hueCorrections profile) = None ->
        d = spec_branchB profile rgb hsl).
Proof.
  intros hsl d sat derived far.
  assert (E : correctWith profile rgb = spec_clamp (spec_reconcile hsl d sat))
    by apply correctWith_pipeline.
  unfold spec_reconcile, significant, average in E. fold far derived in E.
  split; [|split; [|split; [|split; [|split]]]].
  - intros F. rewrite F in E. exact E.
  - intros F. rewrite F in E. exact E.
  - reflexivity.
  - exact clamp255_channel.
  - intros rule F. unfold d, spec_direct. fold hsl. rewrite F. reflexivity.
  - intros F. unfold d, spec_direct. fold hsl. rewrite F. reflexivity.
Qed.

(** ** Arithmetic on finite numbers never yields NaN *)

Module RoundFacts.

Lemma shr_1_nonneg mrs : (0 <= shr_m mrs)%Z -> (0 <= shr_m (shr_1 mrs))%Z.
Proof.
  destruct mrs as [m rb sb]. simpl.
  destruct m as [|[p|p|]|p]; simpl; intros; lia.
Qed.

Lemma iter_shr_1_nonneg p mrs :
  (0 <= shr_m mrs)%Z -> (0 <= shr_m (iter_pos shr_1 p mrs))%Z.
Proof.
  revert mrs. induction p as [p IH|p IH|]; intros mrs H; simpl.
  - apply IH, IH, shr_1_nonneg, H.
  - apply IH, IH, H.
  - apply shr_1_nonneg, H.
Qed.

Lemma shr_fexp_nonneg m e lc :
  (0 <= m)%Z -> (0 <= shr_m (fst (shr_fexp prec emax m e lc)))%Z.
Proof.
  intros H. unfold shr_fexp, shr.
  assert (H0 : (0 <= shr_m (shr_record_of_loc m lc))%Z)
    by (destruct lc as [|[]]; exact H).
  destruct (fexp prec emax (Zdigits2 m + e) - e)%Z; simpl; trivial.
  apply iter_shr_1_nonneg, H0.
Qed.

Lemma round_nearest_even_nonneg m lc :
  (0 <= m)%Z -> (0 <= round_nearest_even m lc)%Z.
Proof.
  intros H. destruct lc as [|[]]; simpl; try lia.
  destruct (Z.even m); lia.
Qed.

Lemma binary_round_aux_not_nan sg m e lc :
  (0 <= m)%Z -> binary_round_aux prec emax sg m e lc <> S754_nan.
Proof.
  intros H. unfold binary_round_aux.
  pose proof (shr_fexp_nonneg m e lc H) as H1.
  destruct (shr_fexp prec emax m e lc) as [mrs' e']. simpl in H1.
  pose proof (shr_fexp_nonneg _ e' loc_Exact
                (round_nearest_even_nonneg _ (loc_of_shr_record mrs') H1)) as H2.
  destruct (shr_fexp prec emax _ e' loc_Exact) as [mrs'' e'']. simpl in H2.
  destruct (shr_m mrs''); try discriminate; [|lia].
  destruct (e'' <=? emax - prec)%Z; discriminate.
Qed.

Lemma binary_round_not_nan sg m e :
  binary_round prec emax sg m e <> S754_nan.
Proof.
  unfold binary_round. destruct (shl_align m e _) as [mz ez].
  apply binary_round_aux_not_nan. lia.
Qed.

Lemma binary_normalize_not_nan m e sz :
  binary_normalize prec emax m e sz <> S754_nan.
Proof.
  destruct m; simpl; try discriminate; apply binary_round_not_nan.
Qed.

Lemma SFadd_not_nan x y :
  sf_finite x -> y <> S754_nan -> SF64add x y <> S754_nan.
Proof.
  unfold SF64add, SFadd.
  destruct x as [sx|sx| |sx mx ex], y as [sy|sy| |sy my ey]; simpl;
    try contradiction; try congruence; intros _ _.
  - destruct sx, sy; discriminate.
  - apply binary_normalize_not_nan.
Qed.

Lemma SFsub_not_nan x y :
  sf_finite x -> y <> S754_nan -> SF64sub x y <> S754_nan.
Proof.
  unfold SF64sub, SFsub.
  destruct x as [sx|sx| |sx mx ex], y as [sy|sy| |sy my ey]; simpl;
    try contradiction; try congruence; intros _ _.
  - destruct sx, sy; discriminate.
  - apply binary_normalize_not_nan.
Qed.

Lemma SFsub_not_nan_l x y :
  x <> S754_nan -> sf_finite y -> SF64sub x y <> S754_nan.
Proof.
  unfold SF64sub, SFsub.
  destruct x as [sx|sx| |sx mx ex], y as [sy|sy| |sy my ey]; simpl;
    try contradiction; try congruence; intros _ _.
  - destruct sx, sy; discriminate.
  - apply binary_normalize_not_nan.
Qed.

Lemma SFmul_finite x y :
  sf_finite x -> sf_finite y -> SF64mul x y <> S754_nan.
Proof.
  unfold SF64mul, SFmul.
  destruct x as [sx|sx| |sx mx ex], y as [sy|sy| |sy my ey]; simpl;
    try contradiction; try congruence; intros _ _.
  apply binary_round_aux_not_nan. lia.
Qed.

(** A factor that is finite and not zero keeps any number off NaN. *)
Lemma SFmul_not_nan x sg m e :
  x <> S754_nan -> SF64mul x (S754_finite sg m e) <> S754_nan.
Proof.
  unfold SF64mul, SFmul.
  destruct x as [sx|sx| |sx mx ex]; simpl; try congruence; intros _.
  apply binary_round_aux_not_nan. lia.
Qed.

Lemma SFdiv_core_nonneg mx ex my ey :
  (0 <= fst (fst (SFdiv_core_binary prec emax (Z.pos mx) ex (Z.pos my) ey)))%Z.
Proof.
  unfold SFdiv_core_binary.
  set (s := (ex - ey - _)%Z).
  set (m' := match s with Z.pos _ => Z.shiftl (Z.pos mx) s | Z0 => Z.pos mx | Z.neg _ => 0%Z end).
  assert (Hm : (0 <= m')%Z).
  { unfold m'. destruct s; try lia. apply Z.shiftl_nonneg. lia. }
  pose proof (Z.div_pos m' (Z.pos my) Hm ltac:(lia)) as Hq.
  unfold Z.div in Hq. destruct (Z.div_eucl m' (Z.pos my)) as [q rm]. exact Hq.
Qed.

Lemma SFdiv_not_nan x sg m e :
  x <> S754_nan -> SF64div x (S754_finite sg m e) <> S754_nan.
Proof.
  unfold SF64div, SFdiv.
  destruct x as [sx|sx| |sx mx ex]; simpl; try congruence; intros _.
  pose proof (SFdiv_core_nonneg mx ex m e) as H.
  destruct (SFdiv_core_binary prec emax (Z.pos mx) ex (Z.pos m) e) as [[mz ez] lz].
  apply binary_round_aux_not_nan, H.
Qed.

End RoundFacts.

(** ** Small integers are represented exactly *)

Module ExactFacts.

Lemma digits2_pos_bounds p :
  (2 ^ (Z.pos (digits2_pos p) - 1) <= Z.pos p < 2 ^ Z.pos (digits2_pos p))%Z.
Proof.
  induction p as [p IH|p IH|]; simpl digits2_pos.
  - rewrite Pos2Z.inj_succ, Z.pow_succ_r by lia.
    replace (Z.succ (Z.pos (digits2_pos p)) - 1)%Z
      with (Z.succ (Z.pos (digits2_pos p) - 1)) by lia.
    rewrite Z.pow_succ_r by lia. lia.
  - rewrite Pos2Z.inj_succ, Z.pow_succ_r by lia.
    replace (Z.succ (Z.pos (digits2_pos p)) - 1)%Z
      with (Z.succ (Z.pos (digits2_pos p) - 1)) by lia.
    rewrite Z.pow_succ_r by lia. lia.
  - simpl. lia.
Qed.

Lemma digits2_pos_iter_xO p n :
  digits2_pos (Pos.iter xO p n) = (digits2_pos p + n)%positive.
Proof.
  induction n as [|n IH] using Pos.peano_ind.
  - simpl. rewrite Pos.add_1_r. reflexivity.
  - rewrite Pos.iter_succ. simpl. rewrite IH, Pos.add_succ_r. reflexivity.
Qed.

(** A mantissa of 53 digits within the exponent range is left as it is. *)
Lemma binary_round_aux_canonical sg mz ez :
  Z.pos (digits2_pos mz) = 53%Z -> (-1074 <= ez <= 971)%Z ->
  binary_round_aux prec emax sg (Z.pos mz) ez loc_Exact = S754_finite sg mz ez.
Proof.
  intros Hd He.
  assert (Hs : shr_fexp prec emax (Z.pos mz) ez loc_Exact
               = (Build_shr_record (Z.pos mz) false false, ez)).
  { unfold shr_fexp, Zdigits2. rewrite Hd.
    replace (fexp prec emax (53 + ez) - ez)%Z with 0%Z; [reflexivity|].
    unfold fexp, emin. change prec with 53%Z. change emax with 1024%Z. lia. }
  unfold binary_round_aux. rewrite Hs. cbn [shr_m loc_of_shr_record round_nearest_even].
  rewrite Hs. cbn [shr_m].
  replace (ez <=? emax - prec)%Z with true; [reflexivity|].
  symmetry. apply Z.leb_le. change prec with 53%Z. change emax with 1024%Z. lia.
Qed.

(** A positive integer of at most 53 binary digits [d] becomes a finite
    positive number of exponent [d - 53]. *)
Lemma binary_normalize_small p :
  (Z.pos (digits2_pos p) <= 53)%Z ->
  exists mz,
    binary_normalize prec emax (Z.pos p) 0 false
    = S754_finite false mz (Z.pos (digits2_pos p) - 53).
Proof.
  intros Hd. cbn [binary_normalize]. unfold binary_round.
  set (d := Z.pos (digits2_pos p)) in *.
  assert (Hf : fexp prec emax (d + 0) = (d - 53)%Z).
  { unfold fexp, emin. change prec with 53%Z. change emax with 1024%Z.
    pose proof (Pos2Z.is_pos (digits2_pos p)). fold d in H. lia. }
  rewrite Hf. unfold shl_align.
  destruct (d - 53 - 0)%Z as [|dd|dd] eqn:E.
  - exists p. replace (d - 53)%Z with 0%Z by lia.
    apply binary_round_aux_canonical; [fold d|]; lia.
  - lia.
  - exists (Pos.iter xO p dd).
    apply binary_round_aux_canonical.
    + rewrite digits2_pos_iter_xO, Pos2Z.inj_add. fold d. lia.
    + pose proof (Pos2Z.is_pos (digits2_pos p)). fold d in H. lia.
Qed.

Lemma digits_le_53 p : (Z.pos p < 2 ^ 53)%Z -> (Z.pos (digits2_pos p) <= 53)%Z.
Proof.
  intros H. pose proof (digits2_pos_bounds p) as [Hlo _].
  destruct (Z_le_gt_dec (Z.pos (digits2_pos p)) 53) as [|Hgt]; [assumption|].
  exfalso.
  assert (2 ^ 53 <= 2 ^ (Z.pos (digits2_pos p) - 1))%Z
    by (apply Z.pow_le_mono_r; lia).
  lia.
Qed.

Lemma digits_ge p k :
  (0 <= k)%Z -> (2 ^ k <= Z.pos p)%Z -> (k + 1 <= Z.pos (digits2_pos p))%Z.
Proof.
  intros Hk H. pose proof (digits2_pos_bounds p) as [_ Hhi].
  destruct (Z_le_gt_dec (k + 1) (Z.pos (digits2_pos p))) as [|Hgt]; [assumption|].
  exfalso.
  assert (2 ^ Z.pos (digits2_pos p) <= 2 ^ k)%Z
    by (apply Z.pow_le_mono_r; lia).
  lia.
Qed.

End ExactFacts.

(** ** The same on numbers *)

Module NumberFacts.

Lemma is_finite_spec x : is_finite x = true <-> sf_finite (Prim2SF x).
Proof.
  unfold is_finite, is_infinity.
  rewrite FloatAxioms.eqb_spec, FloatAxioms.abs_spec.
  change (Prim2SF infinity) with (S754_infinity false).
  destruct (is_nan x) eqn:N.
  - apply NumberOrder.is_nan_spec in N. rewrite N. simpl.
    split; [discriminate|contradiction].
  - apply NumberOrder.not_nan_spec in N.
    destruct (Prim2SF x) as [sx|sx| |sx mx ex]; simpl;
      split; trivial; try discriminate; try contradiction; congruence.
Qed.

Lemma finite_not_nan x : is_finite x = true -> is_nan x = false.
Proof.
  rewrite is_finite_spec, NumberOrder.not_nan_spec.
  destruct (Prim2SF x); simpl; congruence.
Qed.

Lemma finite_nonzero x :
  is_finite x = true -> (x =? 0) = false ->
  exists sg m e, Prim2SF x = S754_finite sg m e.
Proof.
  rewrite is_finite_spec, FloatAxioms.eqb_spec.
  change (Prim2SF 0) with (S754_zero false).
  destruct (Prim2SF x) as [sx|sx| |sx mx ex]; simpl; try contradiction.
  - discriminate.
  - intros _ _. eauto.
Qed.

Lemma add_not_nan x y :
  is_finite x = true -> is_nan y = false -> is_nan (x + y) = false.
Proof.
  rewrite is_finite_spec, !NumberOrder.not_nan_spec, FloatAxioms.add_spec.
  apply RoundFacts.SFadd_not_nan.
Qed.

Lemma sub_not_nan x y :
  is_finite x = true -> is_nan y = false -> is_nan (x - y) = false.
Proof.
  rewrite is_finite_spec, !NumberOrder.not_nan_spec, FloatAxioms.sub_spec.
  apply RoundFacts.SFsub_not_nan.
Qed.

Lemma sub_not_nan_l x y :
  is_nan x = false -> is_finite y = true -> is_nan (x - y) = false.
Proof.
  rewrite is_finite_spec, !NumberOrder.not_nan_spec, FloatAxioms.sub_spec.
  apply RoundFacts.SFsub_not_nan_l.
Qed.

Lemma mul_finite x y :
  is_finite x = true -> is_finite y = true -> is_nan (x * y) = false.
Proof.
  rewrite !is_finite_spec, NumberOrder.not_nan_spec, FloatAxioms.mul_spec.
  apply RoundFacts.SFmul_finite.
Qed.

Lemma mul_not_nan x c :
  is_nan x = false -> is_finite c = true -> (c =? 0) = false ->
  is_nan (x * c) = false.
Proof.
  intros Hx Hc Hz. destruct (finite_nonzero c Hc Hz) as (sg & m & e & E).
  revert Hx. rewrite !NumberOrder.not_nan_spec, FloatAxioms.mul_spec, E.
  apply RoundFacts.SFmul_not_nan.
Qed.

Lemma div_not_nan x c :
  is_nan x = false -> is_finite c = true -> (c =? 0) = false ->
  is_nan (x / c) = false.
Proof.
  intros Hx Hc Hz. destruct (finite_nonzero c Hc Hz) as (sg & m & e & E).
  revert Hx. rewrite !NumberOrder.not_nan_spec, FloatAxioms.div_spec, E.
  apply RoundFacts.SFdiv_not_nan.
Qed.

End NumberFacts.

(** * [Math.round] *)

Module RoundShape.

Lemma mantissa_bound fr : (Uint63.to_Z (normfr_mantissa fr) < 2 ^ 53)%Z.
Proof.
  rewrite normfr_mantissa_spec.
  pose proof (Prim2SF_valid fr) as V.
  assert (P53 : (0 < 2 ^ 53)%Z) by reflexivity.
  destruct (Prim2SF fr) as [sx|sx| |sx mx ex]; cbn [SFnormfr_mantissa Z.of_N];
    try exact P53.
  destruct (Z.eqb ex (- prec)) eqn:E; cbn [Z.of_N]; [|exact P53].
  apply Z.eqb_eq in E. subst ex.
  unfold SpecFloat.valid_binary, bounded, canonical_mantissa in V.
  apply andb_true_iff in V. destruct V as [V _]. apply Z.eqb_eq in V.
  unfold fexp, emin in V. change prec with 53%Z in V. change emax with 1024%Z in V.
  pose proof (ExactFacts.digits2_pos_bounds mx) as [_ Hhi].
  assert (H : (Z.pos (digits2_pos mx) = 53)%Z) by lia.
  rewrite H in Hhi. exact Hhi.
Qed.

Lemma lsr_le x p : (Uint63.to_Z (Uint63.lsr x p) <= Uint63.to_Z x)%Z.
Proof.
  rewrite Uint63.lsr_spec.
  pose proof (Uint63.to_Z_bounded x) as [Hx _].
  pose proof (Uint63.to_Z_bounded p) as [Hp _].
  assert (0 < 2 ^ Uint63.to_Z p)%Z by (apply Z.pow_pos_nonneg; lia).
  apply Z.div_le_upper_bound; [assumption|]. nia.
Qed.

Lemma succ_small q :
  (Uint63.to_Z q < 2 ^ 53)%Z ->
  Uint63.to_Z (Uint63.add q 1) = (Uint63.to_Z q + 1)%Z.
Proof.
  intros H. rewrite Uint63.add_spec.
  pose proof (Uint63.to_Z_bounded q) as [Hq _].
  change (Uint63.to_Z 1) with 1%Z.
  apply Z.mod_small. change wB with (2 ^ 63)%Z. lia.
Qed.

(** What [Math_round] returns: its argument (a NaN, a number of
    magnitude [2^52] or more, a zero), or an integer of at most [2^53],
    negated for a negative argument. *)
Lemma Math_round_shape x :
  is_nan x = true
  \/ ((two52 <=? abs x) = true /\ Math_round x = x)
  \/ ((x =? 0) = true /\ Math_round x = x)
  \/ exists k,
      (Uint63.to_Z k <= 2 ^ 53)%Z
      /\ (Math_round x = of_uint63 k \/ Math_round x = - of_uint63 k).
Proof.
  unfold Math_round.
  destruct (is_nan x); [left; reflexivity|right].
  destruct (two52 <=? abs x); [left; split; reflexivity|right].
  destruct (x =? 0); [left; split; reflexivity|right].
  destruct (frshiftexp x) as [fr e].
  set (m := normfr_mantissa fr).
  set (sh := Uint63.sub 2154 e).
  set (q := Uint63.lsr m sh).
  assert (Hq : (Uint63.to_Z q < 2 ^ 53)%Z).
  { pose proof (lsr_le m sh). pose proof (mantissa_bound fr). fold m in H0. fold q in H. lia. }
  assert (Hq1 : (Uint63.to_Z (Uint63.add q 1) <= 2 ^ 53)%Z)
    by (rewrite succ_small by assumption; lia).
  destruct (x <? 0).
  - match goal with
    | |- context [of_uint63 ?k] => exists k
    end.
    split; [|right; reflexivity].
    destruct (_ && _); lia.
  - match goal with
    | |- context [of_uint63 ?k] => exists k
    end.
    split; [|left; reflexivity].
    destruct (Uint63.bit _ _); lia.
Qed.

End RoundShape.

(** * The final clamp *)

Module Clamp.

Lemma ltb_asym x y : (x <? y) = true -> (y <? x) = false.
Proof.
  intros H. apply NumberOrder.ltb_not_leb in H.
  destruct (y <? x) eqn:E; [|reflexivity].
  apply NumberOrder.ltb_leb in E. congruence.
Qed.

Lemma ltb_not_nan_l x y : (x <? y) = true -> is_nan x = false.
Proof.
  intros H. destruct (is_nan x) eqn:E; [|reflexivity].
  rewrite (NumberOrder.nan_ltb_l x y E) in H. discriminate.
Qed.

Lemma ltb_not_nan_r x y : (x <? y) = true -> is_nan y = false.
Proof.
  intros H. destruct (is_nan y) eqn:E; [|reflexivity].
  rewrite (NumberOrder.nan_ltb_r x y E) in H. discriminate.
Qed.

(** Above 255 the clamp gives 255, below 0 it gives 0. *)
Lemma clamp255_high x : (255 <? x) = true -> clamp255 x = 255.
Proof.
  intros H. unfold clamp255, Math_min.
  rewrite (ltb_not_nan_r _ _ H), H. reflexivity.
Qed.

Lemma clamp255_low x : (x <? 0) = true -> clamp255 x = 0.
Proof.
  intros H. unfold clamp255, Math_min, Math_max.
  assert (H255 : (x <? 255) = true)
    by (eapply NumberOrder.ltb_leb_trans; [exact H|reflexivity]).
  rewrite (ltb_not_nan_l _ _ H), (ltb_asym _ _ H255), H255.
  change (is_nan 255) with false. change (is_nan 0) with false. cbv iota.
  rewrite (ltb_not_nan_l _ _ H), (ltb_asym _ _ H), H. reflexivity.
Qed.

(** A number is its own magnitude, or negative. *)
Lemma abs_cases x : abs x = x \/ (x <? 0) = true \/ (x =? 0) = true.
Proof.
  destruct (Prim2SF x) as [sx|sx| |[|] mx ex] eqn:E.
  - right; right. rewrite FloatAxioms.eqb_spec, E. reflexivity.
  - destruct sx.
    + right; left. rewrite FloatAxioms.ltb_spec, E. reflexivity.
    + left. apply Prim2SF_inj. rewrite FloatAxioms.abs_spec, E. reflexivity.
  - left. apply Prim2SF_inj. rewrite FloatAxioms.abs_spec, E. reflexivity.
  - right; left. rewrite FloatAxioms.ltb_spec, E. reflexivity.
  - left. apply Prim2SF_inj. rewrite FloatAxioms.abs_spec, E. reflexivity.
Qed.

(** A zero is [0] or [-0]. *)
Lemma zero_cases x : (x =? 0) = true -> x = 0 \/ x = -0.
Proof.
  rewrite FloatAxioms.eqb_spec. change (Prim2SF 0) with (S754_zero false).
  intros H. rewrite <- (SF2Prim_Prim2SF x).
  destruct (Prim2SF x) as [[|]|[|]| |[|] mx ex]; try discriminate.
  - right. reflexivity.
  - left. reflexivity.
Qed.

Lemma clamp255_large x : (two52 <=? abs x) = true -> exists k, In k channels /\ clamp255 x = of_Z k.
Proof.
  intros H. destruct (abs_cases x) as [E|[E|E]].
  - rewrite E in H. exists 255%Z. split; [apply In_channels; lia|].
    apply clamp255_high. eapply NumberOrder.ltb_leb_trans; [|exact H]. reflexivity.
  - exists 0%Z. split; [apply In_channels; lia|]. apply clamp255_low, E.
  - destruct (zero_cases x E) as [-> | ->]; discriminate.
Qed.

Lemma of_uint63_of_Z k :
  of_uint63 k = of_Z (Uint63.to_Z k).
Proof.
  pose proof (Uint63.to_Z_bounded k) as [Hk _].
  destruct (Uint63.to_Z k) as [|p|p] eqn:E; try lia.
  - replace k with (Uint63.of_Z 0) by (rewrite <- E; apply Uint63.of_to_Z). reflexivity.
  - cbn [of_Z]. rewrite <- E, Uint63.of_to_Z. reflexivity.
Qed.

(** Integers from 1 to [2^53] are positive numbers, each of an exponent
    that grows with its number of digits. *)
Lemma of_uint63_finite k :
  (0 < Uint63.to_Z k <= 2 ^ 53)%Z ->
  exists mz ez,
    Prim2SF (of_uint63 k) = S754_finite false mz ez
    /\ (forall j, (2 ^ j <= Uint63.to_Z k)%Z -> (0 <= j)%Z -> (j - 52 <= ez)%Z).
Proof.
  intros [Hlo Hhi]. rewrite of_uint63_spec.
  destruct (Z.eq_dec (Uint63.to_Z k) (2 ^ 53)) as [E|NE].
  - rewrite E. exists 4503599627370496%positive, 1%Z. split; [reflexivity|].
    intros j Hj Hj0.
    destruct (Z_le_gt_dec j 53); [lia|]. exfalso.
    assert (2 ^ 54 <= 2 ^ j)%Z by (apply Z.pow_le_mono_r; lia).
    assert (2 ^ 53 < 2 ^ 54)%Z by reflexivity. lia.
  - destruct (Uint63.to_Z k) as [|p|p] eqn:E; try lia.
    assert (Hp : (Z.pos p < 2 ^ 53)%Z) by lia.
    destruct (ExactFacts.binary_normalize_small p (ExactFacts.digits_le_53 p Hp)) as [mz Hmz].
    exists mz, (Z.pos (digits2_pos p) - 53)%Z. split; [exact Hmz|].
    intros j Hj Hj0. pose proof (ExactFacts.digits_ge p j Hj0 Hj). lia.
Qed.

Lemma of_uint63_big k :
  (256 <= Uint63.to_Z k <= 2 ^ 53)%Z -> (255 <? of_uint63 k) = true.
Proof.
  intros H.
  destruct (of_uint63_finite k ltac:(lia)) as (mz & ez & E & Hez).
  specialize (Hez 8%Z ltac:(change (2 ^ 8)%Z with 256%Z; lia) ltac:(lia)).
  rewrite FloatAxioms.ltb_spec, E.
  change (Prim2SF 255) with (S754_finite false 8972014882652160 (-45)).
  unfold SFltb. cbn [SFcompare].
  destruct (Z.compare_spec (-45) ez); first [reflexivity|lia].
Qed.

Lemma opp_of_uint63_neg k :
  (0 < Uint63.to_Z k <= 2 ^ 53)%Z -> (- of_uint63 k <? 0) = true.
Proof.
  intros H. destruct (of_uint63_finite k H) as (mz & ez & E & _).
  rewrite FloatAxioms.ltb_spec, FloatAxioms.opp_spec, E. reflexivity.
Qed.

(** Whatever number is rounded, the clamp then yields one of 0..255. *)
Lemma clamp255_round y :
  is_nan y = false -> exists k, In k channels /\ clamp255 (Math_round y) = of_Z k.
Proof.
  intros Hy.
  destruct (RoundShape.Math_round_shape y) as [N|[[H ->]|[[H ->]|(k & Hk & [-> | ->])]]].
  - congruence.
  - apply clamp255_large, H.
  - exists 0%Z. split; [apply In_channels; lia|].
    destruct (Clamp.zero_cases y H) as [-> | ->]; reflexivity.
  - pose proof (Uint63.to_Z_bounded k) as [Hk0 _].
    destruct (Z_le_gt_dec (Uint63.to_Z k) 255) as [Hs|Hb].
    + exists (Uint63.to_Z k). split; [apply In_channels; lia|].
      rewrite of_uint63_of_Z. apply clamp255_channel, In_channels. lia.
    + exists 255%Z. split; [apply In_channels; lia|].
      apply clamp255_high, of_uint63_big. lia.
  - pose proof (Uint63.to_Z_bounded k) as [Hk0 _].
    exists 0%Z. split; [apply In_channels; lia|].
    destruct (Z.eq_dec (Uint63.to_Z k) 0) as [E|NE].
    + replace k with (Uint63.of_Z 0) by (rewrite <- E; apply Uint63.of_to_Z). reflexivity.
    + apply clamp255_low, opp_of_uint63_neg. lia.
Qed.

End Clamp.

(** * The classifier outside [0, 360) *)

Lemma of_Z_negative z :
  (- 2 ^ 53 <= z < 0)%Z -> (of_Z z <? 0) = true.
Proof.
  intros Hz. destruct z as [|p|p]; try lia. cbn [of_Z].
  apply Clamp.opp_of_uint63_neg.
  rewrite Uint63.of_Z_spec, Z.mod_small; [lia|].
  change wB with (2 ^ 63)%Z.
  assert (2 ^ 53 < 2 ^ 63)%Z by reflexivity. lia.
Qed.

Lemma of_Z_from_340 z :
  (340 <= z <= 2 ^ 53)%Z -> (340 <=? of_Z z) = true.
Proof.
  intros Hz. destruct (Z_lt_ge_dec z 512) as [Hs|Hb].
  - assert (H : forallb (fun k => 340 <=? of_Z k) (Zrange 340 172) = true)
      by (vm_compute; reflexivity).
    apply (forallb_Zrange _ _ _ H). simpl. lia.
  - destruct z as [|p|p]; try lia. cbn [of_Z].
    set (k := Uint63.of_Z (Z.pos p)).
    assert (Ek : Uint63.to_Z k = Z.pos p).
    { unfold k. rewrite Uint63.of_Z_spec, Z.mod_small; [reflexivity|].
      change wB with (2 ^ 63)%Z.
      assert (2 ^ 53 < 2 ^ 63)%Z by reflexivity. lia. }
    destruct (Clamp.of_uint63_finite k ltac:(lia)) as (mz & ez & E & Hez).
    specialize (Hez 9%Z ltac:(change (2 ^ 9)%Z with 512%Z; lia) ltac:(lia)).
    rewrite FloatAxioms.leb_spec, E.
    change (Prim2SF 340) with (S754_finite false 5981343255101440 (-44)).
    unfold SFleb. cbn [SFcompare].
    destruct (Z.compare_spec (-44) ez); first [reflexivity|lia].
Qed.

(** C10.  [getColorCategory] is total, and a hue that is negative, at
    least 340 (so also at least 360) or NaN passes none of the eight
    tests and gets the final ["red"]: so does every integer below 0 or
    from 360 on (as far as integers are exact, [2^53]); hue 400 is red,
    not orange. *)
Theorem getColorCategory_fallthrough (hue : number)
  (H : (hue <? 0) = true \/ (340 <=? hue) = true \/ is_nan hue = true) :
  getColorCategory hue = "red"%string
  /\ (forall z : Z,
        (- 2 ^ 53 <= z < 0)%Z \/ (360 <= z <= 2 ^ 53)%Z ->
        getColorCategory (of_Z z) = "red"%string)
  /\ getColorCategory 400 = "red"%string
  /\ getColorCategory (-1) = "red"%string.
Proof.
  assert (G : forall x,
             (x <? 0) = true \/ (340 <=? x) = true \/ is_nan x = true ->
             getColorCategory x = "red"%string).
  { intros x Hx. unfold getColorCategory. destruct Hx as [Hx|[Hx|Hx]].
    - rewrite !(NumberOrder.below_fails x 0 _ Hx) by reflexivity. reflexivity.
    - rewrite !(NumberOrder.above_fails x 340 _ Hx) by reflexivity.
      rewrite !andb_false_r. reflexivity.
    - rewrite !(NumberOrder.nan_leb_r _ x Hx). reflexivity. }
  split; [exact (G hue H)|]. split; [|split; reflexivity].
  intros z [Hz|Hz]; apply G.
  - left. apply of_Z_negative, Hz.
  - right; left. apply of_Z_from_340. lia.
Qed.

Lemma getColorCategory_fallthrough_witness :
  getColorCategory 400 = "red"%string
  /\ (forall z : Z,
        (- 2 ^ 53 <= z < 0)%Z \/ (360 <= z <= 2 ^ 53)%Z ->
        getColorCategory (of_Z z) = "red"%string)
  /\ getColorCategory 400 = "red"%string
  /\ getColorCategory (-1) = "red"%string.
Proof.
  apply (getColorCategory_fallthrough 400). right; left. reflexivity.
Defined.


(** * Rounding a number of degrees *)

Module Degree.

Lemma SFleb_finite_pos m1 e1 m2 e2 :
  SFleb (S754_finite false m1 e1) (S754_finite false m2 e2) = true ->
  (e1 < e2)%Z \/ (e1 = e2 /\ (Z.pos m1 <= Z.pos m2)%Z).
Proof.
  unfold SFleb. cbn [SFcompare]. FloatOrder.cmp_cases; intros; try discriminate; lia.
Qed.

(** A positive number of at most 360 is a finite one below [2^9], and
    its mantissa is at most that of 360 when it has 360's exponent. *)
Lemma pos_finite u :
  (0 <? u) = true -> (u <=? 360) = true ->
  exists m ey, Prim2SF u = S754_finite false m ey
    /\ ((ey < -44)%Z \/ (ey = (-44)%Z /\ (Z.pos m <= 6333186975989760)%Z)).
Proof.
  rewrite FloatAxioms.ltb_spec, FloatAxioms.leb_spec.
  change (Prim2SF 0) with (S754_zero false).
  change (Prim2SF 360) with (S754_finite false 6333186975989760 (-44)).
  destruct (Prim2SF u) as [sx|sx| |sx mx ex]; try discriminate.
  - destruct sx; discriminate.
  - destruct sx; try discriminate. intros _ H.
    exists mx, ex. split; [reflexivity|]. apply SFleb_finite_pos, H.
Qed.

(** The mantissa and the exponent [frshiftexp] and [normfr_mantissa]
    deliver for a positive finite number: the number's own mantissa and
    its exponent moved by 2154, unless the number is subnormal. *)
Lemma frexp_finite u m ey fr e :
  Prim2SF u = S754_finite false m ey -> frshiftexp u = (fr, e) ->
  exists dd,
    (0 <= dd <= 53)%Z /\ (-1074 <= ey)%Z
    /\ Uint63.to_Z e = (ey + 2154 - dd)%Z
    /\ (Uint63.to_Z (normfr_mantissa fr) < 2 ^ 53)%Z
    /\ (ey = (-1074)%Z \/ (dd = 0%Z /\ Uint63.to_Z (normfr_mantissa fr) = Z.pos m)).
Proof.
  intros E F.
  pose proof (frshiftexp_spec u) as S. rewrite F, E in S.
  pose proof (Prim2SF_valid u) as V. rewrite E in V.
  unfold SpecFloat.valid_binary, bounded, canonical_mantissa in V.
  apply andb_true_iff in V. destruct V as [V _]. apply Z.eqb_eq in V.
  unfold fexp, emin in V. change prec with 53%Z in V. change emax with 1024%Z in V.
  pose proof (RoundShape.mantissa_bound fr) as B.
  unfold SFfrexp in S.
  destruct (Z.leb_spec prec (Z.pos (digits2_pos m))) as [L|L]; change prec with 53%Z in L.
  - injection S as S1 S2. exists 0%Z.
    change FloatOps.shift with 2101%Z in S2. change prec with 53%Z in S2.
    split; [lia|]. split; [lia|]. split; [lia|]. split; [exact B|].
    right. split; [reflexivity|].
    rewrite normfr_mantissa_spec, S1. cbn [SFnormfr_mantissa].
    rewrite Z.eqb_refl. reflexivity.
  - injection S as S1 S2. exists (53 - Z.pos (digits2_pos m))%Z.
    change FloatOps.shift with 2101%Z in S2. change prec with 53%Z in S2.
    change (IntDef.Z.pos_sub 53 (digits2_pos m)) with (53 - Z.pos (digits2_pos m))%Z in S2.
    split; [lia|]. split; [lia|]. split; [lia|]. split; [exact B|]. left. lia.
Qed.

(** [Math.round] of [+0] or of a positive number of at most 360 is one
    of the integers 0..360. *)
Lemma Math_round_degree u :
  degree_ok u = true ->
  exists k, (0 <= k <= 360)%Z /\ Math_round u = of_Z k.
Proof.
  unfold degree_ok. rewrite andb_true_iff, orb_true_iff.
  intros [Hle [Hpos|Hz]].
  2:{ apply num_eqb_eq in Hz. subst u. exists 0%Z. split; [lia|reflexivity]. }
  destruct (pos_finite u Hpos Hle) as (m & ey & E & Hey).
  assert (N : is_nan u = false) by (apply (Clamp.ltb_not_nan_r _ _ Hpos)).
  assert (A : (two52 <=? abs u) = false).
  { rewrite FloatAxioms.leb_spec, FloatAxioms.abs_spec, E. cbn [SFabs].
    change (Prim2SF two52) with (S754_finite false 4503599627370496 0).
    destruct (SFleb _ _) eqn:L; [|reflexivity].
    apply SFleb_finite_pos in L. lia. }
  assert (Z0 : (u =? 0) = false).
  { rewrite FloatAxioms.eqb_spec, E. reflexivity. }
  assert (L0 : (u <? 0) = false).
  { rewrite FloatAxioms.ltb_spec, E. reflexivity. }
  unfold Math_round. rewrite N, A, Z0.
  destruct (frshiftexp u) as [fr e] eqn:F. rewrite L0.
  destruct (frexp_finite u m ey fr e E F) as (dd & Hdd & Hlo & He & HM & Hcase).
  set (M := normfr_mantissa fr) in *.
  set (sh := Uint63.sub 2154 e).
  assert (Hsh : Uint63.to_Z sh = (dd - ey)%Z).
  { unfold sh. rewrite Uint63.sub_spec, He. change (Uint63.to_Z 2154) with 2154%Z.
    change wB with (2 ^ 63)%Z.
    replace (2154 - (ey + 2154 - dd))%Z with (dd - ey)%Z by lia.
    apply Z.mod_small. lia. }
  set (q := Uint63.lsr M sh).
  assert (Hq : Uint63.to_Z q = (Uint63.to_Z M / 2 ^ (dd - ey))%Z).
  { unfold q. rewrite Uint63.lsr_spec, Hsh. reflexivity. }
  pose proof (Uint63.to_Z_bounded M) as [BM _].
  pose proof (Uint63.to_Z_bounded q) as [Bq _].
  assert (Q : (Uint63.to_Z q <= 360)%Z
              /\ (Uint63.to_Z q = 360%Z -> Uint63.bit M (Uint63.sub sh 1) = false)).
  { destruct Hcase as [C|[C1 C2]].
    - assert (Uint63.to_Z q = 0)%Z.
      { rewrite Hq. apply Z.div_small. split; [assumption|].
        apply Z.lt_le_trans with (2 ^ 53)%Z; [assumption|].
        apply Z.pow_le_mono_r; lia. }
      lia.
    - subst dd. rewrite Z.sub_0_l in Hq, Hsh.
      destruct Hey as [Hey|[Hey Hm]].
      + assert (Uint63.to_Z q < 256)%Z.
        { rewrite Hq. apply Z.div_lt_upper_bound; [apply Z.pow_pos_nonneg; lia|].
          apply Z.lt_le_trans with (2 ^ 53)%Z; [assumption|].
          change 256%Z with (2 ^ 8)%Z. rewrite <- Z.pow_add_r by lia.
          apply Z.pow_le_mono_r; lia. }
        lia.
      + subst ey. change (- -44)%Z with 44%Z in *.
        assert (P : (0 < 2 ^ 44)%Z) by reflexivity.
        assert (Uint63.to_Z q <= 360)%Z.
        { rewrite Hq. apply Z.div_le_upper_bound; [exact P|].
          rewrite C2. exact Hm. }
        split; [assumption|]. intros Q360.
        assert (EM : M = 6333186975989760%uint63).
        { apply Uint63.to_Z_inj.
          change (Uint63.to_Z 6333186975989760) with 6333186975989760%Z.
          rewrite Q360 in Hq.
          pose proof (Z.mul_div_le (Uint63.to_Z M) (2 ^ 44) P) as D.
          rewrite <- Hq in D. change (2 ^ 44 * 360)%Z with 6333186975989760%Z in D.
          lia. }
        assert (ES : sh = 44%uint63).
        { apply Uint63.to_Z_inj. rewrite Hsh. reflexivity. }
        rewrite EM, ES. reflexivity. }
  destruct Q as [Q1 Q2].
  destruct (Uint63.bit M (Uint63.sub sh 1)) eqn:Hb.
  - exists (Uint63.to_Z q + 1)%Z.
    assert (Uint63.to_Z q <> 360%Z) by (intros X; specialize (Q2 X); discriminate).
    split; [lia|].
    rewrite Clamp.of_uint63_of_Z, RoundShape.succ_small by lia. reflexivity.
  - exists (Uint63.to_Z q). split; [lia|]. apply Clamp.of_uint63_of_Z.
Qed.

End Degree.

(** * The range of [rgbToHsl] *)

Lemma sl_checked :
  forallb (fun mx => forallb (sl_check mx) unit_channels) unit_channels = true.
Proof. vm_compute. reflexivity. Qed.

Lemma unit_channels_not_nan :
  forallb (fun x => negb (is_nan x)) unit_channels = true.
Proof. vm_compute. reflexivity. Qed.

Lemma int_ok_spec bound u :
  int_ok bound u = true ->
  exists k, (0 <= k <= Uint63.to_Z bound)%Z /\ u = of_Z k.
Proof.
  unfold int_ok. destruct (frshiftexp u) as [fr e].
  set (k := Uint63.lsr _ _).
  rewrite andb_true_iff, num_eqb_eq, Uint63.leb_spec. intros [Hk <-].
  exists (Uint63.to_Z k). split.
  - pose proof (Uint63.to_Z_bounded k). lia.
  - apply Clamp.of_uint63_of_Z.
Qed.

Lemma unit_channels_eq : unit_channels = map (fun k => of_Z k / 255) channels.
Proof. vm_compute. reflexivity. Qed.

Lemma In_unit_channels k : In k channels -> In (of_Z k / 255) unit_channels.
Proof.
  intros H. rewrite unit_channels_eq.
  exact (in_map (fun k => of_Z k / 255) channels k H).
Qed.

Lemma unit_channel_not_nan x : In x unit_channels -> is_nan x = false.
Proof.
  pose proof unit_channels_not_nan as H. rewrite forallb_forall in H.
  intros Hx. apply negb_true_iff, H, Hx.
Qed.

(** [Math.max] and [Math.min] return one of their arguments, the larger
    and the smaller one. *)
Lemma Math_max_choice x y : Math_max x y = x \/ Math_max x y = y.
Proof.
  unfold Math_max.
  destruct (is_nan x), (is_nan y), (x <? y), (y <? x), (get_sign x); auto.
Qed.

Lemma Math_min_choice x y : Math_min x y = x \/ Math_min x y = y.
Proof.
  unfold Math_min.
  destruct (is_nan x), (is_nan y), (x <? y), (y <? x), (get_sign x); auto.
Qed.

Lemma leb_refl x : is_nan x = false -> (x <=? x) = true.
Proof.
  intros H. apply NumberOrder.leb_total; trivial.
  destruct (x <? x) eqn:E; [|reflexivity].
  pose proof (Clamp.ltb_asym _ _ E). congruence.
Qed.

Lemma Math_max_ge x y :
  is_nan x = false -> is_nan y = false ->
  (x <=? Math_max x y) = true /\ (y <=? Math_max x y) = true.
Proof.
  intros Hx Hy. unfold Math_max. rewrite Hx, Hy.
  destruct (x <? y) eqn:E1.
  - split; [apply NumberOrder.ltb_leb, E1|apply leb_refl, Hy].
  - destruct (y <? x) eqn:E2.
    + split; [apply leb_refl, Hx|apply NumberOrder.ltb_leb, E2].
    + pose proof (NumberOrder.leb_total x y Hx Hy E1).
      pose proof (NumberOrder.leb_total y x Hy Hx E2).
      destruct (get_sign x); split; trivial; apply leb_refl; trivial.
Qed.

Lemma Math_min_le x y :
  is_nan x = false -> is_nan y = false ->
  (Math_min x y <=? x) = true /\ (Math_min x y <=? y) = true.
Proof.
  intros Hx Hy. unfold Math_min. rewrite Hx, Hy.
  destruct (x <? y) eqn:E1.
  - split; [apply leb_refl, Hx|apply NumberOrder.ltb_leb, E1].
  - destruct (y <? x) eqn:E2.
    + split; [apply NumberOrder.ltb_leb, E2|apply leb_refl, Hy].
    + pose proof (NumberOrder.leb_total x y Hx Hy E1).
      pose proof (NumberOrder.leb_total y x Hy Hx E2).
      destruct (get_sign x); split; trivial; apply leb_refl; trivial.
Qed.

Lemma max3_min3 x y z :
  In x unit_channels -> In y unit_channels -> In z unit_channels ->
  In (Math_max3 x y z) unit_channels /\ In (Math_min3 x y z) unit_channels
  /\ (Math_min3 x y z <=? Math_max3 x y z) = true.
Proof.
  intros Hx Hy Hz. unfold Math_max3, Math_min3.
  assert (Hmx : In (Math_max x y) unit_channels)
    by (destruct (Math_max_choice x y) as [-> | ->]; assumption).
  assert (Hmn : In (Math_min x y) unit_channels)
    by (destruct (Math_min_choice x y) as [-> | ->]; assumption).
  split; [destruct (Math_max_choice (Math_max x y) z) as [-> | ->]; assumption|].
  split; [destruct (Math_min_choice (Math_min x y) z) as [-> | ->]; assumption|].
  pose proof (unit_channel_not_nan _ Hx) as Nx.
  pose proof (unit_channel_not_nan _ Hy) as Ny.
  pose proof (unit_channel_not_nan _ Hz) as Nz.
  pose proof (unit_channel_not_nan _ Hmx) as Nmx.
  pose proof (unit_channel_not_nan _ Hmn) as Nmn.
  destruct (Math_min_le (Math_min x y) z Nmn Nz) as [A _].
  destruct (Math_min_le x y Nx Ny) as [B _].
  destruct (Math_max_ge x y Nx Ny) as [C _].
  destruct (Math_max_ge (Math_max x y) z Nmx Nz) as [D _].
  eapply NumberOrder.leb_trans; [exact A|].
  eapply NumberOrder.leb_trans; [exact B|].
  eapply NumberOrder.leb_trans; [exact C|exact D].
Qed.

Lemma rgbToHsl_parts R G B :
  rgbToHsl R G B
  = let r := R / 255 in
    let g := G / 255 in
    let b := B / 255 in
    let max := Math_max3 r g b in
    let min := Math_min3 r g b in
    mkHSL (Math_round (hue_of max min r g b * 360))
          (Math_round (sat_of max min * 100))
          (Math_round (light_of max min * 100)).
Proof.
  unfold rgbToHsl, hue_of, sat_of, light_of. cbv zeta.
  destruct (strict_eq _ _); reflexivity.
Qed.

Lemma ltb_irrefl x : (x <? x) = false.
Proof.
  destruct (x <? x) eqn:E; [|reflexivity].
  pose proof (Clamp.ltb_asym _ _ E). congruence.
Qed.

Lemma Math_max_same x : Math_max x x = x.
Proof.
  unfold Math_max. rewrite ltb_irrefl.
  destruct (is_nan x), (get_sign x); reflexivity.
Qed.

Lemma Math_min_same x : Math_min x x = x.
Proof.
  unfold Math_min. rewrite ltb_irrefl.
  destruct (is_nan x), (get_sign x); reflexivity.
Qed.

(** ** [Math.round] on a positive number, in fewer steps *)

Module RoundPos.

(** Adding half of [2^s] before the division by [2^s] rounds to the
    nearest integer, the half upwards. *)
Lemma half_up_div M s :
  (0 <= M)%Z -> (1 <= s)%Z ->
  ((M + 2 ^ (s - 1)) / 2 ^ s = M / 2 ^ s + Z.b2z (Z.testbit M (s - 1)))%Z.
Proof.
  intros HM Hs.
  assert (P : (0 < 2 ^ (s - 1))%Z) by (apply Z.pow_pos_nonneg; lia).
  assert (E : (2 ^ s = 2 ^ (s - 1) * 2)%Z).
  { replace s with (s - 1 + 1)%Z at 1 by lia. rewrite Z.pow_add_r by lia. reflexivity. }
  rewrite E, <- !Z.div_div by lia.
  replace (M + 2 ^ (s - 1))%Z with (M + 1 * 2 ^ (s - 1))%Z by lia.
  rewrite Z.div_add by lia.
  rewrite Z.testbit_eqb by lia.
  set (a := (M / 2 ^ (s - 1))%Z).
  assert (Ha : (0 <= a)%Z) by (apply Z.div_pos; lia).
  destruct (Z.eqb_spec (a mod 2) 1) as [H1|H1]; cbn [Z.b2z];
    Z.to_euclidean_division_equations; lia.
Qed.

Lemma round_pos_degree u : degree_ok u = true -> Math_round u = round_pos u.
Proof.
  unfold degree_ok. rewrite andb_true_iff, orb_true_iff.
  intros [Hle [Hpos|Hz]].
  2:{ apply num_eqb_eq in Hz. subst u. reflexivity. }
  destruct (Degree.pos_finite u Hpos Hle) as (m & ey & E & Hey).
  assert (N : is_nan u = false) by (apply (Clamp.ltb_not_nan_r _ _ Hpos)).
  assert (A : (two52 <=? abs u) = false).
  { rewrite FloatAxioms.leb_spec, FloatAxioms.abs_spec, E. cbn [SFabs].
    change (Prim2SF two52) with (S754_finite false 4503599627370496 0).
    destruct (SFleb _ _) eqn:L; [|reflexivity].
    apply Degree.SFleb_finite_pos in L. lia. }
  assert (Z0 : (u =? 0) = false).
  { rewrite FloatAxioms.eqb_spec, E. reflexivity. }
  assert (L0 : (u <? 0) = false).
  { rewrite FloatAxioms.ltb_spec, E. reflexivity. }
  unfold Math_round, round_pos. rewrite N, A, Z0.
  destruct (frshiftexp u) as [fr e] eqn:F. rewrite L0.
  destruct (Degree.frexp_finite u m ey fr e E F) as (dd & Hdd & Hlo & He & HM & Hcase).
  set (M := normfr_mantissa fr) in *.
  set (sh := Uint63.sub 2154 e).
  assert (Hsh : Uint63.to_Z sh = (dd - ey)%Z).
  { unfold sh. rewrite Uint63.sub_spec, He. change (Uint63.to_Z 2154) with 2154%Z.
    change wB with (2 ^ 63)%Z.
    replace (2154 - (ey + 2154 - dd))%Z with (dd - ey)%Z by lia.
    apply Z.mod_small. lia. }
  assert (Hsh1 : Uint63.to_Z (Uint63.sub sh 1) = (dd - ey - 1)%Z).
  { rewrite Uint63.sub_spec, Hsh. change (Uint63.to_Z 1) with 1%Z.
    change wB with (2 ^ 63)%Z. apply Z.mod_small. lia. }
  pose proof (Uint63.to_Z_bounded M) as [BM _].
  set (S := (dd - ey)%Z) in *.
  assert (HS : (44 <= S)%Z) by (unfold S; lia).
  f_equal. apply Uint63.to_Z_inj.
  rewrite Uint63.lsr_spec, Uint63.add_spec, Uint63.lsl_spec, Hsh, Hsh1.
  change (Uint63.to_Z 1) with 1%Z. rewrite Z.mul_1_l. fold M.
  replace (dd - ey - 1)%Z with (S - 1)%Z by (unfold S; lia).
  assert (Hq : Uint63.to_Z (Uint63.lsr M sh) = (Uint63.to_Z M / 2 ^ S)%Z)
    by (rewrite Uint63.lsr_spec, Hsh; reflexivity).
  assert (Hq53 : (Uint63.to_Z (Uint63.lsr M sh) < 2 ^ 53)%Z)
    by (pose proof (RoundShape.lsr_le M sh); lia).
  assert (Hbit : Uint63.bit M (Uint63.sub sh 1) = Z.testbit (Uint63.to_Z M) (S - 1)).
  { rewrite Uint63.bitE, Hsh1. f_equal; unfold S; lia. }
  assert (LHS : Uint63.to_Z
                  (if Uint63.bit M (Uint63.sub sh 1)
                   then Uint63.add (Uint63.lsr M sh) 1 else Uint63.lsr M sh)
                = (Uint63.to_Z M / 2 ^ S
                   + Z.b2z (Z.testbit (Uint63.to_Z M) (S - 1)))%Z).
  { rewrite Hbit. destruct (Z.testbit (Uint63.to_Z M) (S - 1)); cbn [Z.b2z].
    - rewrite RoundShape.succ_small by assumption. lia.
    - lia. }
  rewrite LHS. change wB with (2 ^ 63)%Z.
  destruct (Z_le_gt_dec S 63) as [Hs|Hs].
  - assert (2 ^ (S - 1) <= 2 ^ 62)%Z by (apply Z.pow_le_mono_r; lia).
    assert (0 < 2 ^ (S - 1))%Z by (apply Z.pow_pos_nonneg; lia).
    rewrite (Z.mod_small (2 ^ (S - 1))) by lia.
    rewrite Z.mod_small by lia.
    symmetry. apply half_up_div; lia.
  - assert (E63 : (2 ^ (S - 1) mod 2 ^ 63 = 0)%Z).
    { replace (S - 1)%Z with (S - 1 - 63 + 63)%Z by lia.
      rewrite Z.pow_add_r by lia. apply Z.mod_mul. lia. }
    rewrite E63, Z.add_0_r, Z.mod_small by lia.
    assert (Big : (2 ^ 53 <= 2 ^ (S - 1))%Z) by (apply Z.pow_le_mono_r; lia).
    rewrite (Z.testbit_eqb _ (S - 1)) by lia.
    rewrite (Z.div_small (Uint63.to_Z M) (2 ^ (S - 1))) by lia.
    cbn [Z.b2z]. change (0 mod 2 =? 1)%Z with false. cbn [Z.b2z]. lia.
Qed.

Lemma channel_ok_degree y : channel_ok y = true -> degree_ok y = true.
Proof.
  unfold channel_ok, degree_ok. rewrite !andb_true_iff. intros [H1 H2].
  split; [|exact H2].
  eapply NumberOrder.leb_trans; [exact H1|reflexivity].
Qed.

Lemma round_pos_channel y : channel_ok y = true -> Math_round y = round_pos y.
Proof. intros H. apply round_pos_degree, channel_ok_degree, H. Qed.

End RoundPos.

(** ** The channels as shares of 255 *)

Lemma chan_pairs_eq : chan_pairs = map (fun k => (of_Z k, of_Z k / 255)) channels.
Proof. vm_compute. reflexivity. Qed.

Lemma In_chan_pairs k : In k channels -> In (of_Z k, of_Z k / 255) chan_pairs.
Proof.
  intros H. rewrite chan_pairs_eq.
  exact (in_map (fun k => (of_Z k, of_Z k / 255)) channels k H).
Qed.

Lemma chan_pair_share a : In a chan_pairs -> fst a / 255 = snd a.
Proof.
  rewrite chan_pairs_eq, in_map_iff. intros (k & <- & _). reflexivity.
Qed.

Lemma chan_pair_unit a : In a chan_pairs -> In (snd a) unit_channels.
Proof.
  rewrite chan_pairs_eq, in_map_iff. intros (k & <- & Hk).
  apply In_unit_channels, Hk.
Qed.

Lemma units_compared :
  forallb
    (fun x => forallb (fun y => (x <? y) || (y <? x) || num_eqb x y) unit_channels)
    unit_channels
  = true.
Proof. vm_compute. reflexivity. Qed.

(** Two shares are the same number or one is below the other. *)
Lemma unit_trichotomy x y :
  In x unit_channels -> In y unit_channels ->
  (x <? y) = true \/ (y <? x) = true \/ x = y.
Proof.
  intros Hx Hy. pose proof units_compared as H.
  rewrite forallb_forall in H. specialize (H x Hx).
  rewrite forallb_forall in H. specialize (H y Hy).
  rewrite !orb_true_iff, num_eqb_eq in H. tauto.
Qed.

Lemma unit_eqb_refl x : In x unit_channels -> strict_eq x x = true.
Proof.
  intros Hx. pose proof (unit_channel_not_nan x Hx) as N.
  pose proof (leb_refl x N) as L. unfold strict_eq.
  rewrite FloatAxioms.eqb_spec. rewrite FloatAxioms.leb_spec in L.
  apply NumberOrder.not_nan_spec in N.
  unfold SFleb in L. unfold SFeqb.
  destruct (SFcompare (Prim2SF x) (Prim2SF x)) as [[| |]|] eqn:C; try discriminate.
  - reflexivity.
  - exfalso.
    assert (T : SFltb (Prim2SF x) (Prim2SF x) = true) by (unfold SFltb; rewrite C; reflexivity).
    pose proof (FloatOrder.SFltb_not_leb _ _ T) as F.
    unfold SFleb in F. rewrite C in F. discriminate.
Qed.

(** The larger and the smaller of two shares in a known order. *)
Lemma unit_max_min x y :
  In x unit_channels -> In y unit_channels -> (x <=? y) = true ->
  Math_max x y = y /\ Math_max y x = y /\ Math_min x y = x /\ Math_min y x = x.
Proof.
  intros Hx Hy L.
  pose proof (unit_channel_not_nan x Hx) as Nx.
  pose proof (unit_channel_not_nan y Hy) as Ny.
  destruct (unit_trichotomy x y Hx Hy) as [E|[E| ->]].
  - pose proof (Clamp.ltb_asym _ _ E) as A.
    unfold Math_max, Math_min. rewrite Nx, Ny, E, A. auto.
  - pose proof (NumberOrder.ltb_not_leb _ _ E). congruence.
  - rewrite Math_max_same, Math_min_same. auto.
Qed.

(** ** A colour by its largest, middle and smallest channel *)

Lemma arrange_map {A B : Type} (f : A -> B) o hi mid lo x y z :
  arrange o hi mid lo = (x, y, z) ->
  arrange o (f hi) (f mid) (f lo) = (f x, f y, f z).
Proof. destruct o; cbn; intros [= <- <- <-]; reflexivity. Qed.

(** Any three channels are a largest, a middle and a smallest one in some
    order. *)
Lemma arranged a b c :
  In a chan_pairs -> In b chan_pairs -> In c chan_pairs ->
  exists o hi mid lo,
    In hi chan_pairs /\ In mid chan_pairs /\ In lo chan_pairs
    /\ (snd lo <=? snd mid) = true /\ (snd mid <=? snd hi) = true
    /\ arrange o hi mid lo = (a, b, c).
Proof.
  intros Ha Hb Hc.
  assert (T : forall u v, In u chan_pairs -> In v chan_pairs ->
                (snd u <=? snd v) = true \/ (snd v <=? snd u) = true).
  { intros u v Hu Hv.
    pose proof (unit_channel_not_nan _ (chan_pair_unit u Hu)) as Nu.
    pose proof (unit_channel_not_nan _ (chan_pair_unit v Hv)) as Nv.
    destruct (snd u <? snd v) eqn:E.
    - left. apply NumberOrder.ltb_leb, E.
    - right. apply NumberOrder.leb_total; assumption. }
  destruct (T a b Ha Hb) as [AB|BA], (T b c Hb Hc) as [BC|CB].
  - exists LMH, c, b, a. auto 10.
  - destruct (T a c Ha Hc) as [AC|CA].
    + exists LHM, b, c, a. auto 10.
    + exists MHL, b, a, c. auto 10.
  - destruct (T a c Ha Hc) as [AC|CA].
    + exists MLH, c, a, b. auto 10.
    + exists HLM, a, c, b. auto 10.
  - exists HML, a, b, c. auto 10.
Qed.

Section Arranged.

Variables mx md mn : number.
Hypothesis Hmx : In mx unit_channels.
Hypothesis Hmd : In md unit_channels.
Hypothesis Hmn : In mn unit_channels.
Hypothesis Lo : (mn <=? md) = true.
Hypothesis Hi : (md <=? mx) = true.

Lemma ends_ordered : (mn <=? mx) = true.
Proof. exact (NumberOrder.leb_trans _ _ _ Lo Hi). Qed.

(** [Math.max] and [Math.min] of the three channels, whatever their
    order. *)
Lemma max3_arranged o x y z :
  arrange o mx md mn = (x, y, z) -> Math_max3 x y z = mx /\ Math_min3 x y z = mn.
Proof.
  destruct (unit_max_min mn md Hmn Hmd Lo) as (A1 & A2 & A3 & A4).
  destruct (unit_max_min md mx Hmd Hmx Hi) as (B1 & B2 & B3 & B4).
  destruct (unit_max_min mn mx Hmn Hmx ends_ordered) as (C1 & C2 & C3 & C4).
  unfold Math_max3, Math_min3.
  destruct o; cbn; intros [= <- <- <-];
    rewrite ?A1, ?A2, ?A3, ?A4, ?B1, ?B2, ?B3, ?B4, ?C1, ?C2, ?C3, ?C4,
            ?A1, ?A2, ?A3, ?A4, ?B1, ?B2, ?B3, ?B4, ?C1, ?C2, ?C3, ?C4;
    split; reflexivity.
Qed.

(** The [switch] of [rgbToHsl] on a colour so arranged. *)
Lemma hue_of_arranged o x y z :
  arrange o mx md mn = (x, y, z) -> strict_eq mx mn = false ->
  hue_of mx mn x y z = hue_arranged o mx md mn (mx - mn).
Proof.
  intros E N.
  pose proof (unit_eqb_refl mx Hmx) as R.
  pose proof (NumberOrder.leb_not_ltb _ _ Lo) as L1.
  pose proof (NumberOrder.leb_not_ltb _ _ ends_ordered) as L2.
  assert (L3 : (mn <? mx) = true).
  { destruct (unit_trichotomy mn mx Hmn Hmx) as [T|[T|T]]; [exact T| |].
    - congruence.
    - subst mn. congruence. }
  unfold hue_of. rewrite N. cbv zeta.
  destruct o; cbn in E; injection E as <- <- <-; cbn [hue_arranged];
    rewrite ?R, ?N, ?L1, ?L2, ?L3;
    try reflexivity;
    destruct (strict_eq mx md); rewrite ?R, ?L2, ?L3; reflexivity.
Qed.

End Arranged.

Lemma six_orders_spec f mx md mn d :
  six_orders f mx md mn d = true ->
  forall o, f o (hue_arranged o mx md mn d * 360) = true.
Proof.
  unfold six_orders. cbv zeta. rewrite !andb_true_iff.
  intros (((((A & B) & C) & D) & E) & F) o.
  destruct o; cbn [hue_arranged]; assumption.
Qed.

(** ** Every colour, by its largest and its smallest channel *)

Lemma pair_checked :
  forallb (fun hi => forallb (pair_check 5 hi) chan_pairs) chan_pairs = true.
Proof. vm_compute. reflexivity. Qed.

(** What the check says of one colour. *)
Lemma triple_checked o hi mid lo :
  In hi chan_pairs -> In mid chan_pairs -> In lo chan_pairs ->
  (snd lo <=? snd mid) = true -> (snd mid <=? snd hi) = true ->
  let mx := snd hi in
  let mn := snd lo in
  let u := hue_arranged o mx (snd mid) mn (mx - mn) * 360 in
  let s := Math_round (sat_of mx mn * 100) / 100 in
  let l := Math_round (light_of mx mn * 100) / 100 in
  (strict_eq mx mn = false -> degree_ok u = true)
  /\ (strict_eq s 0 = true ->
      let G := Math_round (l * 255) in
      near 5 G (fst hi) && near 5 G (fst mid) && near 5 G (fst lo) = true)
  /\ (strict_eq s 0 = false ->
      let q := hsl_q s l in
      let p := hsl_p s l in
      let '(cr, cg, cb) := arrange o (fst hi) (fst mid) (fst lo) in
      close 5 (fast_rgb (round_pos (p * 255)) (round_pos (q * 255)) p ((q - p) * 6) (q - p)
                        (round_pos u)) cr cg cb = true).
Proof.
  intros Hhi Hmid Hlo L1 L2. cbv zeta.
  pose proof (NumberOrder.leb_trans _ _ _ L1 L2) as L3.
  pose proof pair_checked as C.
  rewrite forallb_forall in C. specialize (C hi Hhi).
  rewrite forallb_forall in C. specialize (C lo Hlo).
  unfold pair_check in C. rewrite L3 in C. cbv zeta in C.
  destruct (strict_eq _ 0) eqn:S0.
  - rewrite forallb_forall in C. specialize (C mid Hmid). cbv beta in C.
    rewrite L1, L2 in C. cbn [andb] in C.
    rewrite andb_true_iff in C. destruct C as [N D].
    split; [|split; [intros _; exact N|discriminate]].
    intros F. rewrite F in D. cbn [orb] in D.
    exact (six_orders_spec _ _ _ _ _ D o).
  - rewrite forallb_forall in C. specialize (C mid Hmid). cbv beta in C.
    rewrite L1, L2 in C. cbn [andb] in C.
    pose proof (six_orders_spec _ _ _ _ _ C o) as D. cbv beta in D.
    rewrite andb_true_iff in D. destruct D as [D1 D2].
    split; [intros _; exact D1|]. split; [discriminate|].
    intros _. destruct (arrange o (fst hi) (fst mid) (fst lo)) as [[cr cg] cb]. exact D2.
Qed.


(** The hue before rounding, for any three channels. *)
Lemma hue_degree a b c :
  In a chan_pairs -> In b chan_pairs -> In c chan_pairs ->
  let x := snd a in
  let y := snd b in
  let z := snd c in
  degree_ok (hue_of (Math_max3 x y z) (Math_min3 x y z) x y z * 360) = true.
Proof.
  intros Ha Hb Hc. cbv zeta.
  destruct (arranged a b c Ha Hb Hc)
    as (o & hi & mid & lo & Hhi & Hmid & Hlo & L1 & L2 & E).
  pose proof (arrange_map snd _ _ _ _ _ _ _ E) as Es.
  pose proof (chan_pair_unit _ Hhi) as Uhi.
  pose proof (chan_pair_unit _ Hmid) as Umid.
  pose proof (chan_pair_unit _ Hlo) as Ulo.
  destruct (max3_arranged _ _ _ Uhi Umid Ulo L1 L2 o _ _ _ Es) as [-> ->].
  destruct (strict_eq (snd hi) (snd lo)) eqn:F.
  - unfold hue_of. rewrite F. reflexivity.
  - rewrite (hue_of_arranged _ _ _ Uhi Ulo L1 L2 o _ _ _ Es F).
    apply (triple_checked o hi mid lo Hhi Hmid Hlo L1 L2), F.
Qed.


(** Saturation and lightness, rounded, are integers of 0..100. *)
Lemma sat_light_integers mx mn :
  In mx unit_channels -> In mn unit_channels -> (mn <=? mx) = true ->
  exists ks kl,
    (0 <= ks <= 100)%Z /\ (0 <= kl <= 100)%Z
    /\ Math_round (sat_of mx mn * 100) = of_Z ks
    /\ Math_round (light_of mx mn * 100) = of_Z kl.
Proof.
  intros Hmx Hmn Hle.
  pose proof sl_checked as Hsl.
  rewrite forallb_forall in Hsl. specialize (Hsl _ Hmx).
  rewrite forallb_forall in Hsl. specialize (Hsl _ Hmn).
  unfold sl_check in Hsl. rewrite Hle, andb_true_iff in Hsl.
  destruct Hsl as [Hs Hl].
  apply int_ok_spec in Hs, Hl.
  destruct Hs as (ks & Hks & Es). destruct Hl as (kl & Hkl & El).
  change (Uint63.to_Z 100) with 100%Z in Hks, Hkl.
  exists ks, kl. auto.
Qed.

(** On channels 0..255, [rgbToHsl] returns an integer hue of 0..360 and
    integer saturation and lightness of 0..100. *)
Lemma rgbToHsl_range cr cg cb :
  In cr channels -> In cg channels -> In cb channels ->
  exists kh ks kl,
    (0 <= kh <= 360)%Z /\ (0 <= ks <= 100)%Z /\ (0 <= kl <= 100)%Z
    /\ rgbToHsl (of_Z cr) (of_Z cg) (of_Z cb) = mkHSL (of_Z kh) (of_Z ks) (of_Z kl).
Proof.
  intros Hr Hg Hb. rewrite rgbToHsl_parts. cbv zeta.
  pose proof (hue_degree _ _ _ (In_chan_pairs cr Hr) (In_chan_pairs cg Hg)
                (In_chan_pairs cb Hb)) as Hh.
  cbn [snd] in Hh.
  apply In_unit_channels in Hr, Hg, Hb.
  apply Degree.Math_round_degree in Hh. destruct Hh as (kh & Hkh & ->).
  destruct (max3_min3 _ _ _ Hr Hg Hb) as (Hmx & Hmn & Hle).
  destruct (sat_light_integers _ _ Hmx Hmn Hle) as (ks & kl & Hks & Hkl & -> & ->).
  exists kh, ks, kl. auto.
Qed.

(** * The range of [correctColor] *)

Lemma lookup_In key (table : list (string * Profile.t)) p :
  lookup key table = Some p -> In p (map snd table).
Proof.
  induction table as [|[k q] rest IH]; simpl; [discriminate|].
  destruct (String.eqb key k).
  - intros [= ->]. auto.
  - auto.
Qed.

Lemma direct_checked :
  forallb
    (fun p => forallb (fun kh => forallb (direct_check p kh) channels) (Zrange 0 361))
    profiles = true.
Proof. vm_compute. reflexivity. Qed.

Lemma hue_arg_checked :
  forallb (fun p => forallb (hue_arg_check p) (Zrange 0 361)) profiles = true.
Proof. vm_compute. reflexivity. Qed.

Lemma pq_checked :
  forallb
    (fun p => forallb (fun ks => forallb (pq_check p ks) (Zrange 0 101)) (Zrange 0 101))
    profiles = true.
Proof. vm_compute. reflexivity. Qed.

Lemma channels_finite :
  forallb (fun k => is_finite (of_Z k) && in_0_255 (of_Z k)) channels = true.
Proof. vm_compute. reflexivity. Qed.

Lemma channel_finite k : In k channels -> is_finite (of_Z k) = true.
Proof.
  intros H. pose proof channels_finite as F. rewrite forallb_forall in F.
  specialize (F k H). apply andb_true_iff in F. apply F.
Qed.

Lemma channel_in_0_255 k : In k channels -> in_0_255 (of_Z k) = true.
Proof.
  intros H. pose proof channels_finite as F. rewrite forallb_forall in F.
  specialize (F k H). apply andb_true_iff in F. apply F.
Qed.

Lemma Math_round_not_nan y : is_nan y = false -> is_nan (Math_round y) = false.
Proof.
  intros Hy.
  destruct (RoundShape.Math_round_shape y) as [N|[[_ ->]|[[_ ->]|(k & _ & [-> | ->])]]];
    try congruence.
  - apply NumberOrder.not_nan_spec. rewrite of_uint63_spec.
    apply RoundFacts.binary_normalize_not_nan.
  - apply NumberOrder.not_nan_spec. rewrite FloatAxioms.opp_spec, of_uint63_spec.
    pose proof (RoundFacts.binary_normalize_not_nan (Uint63.to_Z k) 0 false) as H.
    destruct (binary_normalize prec emax (Uint63.to_Z k) 0 false); simpl; congruence.
Qed.

Lemma hue2rgb_parts p q t : hue2rgb p q t = hue2rgb_tail p q (wrap t).
Proof. reflexivity. Qed.

Lemma hue2rgb_tail_not_nan p q t :
  is_finite p = true -> is_finite q = true -> is_finite (q - p) = true ->
  is_finite ((q - p) * 6) = true -> is_finite t = true ->
  is_finite (2 / 3 - t) = true ->
  is_nan (hue2rgb_tail p q t) = false.
Proof.
  intros Hp Hq Hd Hd6 Ht Hu. unfold hue2rgb_tail.
  destruct (t <? 1 / 6); [|destruct (t <? 1 / 2); [|destruct (t <? 2 / 3)]].
  - apply NumberFacts.add_not_nan; [assumption|].
    apply NumberFacts.mul_finite; assumption.
  - apply NumberFacts.finite_not_nan, Hq.
  - apply NumberFacts.add_not_nan; [assumption|].
    apply NumberFacts.mul_not_nan; [|reflexivity|reflexivity].
    apply NumberFacts.mul_finite; assumption.
  - apply NumberFacts.finite_not_nan, Hp.
Qed.

Lemma hslToRgb_parts H S L :
  hslToRgb H S L
  = let hq := H / 360 in
    let s := S / 100 in
    let l := L / 100 in
    if strict_eq s 0 then
      mkRGB (Math_round (l * 255)) (Math_round (l * 255)) (Math_round (l * 255))
    else
      let q := hsl_q s l in
      let p := hsl_p s l in
      mkRGB (Math_round (hue2rgb_tail p q (wrap (hq + 1 / 3)) * 255))
            (Math_round (hue2rgb_tail p q (wrap hq) * 255))
            (Math_round (hue2rgb_tail p q (wrap (hq - 1 / 3)) * 255)).
Proof.
  unfold hslToRgb. cbv zeta. destruct (strict_eq (S / 100) 0); reflexivity.
Qed.

Lemma scaled_not_nan v : is_nan v = false -> is_nan (Math_round (v * 255)) = false.
Proof.
  intros H. apply Math_round_not_nan.
  apply NumberFacts.mul_not_nan; [assumption|reflexivity|reflexivity].
Qed.

(** The colour recomputed from the corrected hue and saturation has no
    NaN channel. *)
Lemma derived_not_nan profile kh ks kl :
  In profile profiles ->
  (0 <= kh <= 360)%Z -> (0 <= ks <= 100)%Z -> (0 <= kl <= 100)%Z ->
  let derived :=
    hslToRgb (corrected_hue profile (of_Z kh))
      (Math_min 100 (of_Z ks * Profile.saturationBoost profile)) (of_Z kl) in
  is_nan (r derived) = false /\ is_nan (g derived) = false
  /\ is_nan (b derived) = false.
Proof.
  intros Hp Hkh Hks Hkl derived. unfold derived. rewrite hslToRgb_parts. cbv zeta.
  pose proof hue_arg_checked as E1. rewrite forallb_forall in E1.
  specialize (E1 profile Hp).
  pose proof (forallb_Zrange _ _ _ E1 kh ltac:(simpl; lia)) as T. clear E1.
  pose proof pq_checked as E2. rewrite forallb_forall in E2.
  specialize (E2 profile Hp).
  pose proof (forallb_Zrange _ _ _ E2 ks ltac:(simpl; lia)) as E2'. clear E2.
  pose proof (forallb_Zrange _ _ _ E2' kl ltac:(simpl; lia)) as PQ. clear E2'.
  unfold pq_check in PQ. cbv zeta in PQ.
  destruct (strict_eq _ 0).
  - cbn [r g b]. pose proof (scaled_not_nan _ (NumberFacts.finite_not_nan _ PQ)). auto.
  - rewrite !andb_true_iff in PQ. destruct PQ as [[[P1 P2] P3] P4].
    unfold hue_arg_check, t_ok in T. cbv zeta in T.
    rewrite !andb_true_iff in T. destruct T as [[[T1 T2] [T3 T4]] [T5 T6]].
    cbn [r g b]. repeat split; apply scaled_not_nan, hue2rgb_tail_not_nan; assumption.
Qed.

Lemma spec_direct_R profile rgb hsl : directR (spec_direct profile rgb hsl) = r rgb.
Proof. unfold spec_direct. destruct (findCorrection _ _); reflexivity. Qed.

Lemma spec_direct_G profile rgb hsl :
  directG (spec_direct profile rgb hsl)
  = directG (spec_direct profile (mkRGB 0 (g rgb) (g rgb)) (mkHSL (h hsl) 0 0)).
Proof. unfold spec_direct. cbn [h]. destruct (findCorrection _ _); reflexivity. Qed.

Lemma spec_direct_B profile rgb hsl :
  directB (spec_direct profile rgb hsl)
  = directB (spec_direct profile (mkRGB 0 (b rgb) (b rgb)) (mkHSL (h hsl) 0 0)).
Proof. unfold spec_direct. cbn [h]. destruct (findCorrection _ _); reflexivity. Qed.

Lemma spec_direct_hue profile rgb hsl :
  directHue (spec_direct profile rgb hsl) = corrected_hue profile (h hsl).
Proof.
  unfold corrected_hue, spec_direct. cbn [h]. destruct (findCorrection _ _); reflexivity.
Qed.

Lemma direct_channels profile kh c :
  In profile profiles -> (0 <= kh <= 360)%Z -> In c channels ->
  let d := spec_direct profile (mkRGB 0 (of_Z c) (of_Z c)) (mkHSL (of_Z kh) 0 0) in
  (exists k, In k channels /\ directG d = of_Z k)
  /\ (exists k, In k channels /\ directB d = of_Z k).
Proof.
  intros Hp Hkh Hc d.
  pose proof direct_checked as E. rewrite forallb_forall in E. specialize (E profile Hp).
  pose proof (forallb_Zrange _ _ _ E kh ltac:(simpl; lia)) as E'. clear E.
  rewrite forallb_forall in E'. specialize (E' c Hc).
  unfold direct_check in E'. cbv zeta in E'. fold d in E'.
  apply andb_true_iff in E'. destruct E' as [G B].
  apply int_ok_spec in G, B. change (Uint63.to_Z 255) with 255%Z in G, B.
  destruct G as (k1 & H1 & E1). destruct B as (k2 & H2 & E2).
  split; [exists k1|exists k2]; (split; [apply In_channels; lia|assumption]).
Qed.

Lemma average_channel x n :
  is_finite x = true -> is_nan n = false ->
  exists k, In k channels /\ clamp255 (average x n) = of_Z k.
Proof.
  intros Hx Hn. unfold average. apply Clamp.clamp255_round.
  apply NumberFacts.div_not_nan; [|reflexivity|reflexivity].
  apply NumberFacts.add_not_nan; assumption.
Qed.

(** Every channel [correctWith] returns for channels 0..255 under a
    registered profile is one of the integers 0..255. *)
Lemma correctWith_channels profile cr cg cb :
  In profile profiles -> In cr channels -> In cg channels -> In cb channels ->
  exists kr kg kb,
    In kr channels /\ In kg channels /\ In kb channels
    /\ correctWith profile (mkRGB (of_Z cr) (of_Z cg) (of_Z cb))
       = mkRGB (of_Z kr) (of_Z kg) (of_Z kb).
Proof.
  intros Hp Hr Hg Hb. rewrite correctWith_pipeline. unfold spec_correct. cbn [r g b].
  destruct (rgbToHsl_range cr cg cb Hr Hg Hb) as (kh & ks & kl & Hkh & Hks & Hkl & ->).
  set (rgb := mkRGB (of_Z cr) (of_Z cg) (of_Z cb)).
  set (hsl := mkHSL (of_Z kh) (of_Z ks) (of_Z kl)).
  set (d := spec_direct profile rgb hsl).
  assert (DR : directR d = of_Z cr) by apply spec_direct_R.
  destruct (direct_channels profile kh cg Hp Hkh Hg) as [(kg0 & Hkg0 & DG) _].
  destruct (direct_channels profile kh cb Hp Hkh Hb) as [_ (kb0 & Hkb0 & DB)].
  cbv zeta in DG, DB.
  assert (DG' : directG d = of_Z kg0) by (unfold d; rewrite spec_direct_G; exact DG).
  assert (DB' : directB d = of_Z kb0) by (unfold d; rewrite spec_direct_B; exact DB).
  assert (DH : directHue d = corrected_hue profile (of_Z kh)) by apply spec_direct_hue.
  unfold spec_reconcile, spec_saturation, spec_clamp.
  rewrite DR, DG', DB', DH. subst hsl. cbn [s l]. cbv zeta.
  destruct (significant _ _ _).
  - destruct (derived_not_nan profile kh ks kl Hp Hkh Hks Hkl) as (NR & NG & NB).
    cbv zeta in NR, NG, NB. cbn [r g b].
    destruct (average_channel _ _ (channel_finite cr Hr) NR) as (kr & Hkr & ->).
    destruct (average_channel _ _ (channel_finite kg0 Hkg0) NG) as (kg & Hkg & ->).
    destruct (average_channel _ _ (channel_finite kb0 Hkb0) NB) as (kb & Hkb & ->).
    exists kr, kg, kb. auto.
  - cbn [r g b]. rewrite !clamp255_channel by assumption.
    exists cr, kg0, kb0. auto.
Qed.

(** C1.  For integer channels 0..255 and a key of the registry,
    [correctColor] returns a colour, and each of its channels lies in
    [0, 255]; it is, rounded and clamped, one of the integers 0..255. *)
Theorem correctColor_in_range (cr cg cb : Z) (key : string) (profile : Profile.t)
  (Hr : In cr channels) (Hg : In cg channels) (Hb : In cb channels)
  (Hkey : lookup key DEVICE_PROFILES = Some profile) :
  exists out,
    correctColor (mkRGB (of_Z cr) (of_Z cg) (of_Z cb)) key = Some out
    /\ in_0_255 (r out) = true /\ in_0_255 (g out) = true /\ in_0_255 (b out) = true
    /\ exists kr kg kb,
        In kr channels /\ In kg channels /\ In kb channels
        /\ out = mkRGB (of_Z kr) (of_Z kg) (of_Z kb).
Proof.
  unfold correctColor. rewrite Hkey.
  destruct (correctWith_channels profile cr cg cb (lookup_In _ _ _ Hkey) Hr Hg Hb)
    as (kr & kg & kb & Hkr & Hkg & Hkb & E).
  eexists. split; [reflexivity|]. rewrite E. cbn [r g b].
  repeat split; try (apply channel_in_0_255; assumption).
  exists kr, kg, kb. auto.
Qed.

Lemma correctColor_in_range_witness :
  exists out,
    correctColor (mkRGB (of_Z 255) (of_Z 102) (of_Z 0)) "tl-fans" = Some out
    /\ in_0_255 (r out) = true /\ in_0_255 (g out) = true /\ in_0_255 (b out) = true
    /\ exists kr kg kb,
        In kr channels /\ In kg channels /\ In kb channels
        /\ out = mkRGB (of_Z kr) (of_Z kg) (of_Z kb).
Proof.
  apply (correctColor_in_range 255 102 0 "tl-fans" (profile_named "tl-fans"));
    try (apply In_channels; lia).
  reflexivity.
Defined.

(** * Brightness *)

Lemma scale_channel k :
  In k channels ->
  Math_round (of_Z k * (100 / 100)) = of_Z k
  /\ Math_round (of_Z k * (50 / 100)) = Math_round (of_Z k / 2)
  /\ Math_round (of_Z k / 2) = of_Z (half_up k).
Proof.
  intros Hk.
  assert (H : forallb scale_check channels = true) by (vm_compute; reflexivity).
  rewrite forallb_forall in H. specialize (H k Hk). unfold scale_check in H.
  rewrite !andb_true_iff, !num_eqb_eq in H. tauto.
Qed.

(** C9.  [updateUI] corrects first and then scales: each displayed
    channel is the corrected one times [currentBrightness / 100],
    rounded.  For integer channels 0..255 under a registered device,
    brightness 100 displays the corrected colour itself, and at
    brightness 50 each displayed channel is half the channel displayed
    at 100, rounded (ties upwards). *)
Theorem brightness_scaling (st : State) (cr cg cb : Z) (profile : Profile.t)
  (Hcolor : currentColor st = mkRGB (of_Z cr) (of_Z cg) (of_Z cb))
  (Hr : In cr channels) (Hg : In cg channels) (Hb : In cb channels)
  (Hdevice : lookup (currentDevice st) DEVICE_PROFILES = Some profile) :
  exists corrected v v100 v50 kr kg kb,
    correctColor (currentColor st) (currentDevice st) = Some corrected
    /\ updateUI st = Some v
    /\ adjustedCorrected v = scale corrected (currentBrightness st)
    /\ updateUI (set_brightness st 100) = Some v100
    /\ updateUI (set_brightness st 50) = Some v50
    /\ adjustedCorrected v100 = corrected
    /\ corrected = mkRGB (of_Z kr) (of_Z kg) (of_Z kb)
    /\ r (adjustedCorrected v50) = Math_round (r (adjustedCorrected v100) / 2)
    /\ g (adjustedCorrected v50) = Math_round (g (adjustedCorrected v100) / 2)
    /\ b (adjustedCorrected v50) = Math_round (b (adjustedCorrected v100) / 2)
    /\ adjustedCorrected v50
       = mkRGB (of_Z (half_up kr)) (of_Z (half_up kg)) (of_Z (half_up kb)).
Proof.
  unfold updateUI, set_brightness. cbn [currentColor currentDevice currentBrightness].
  unfold correctColor. rewrite Hdevice, Hcolor.
  destruct (correctWith_channels profile cr cg cb (lookup_In _ _ _ Hdevice) Hr Hg Hb)
    as (kr & kg & kb & Hkr & Hkg & Hkb & E).
  rewrite E. cbn [r g b].
  destruct (scale_channel kr Hkr) as (R1 & R2 & R3).
  destruct (scale_channel kg Hkg) as (G1 & G2 & G3).
  destruct (scale_channel kb Hkb) as (B1 & B2 & B3).
  eexists _, _, _, _, kr, kg, kb.
  split; [reflexivity|]. split; [reflexivity|]. split; [reflexivity|].
  split; [reflexivity|]. split; [reflexivity|].
  cbn [adjustedCorrected r g b].
  rewrite R1, G1, B1, R2, G2, B2, R3, G3, B3. repeat split; reflexivity.
Qed.

Lemma brightness_scaling_witness :
  exists corrected v v100 v50 kr kg kb,
    let st := mkState "tl-fans" "lianli" 50 (mkRGB (of_Z 255) (of_Z 102) (of_Z 0)) in
    correctColor (currentColor st) (currentDevice st) = Some corrected
    /\ updateUI st = Some v
    /\ adjustedCorrected v = scale corrected (currentBrightness st)
    /\ updateUI (set_brightness st 100) = Some v100
    /\ updateUI (set_brightness st 50) = Some v50
    /\ adjustedCorrected v100 = corrected
    /\ corrected = mkRGB (of_Z kr) (of_Z kg) (of_Z kb)
    /\ r (adjustedCorrected v50) = Math_round (r (adjustedCorrected v100) / 2)
    /\ g (adjustedCorrected v50) = Math_round (g (adjustedCorrected v100) / 2)
    /\ b (adjustedCorrected v50) = Math_round (b (adjustedCorrected v100) / 2)
    /\ adjustedCorrected v50
       = mkRGB (of_Z (half_up kr)) (of_Z (half_up kg)) (of_Z (half_up kb)).
Proof.
  apply (brightness_scaling
           (mkState "tl-fans" "lianli" 50 (mkRGB (of_Z 255) (of_Z 102) (of_Z 0)))
           255 102 0 (profile_named "tl-fans"));
    try (apply In_channels; lia); reflexivity.
Defined.

(** * Hex text of arbitrary numbers *)

Lemma round_channel_checked :
  forallb (fun k => num_eqb (clamp255 (Math_round (of_Z k))) (of_Z k)) channels = true.
Proof. vm_compute. reflexivity. Qed.

Lemma round_channel k : In k channels -> clamp255 (Math_round (of_Z k)) = of_Z k.
Proof.
  intros H. pose proof round_channel_checked as E. rewrite forallb_forall in E.
  apply num_eqb_eq, E, H.
Qed.

(** [toHex] of any number but NaN is [toHex] of the channel the number
    rounds and clamps to. *)
Lemma toHex_clamped x :
  is_nan x = false ->
  exists k, In k channels /\ clamp255 (Math_round x) = of_Z k
            /\ toHex x = toHex (of_Z k).
Proof.
  intros Hx. destruct (Clamp.clamp255_round x Hx) as (k & Hk & E).
  exists k. split; [assumption|]. split; [assumption|].
  unfold toHex. fold (clamp255 (Math_round x)). fold (clamp255 (Math_round (of_Z k))).
  rewrite E, (round_channel k Hk). reflexivity.
Qed.

Lemma rgbToHex_channels cr cg cb :
  In cr channels -> In cg channels -> In cb channels ->
  hexToRgb (rgbToHex (of_Z cr) (of_Z cg) (of_Z cb))
  = Some (mkRGB (of_Z cr) (of_Z cg) (of_Z cb))
  /\ isValidHex (rgbToHex (of_Z cr) (of_Z cg) (of_Z cb)) = true.
Proof.
  intros Hr Hg Hb. unfold rgbToHex.
  destruct (toHex_channel cr Hr) as (r1 & r2 & -> & Hr1 & Hr2 & Er).
  destruct (toHex_channel cg Hg) as (g1 & g2 & -> & Hg1 & Hg2 & Eg).
  destruct (toHex_channel cb Hb) as (b1 & b2 & -> & Hb1 & Hb2 & Eb).
  cbn [append toUpperCase]. change (upper_ascii "#") with "#"%char.
  split.
  - unfold hexToRgb.
    rewrite (exec_hex_digits _ _ _ _ _ _ true) by assumption.
    rewrite Er, Eg, Eb. reflexivity.
  - apply isValidHex_grammar, grammar_digits.
    exists (upper_ascii r1), (upper_ascii r2), (upper_ascii g1), (upper_ascii g2),
      (upper_ascii b1), (upper_ascii b2), true.
    cbv zeta. auto 10.
Qed.

(** X1.  Whatever numbers [rgbToHex] is given, NaN apart, it writes a hex
    colour [isValidHex] accepts, and [hexToRgb] reads back each number
    rounded and clamped to 0..255. *)
Theorem rgbToHex_clamps (cr cg cb : number)
  (Nr : is_nan cr = false) (Ng : is_nan cg = false) (Nb : is_nan cb = false) :
  isValidHex (rgbToHex cr cg cb) = true
  /\ hexToRgb (rgbToHex cr cg cb)
     = Some (mkRGB (clamp255 (Math_round cr)) (clamp255 (Math_round cg))
                   (clamp255 (Math_round cb)))
  /\ valid_color (mkRGB (clamp255 (Math_round cr)) (clamp255 (Math_round cg))
                        (clamp255 (Math_round cb))).
Proof.
  destruct (toHex_clamped cr Nr) as (kr & Hkr & Er & Tr).
  destruct (toHex_clamped cg Ng) as (kg & Hkg & Eg & Tg).
  destruct (toHex_clamped cb Nb) as (kb & Hkb & Eb & Tb).
  assert (E : rgbToHex cr cg cb = rgbToHex (of_Z kr) (of_Z kg) (of_Z kb))
    by (unfold rgbToHex; rewrite Tr, Tg, Tb; reflexivity).
  rewrite E, Er, Eg, Eb.
  destruct (rgbToHex_channels kr kg kb Hkr Hkg Hkb) as [R V].
  split; [exact V|]. split; [exact R|].
  exists kr, kg, kb. auto.
Qed.

Lemma rgbToHex_clamps_witness :
  isValidHex (rgbToHex 300 (-5) 127.5) = true
  /\ hexToRgb (rgbToHex 300 (-5) 127.5)
     = Some (mkRGB (clamp255 (Math_round 300)) (clamp255 (Math_round (-5)))
                   (clamp255 (Math_round 127.5)))
  /\ valid_color (mkRGB (clamp255 (Math_round 300)) (clamp255 (Math_round (-5)))
                        (clamp255 (Math_round 127.5))).
Proof. apply (rgbToHex_clamps 300 (-5) 127.5); reflexivity. Defined.

(** [toHex] of NaN is the text of NaN. *)
Lemma toHex_nan x : is_nan x = true -> toHex x = "NaN"%string.
Proof.
  intros H.
  assert (E : Math_max 0 (Math_min 255 (Math_round x)) = x).
  { unfold Math_round. rewrite H.
    unfold Math_min. change (is_nan 255) with false. cbv iota. rewrite H.
    unfold Math_max. change (is_nan 0) with false. cbv iota. rewrite H.
    reflexivity. }
  unfold toHex. rewrite E. unfold Number_toString16. rewrite H. reflexivity.
Qed.

(** What [toHex] can write: two hexadecimal digits, or the text of NaN. *)
Lemma toHex_shape x :
  (is_nan x = true /\ toHex x = "NaN"%string)
  \/ (is_nan x = false
      /\ exists c1 c2, toHex x = String c1 (String c2 EmptyString)
                       /\ hexClass (upper_ascii c1) = true
                       /\ hexClass (upper_ascii c2) = true).
Proof.
  destruct (is_nan x) eqn:N.
  - left. split; [reflexivity|apply toHex_nan, N].
  - right. split; [reflexivity|].
    destruct (toHex_clamped x N) as (k & Hk & _ & ->).
    destruct (toHex_channel k Hk) as (c1 & c2 & E & H1 & H2 & _).
    exists c1, c2. auto.
Qed.

Lemma rgbToHex_nan_text cr cg cb :
  is_nan cr = true -> is_nan cg = true -> is_nan cb = true ->
  rgbToHex cr cg cb = "#NANNANNAN"%string
  /\ isValidHex (rgbToHex cr cg cb) = false
  /\ hexToRgb (rgbToHex cr cg cb) = None.
Proof.
  intros Nr Ng Nb. unfold rgbToHex.
  rewrite (toHex_nan cr Nr), (toHex_nan cg Ng), (toHex_nan cb Nb).
  repeat split; reflexivity.
Qed.

(** X2.  [rgbToHex] is not guarded against NaN: it writes a hex colour
    [isValidHex] accepts exactly when no channel is NaN; with a NaN
    channel the text holds the letters NAN and [hexToRgb] returns
    [null] on it. *)
Theorem rgbToHex_nan (cr cg cb : number) :
  isValidHex (rgbToHex cr cg cb) = negb (is_nan cr || is_nan cg || is_nan cb)
  /\ ((is_nan cr || is_nan cg || is_nan cb) = true ->
      hexToRgb (rgbToHex cr cg cb) = None)
  /\ (is_nan cr = true -> is_nan cg = true -> is_nan cb = true ->
      rgbToHex cr cg cb = "#NANNANNAN"%string).
Proof.
  assert (V : isValidHex (rgbToHex cr cg cb)
              = negb (is_nan cr || is_nan cg || is_nan cb)).
  { unfold rgbToHex.
    destruct (toHex_shape cr) as [[Nr ->]|[Nr (r1 & r2 & -> & Hr1 & Hr2)]];
      destruct (toHex_shape cg) as [[Ng ->]|[Ng (g1 & g2 & -> & Hg1 & Hg2)]];
      destruct (toHex_shape cb) as [[Nb ->]|[Nb (b1 & b2 & -> & Hb1 & Hb2)]];
      rewrite Nr, Ng, Nb; cbn [append toUpperCase orb negb];
      unfold isValidHex, opt_hash; change (upper_ascii "#") with "#"%char;
      rewrite Ascii.eqb_refl; cbn [take_class];
      change (hexClass "#") with false;
      change (upper_ascii "N") with "N"%char;
      change (hexClass "N") with false;
      rewrite ?Hr1, ?Hr2, ?Hg1, ?Hg2, ?Hb1, ?Hb2; cbn [take_class];
      rewrite ?Hr1, ?Hr2, ?Hg1, ?Hg2, ?Hb1, ?Hb2; try reflexivity. }
  split; [exact V|]. split.
  - intros N. rewrite N in V. cbn [negb] in V.
    destruct (hexToRgb (rgbToHex cr cg cb)) eqn:E; [|reflexivity].
    unfold hexToRgb in E.
    destruct (exec_hex (rgbToHex cr cg cb)) as [[[g1 g2] g3]|] eqn:X; [|discriminate].
    apply exec_hex_grammar, isValidHex_grammar in X. congruence.
  - intros Nr Ng Nb. unfold rgbToHex.
    rewrite (toHex_nan cr Nr), (toHex_nan cg Ng), (toHex_nan cb Nb). reflexivity.
Qed.

(** * What [hexToRgb] returns *)

Lemma digit_value_checked :
  forallb (fun c => (0 <=? digit_value c)%Z && (digit_value c <=? 15)%Z) hex_alphabet
  = true.
Proof. vm_compute. reflexivity. Qed.

Lemma byte_value_channel c1 c2 :
  hexClass c1 = true -> hexClass c2 = true ->
  exists k, In k channels /\ byte_value c1 c2 = of_Z k.
Proof.
  intros H1 H2. apply hexClass_alphabet in H1, H2.
  pose proof digit_value_checked as E. rewrite forallb_forall in E.
  pose proof (E c1 H1) as B1. pose proof (E c2 H2) as B2.
  rewrite andb_true_iff, !Z.leb_le in B1, B2.
  exists (16 * digit_value c1 + digit_value c2)%Z.
  split; [apply In_channels; lia|reflexivity].
Qed.

Lemma hexToRgb_grammar hex c : hexToRgb hex = Some c -> hex_grammar hex.
Proof.
  unfold hexToRgb. destruct (exec_hex hex) as [[[g1 g2] g3]|] eqn:E; [|discriminate].
  intros _. eapply exec_hex_grammar, E.
Qed.

Lemma hexToRgb_valid hex c : hexToRgb hex = Some c -> valid_color c.
Proof.
  intros H. pose proof (hexToRgb_grammar hex c H) as G.
  apply grammar_digits in G.
  destruct G as (c1 & c2 & c3 & c4 & c5 & c6 & sharp & Hs & H1 & H2 & H3 & H4 & H5 & H6).
  cbv zeta in Hs. subst hex.
  rewrite (hexToRgb_digits c1 c2 c3 c4 c5 c6 sharp) in H by assumption.
  injection H as <-.
  destruct (byte_value_channel c1 c2 H1 H2) as (kr & Hkr & ->).
  destruct (byte_value_channel c3 c4 H3 H4) as (kg & Hkg & ->).
  destruct (byte_value_channel c5 c6 H5 H6) as (kb & Hkb & ->).
  exists kr, kg, kb. auto.
Qed.

Lemma valid_color_hex c :
  valid_color c ->
  hexToRgb (rgbToHex (r c) (g c) (b c)) = Some c
  /\ isValidHex (rgbToHex (r c) (g c) (b c)) = true.
Proof.
  intros (kr & kg & kb & Hr & Hg & Hb & ->). cbn [r g b].
  apply rgbToHex_channels; assumption.
Qed.

Lemma isValidHex_hexToRgb hex : isValidHex hex = true <-> hexToRgb hex <> None.
Proof.
  split.
  - rewrite isValidHex_grammar, grammar_digits.
    intros (c1 & c2 & c3 & c4 & c5 & c6 & sharp & Hs & H1 & H2 & H3 & H4 & H5 & H6).
    cbv zeta in Hs. subst hex.
    rewrite (hexToRgb_digits c1 c2 c3 c4 c5 c6 sharp) by assumption. discriminate.
  - destruct (hexToRgb hex) as [c|] eqn:E; [|congruence].
    intros _. eapply isValidHex_grammar, hexToRgb_grammar, E.
Qed.

(** X3.  A colour [hexToRgb] returns has integer channels of 0..255,
    never NaN, and writing it with [rgbToHex] and reading that text gives
    the same colour again. *)
Theorem hexToRgb_channels (hex : string) (c : RGB) (H : hexToRgb hex = Some c) :
  valid_color c
  /\ in_0_255 (r c) = true /\ in_0_255 (g c) = true /\ in_0_255 (b c) = true
  /\ hexToRgb (rgbToHex (r c) (g c) (b c)) = Some c.
Proof.
  pose proof (hexToRgb_valid hex c H) as V.
  split; [exact V|].
  destruct (valid_color_hex c V) as [R _].
  destruct V as (kr & kg & kb & Hr & Hg & Hb & ->). cbn [r g b] in *.
  repeat split; try (apply channel_in_0_255; assumption). exact R.
Qed.

Lemma hexToRgb_channels_witness :
  valid_color (mkRGB 255 102 0)
  /\ in_0_255 255 = true /\ in_0_255 102 = true /\ in_0_255 0 = true
  /\ hexToRgb (rgbToHex 255 102 0) = Some (mkRGB 255 102 0).
Proof. apply (hexToRgb_channels "#ff6600" (mkRGB 255 102 0)). reflexivity. Defined.

(** * The handlers *)

Lemma opt_hash_hash {A} (body : string -> option A) value :
  startsWithHash value = false -> body (String "#" value) = None ->
  opt_hash body (String "#" value) = opt_hash body value.
Proof.
  intros H N. unfold opt_hash at 1. rewrite Ascii.eqb_refl, N.
  unfold opt_hash. destruct value as [|c t].
  - destruct (body EmptyString); reflexivity.
  - cbn [startsWithHash] in H. rewrite H. destruct (body (String c t)); reflexivity.
Qed.

Lemma hexToRgb_hash value :
  startsWithHash value = false ->
  hexToRgb (String "#" value) = hexToRgb value
  /\ isValidHex (String "#" value) = isValidHex value.
Proof.
  intros H. unfold hexToRgb, isValidHex, exec_hex.
  rewrite !(opt_hash_hash _ value H) by reflexivity. split; reflexivity.
Qed.

Lemma onHexInput_picker value st : onHexInput value st = onColorPicker value st.
Proof.
  unfold onHexInput, onColorPicker.
  destruct (startsWithHash value) eqn:S; cbn [negb]; cbv zeta.
  - destruct (isValidHex value) eqn:V; [reflexivity|].
    destruct (hexToRgb value) eqn:E; [|reflexivity].
    assert (isValidHex value = true) by (apply isValidHex_hexToRgb; congruence).
    congruence.
  - destruct (hexToRgb_hash value S) as [-> ->].
    destruct (isValidHex value) eqn:V; [reflexivity|].
    destruct (hexToRgb value) eqn:E; [|reflexivity].
    assert (isValidHex value = true) by (apply isValidHex_hexToRgb; congruence).
    congruence.
Qed.

(** X4.  Typing into the hex box does what picking the same text does:
    putting a [#] in front of a text that lacks one changes nothing.  The
    text is taken exactly when [isValidHex] accepts it as typed (so a
    text with two [#] is not), the colour then becomes what [hexToRgb]
    reads from it; any other text (every text of fewer than 6 or more
    than 7 characters among them) leaves the state alone and the page is
    not updated.  A preset button does the same with its colour. *)
Theorem hex_box_as_picker (value : string) (st : State) :
  onHexInput value st = onColorPicker value st
  /\ onPreset value st = onColorPicker value st
  /\ updated (onHexInput value st) = isValidHex value
  /\ (isValidHex value = false -> state (onHexInput value st) = st)
  /\ (forall c, hexToRgb value = Some c ->
        state (onHexInput value st) = set_color st c /\ isValidHex value = true)
  /\ (isValidHex value = true ->
      String.length value = 6%nat \/ String.length value = 7%nat).
Proof.
  assert (L : isValidHex value = true ->
              String.length value = 6%nat \/ String.length value = 7%nat).
  { rewrite isValidHex_grammar. intros (body & [-> | ->] & Hlen & _).
    - left. exact Hlen.
    - right. cbn [String.length]. rewrite Hlen. reflexivity. }
  rewrite onHexInput_picker. unfold onColorPicker, onPreset.
  split; [reflexivity|]. split; [reflexivity|].
  destruct (hexToRgb value) as [c|] eqn:E; cbn [updated state].
  - assert (V : isValidHex value = true) by (apply isValidHex_hexToRgb; congruence).
    split; [congruence|]. split; [congruence|]. split; [|exact L].
    intros c' [= <-]. auto.
  - assert (V : isValidHex value = false).
    { destruct (isValidHex value) eqn:V; [|reflexivity].
      apply isValidHex_hexToRgb in V. congruence. }
    split; [congruence|]. split; [reflexivity|]. split; [discriminate|exact L].
Qed.

Lemma hexToRgb_normalized hex :
  hex_grammar hex ->
  exists rgb,
    hexToRgb hex = Some rgb /\ rgbToHex (r rgb) (g rgb) (b rgb) = normalize_hex hex.
Proof.
  intros Hg. apply grammar_digits in Hg.
  destruct Hg as (c1 & c2 & c3 & c4 & c5 & c6 & sharp & Hs & H1 & H2 & H3 & H4 & H5 & H6).
  cbv zeta in Hs. subst hex.
  eexists. split; [apply hexToRgb_digits; assumption|].
  cbn [r g b]. unfold rgbToHex.
  rewrite !toUpperCase_app, !toHex_byte by assumption.
  destruct sharp.
  - reflexivity.
  - unfold normalize_hex. destruct (Ascii.eqb c1 "#") eqn:E.
    + apply Ascii.eqb_eq in E. subst c1. discriminate.
    + reflexivity.
Qed.

(** X5.  Once a text [isValidHex] accepts is typed into the hex box, the
    box is normalized: leaving the box writes the text back in upper case
    with a leading [#], and so does [updateUI] for the target colour
    when the device is a registered one. *)
Theorem hex_box_normalized (value : string) (st : State)
  (V : isValidHex value = true) :
  let st' := state (onHexInput value st) in
  onHexBlur st' = normalize_hex value
  /\ hexToRgb (onHexBlur st') = Some (currentColor st')
  /\ (forall profile,
        lookup (currentDevice st) DEVICE_PROFILES = Some profile ->
        exists v, updateUI st' = Some v /\ targetHex v = normalize_hex value).
Proof.
  intros st'. unfold st'. rewrite onHexInput_picker. unfold onColorPicker.
  apply isValidHex_grammar in V.
  destruct (hexToRgb_normalized value V) as (rgb & E & N).
  rewrite E. cbn [state]. unfold onHexBlur. cbn [set_color currentColor].
  split; [exact N|]. split.
  - apply valid_color_hex, (hexToRgb_valid value), E.
  - intros profile Hp. unfold updateUI, correctColor.
    cbn [set_color currentColor currentDevice]. rewrite Hp.
    eexists. split; [reflexivity|]. cbn [targetHex]. exact N.
Qed.

Lemma hex_box_normalized_witness :
  let st' := state (onHexInput "ff6600" initial_state) in
  onHexBlur st' = normalize_hex "ff6600"
  /\ hexToRgb (onHexBlur st') = Some (currentColor st')
  /\ (forall profile,
        lookup (currentDevice initial_state) DEVICE_PROFILES = Some profile ->
        exists v, updateUI st' = Some v /\ targetHex v = normalize_hex "ff6600").
Proof. apply (hex_box_normalized "ff6600" initial_state). reflexivity. Defined.

(** * The channel boxes *)

Lemma or_zero_not_nan x : is_nan (or_zero x) = false.
Proof.
  unfold or_zero. destruct (is_nan x) eqn:N; [reflexivity|].
  cbn [orb]. destruct (x =? 0); [reflexivity|exact N].
Qed.

Lemma clamp255_in_0_255 x : is_nan x = false -> in_0_255 (clamp255 x) = true.
Proof.
  intros Hx. unfold clamp255, in_0_255.
  assert (N255 : is_nan 255 = false) by reflexivity.
  assert (N0 : is_nan 0 = false) by reflexivity.
  assert (Nm : is_nan (Math_min 255 x) = false)
    by (destruct (Math_min_choice 255 x) as [-> | ->]; assumption).
  destruct (Math_min_le 255 x N255 Hx) as [Lm _].
  destruct (Math_max_ge 0 (Math_min 255 x) N0 Nm) as [L0 _].
  rewrite L0. cbn [andb].
  destruct (Math_max_choice 0 (Math_min 255 x)) as [-> | ->];
    [reflexivity|exact Lm].
Qed.

Lemma or_zero_integral x :
  integral x -> exists k, In k channels /\ clamp255 (or_zero x) = of_Z k.
Proof.
  intros I. unfold or_zero.
  destruct (is_nan x) eqn:N; cbn [orb].
  - exists 0%Z. split; [apply In_channels; lia|reflexivity].
  - destruct (x =? 0).
    + exists 0%Z. split; [apply In_channels; lia|reflexivity].
    + unfold integral in I. rewrite <- I. apply Clamp.clamp255_round, N.
Qed.

(** X6.  A channel box never lets a bad number into the colour: whatever
    [parseInt] returned, the channel written is a number of [0, 255], 0
    for NaN; it is one of the integers 0..255 when the number parsed is
    integral, and the number itself when that is one of 0..255.  The
    other two channels, the device, the brand and the brightness stay. *)
Theorem channel_box_clamps (id : Channel) (parsed : number) (st : State) :
  let st' := state (onChannelInput id parsed st) in
  let v := channel_of id (currentColor st') in
  in_0_255 v = true
  /\ (is_nan parsed = true -> v = 0)
  /\ ((255 <? parsed) = true -> v = 255)
  /\ ((parsed <? 0) = true -> v = 0)
  /\ (integral parsed -> exists k, In k channels /\ v = of_Z k)
  /\ (forall k, In k channels -> parsed = of_Z k -> v = parsed)
  /\ (forall id', id' <> id ->
        channel_of id' (currentColor st') = channel_of id' (currentColor st))
  /\ currentDevice st' = currentDevice st
  /\ currentBrand st' = currentBrand st
  /\ currentBrightness st' = currentBrightness st
  /\ updated (onChannelInput id parsed st) = true.
Proof.
  intros st' v.
  assert (E : v = clamp255 (or_zero parsed)) by (destruct id; reflexivity).
  split; [rewrite E; apply clamp255_in_0_255, or_zero_not_nan|].
  split; [intros N; rewrite E; unfold or_zero; rewrite N; reflexivity|].
  split.
  { intros H. rewrite E. unfold or_zero.
    rewrite (Clamp.ltb_not_nan_r _ _ H). cbn [orb].
    destruct (parsed =? 0) eqn:Z0.
    - destruct (Clamp.zero_cases parsed Z0) as [-> | ->]; discriminate.
    - apply Clamp.clamp255_high, H. }
  split.
  { intros H. rewrite E. unfold or_zero.
    rewrite (Clamp.ltb_not_nan_l _ _ H). cbn [orb].
    destruct (parsed =? 0); [reflexivity|apply Clamp.clamp255_low, H]. }
  split; [intros I; rewrite E; apply or_zero_integral, I|].
  split.
  { intros k Hk ->. rewrite E. unfold or_zero.
    rewrite (NumberFacts.finite_not_nan _ (channel_finite k Hk)). cbn [orb].
    destruct (of_Z k =? 0) eqn:Z0.
    - destruct (Clamp.zero_cases _ Z0) as [-> | Z1]; [reflexivity|].
      pose proof (clamp255_channel k Hk) as C. rewrite Z1 in C.
      apply num_eqb_eq in C. discriminate C.
    - apply clamp255_channel, Hk. }
  split; [intros id' Hne; destruct id, id'; try congruence; reflexivity|].
  destruct id; repeat split; reflexivity.
Qed.

(** * The colour the handlers keep *)

Lemma handle_valid e st :
  parsed_integral e -> valid_color (currentColor st) ->
  valid_color (currentColor (state (handle e st))).
Proof.
  intros P V. destruct e as [value|value|id parsed|brand [device|]|[|] device brand|parsed|color];
    cbn [handle]; try rewrite onHexInput_picker;
    unfold onColorPicker, onPreset, onBrandTab, onDeviceClick, onBrightness;
    try exact V.
  - destruct (hexToRgb value) eqn:E; [|exact V].
    cbn [state set_color currentColor]. eapply hexToRgb_valid, E.
  - destruct (hexToRgb value) eqn:E; [|exact V].
    cbn [state set_color currentColor]. eapply hexToRgb_valid, E.
  - cbn [parsed_integral] in P.
    destruct (or_zero_integral parsed P) as (k & Hk & E).
    destruct V as (kr & kg & kb & Hr & Hg & Hb & Ec).
    unfold onChannelInput. cbv zeta. fold (clamp255 (or_zero parsed)).
    rewrite E, Ec. cbn [state set_color currentColor r g b].
    destruct id; [exists k, kg, kb|exists kr, k, kb|exists kr, kg, k]; auto.
  - destruct (hexToRgb color) eqn:E; [|exact V].
    cbn [state set_color currentColor]. eapply hexToRgb_valid, E.
Qed.

Lemma run_valid events st :
  Forall parsed_integral events -> valid_color (currentColor st) ->
  valid_color (currentColor (run events st)).
Proof.
  revert st. induction events as [|e rest IH]; intros st F V; cbn [run].
  - exact V.
  - apply Forall_cons_iff in F. destruct F as [Pe F].
    apply IH; [exact F|]. apply handle_valid; assumption.
Qed.

Lemma initial_valid : valid_color (currentColor initial_state).
Proof.
  exists 255%Z, 102%Z, 0%Z. repeat split; try (apply In_channels; lia).
Qed.

(** X7.  Whatever the user does, the current colour stays a colour:
    after any sequence of events from the initial state its channels are
    integers of 0..255 (the numbers [parseInt] hands to the channel
    boxes being integral or NaN), the hex box on leaving shows a text
    that reads back as this colour, and under a registered device
    [updateUI] succeeds with a corrected colour of integer channels
    0..255. *)
Theorem color_stays_valid (events : list Event)
  (H : Forall parsed_integral events) :
  let st := run events initial_state in
  valid_color (currentColor st)
  /\ isValidHex (onHexBlur st) = true
  /\ hexToRgb (onHexBlur st) = Some (currentColor st)
  /\ (forall profile,
        lookup (currentDevice st) DEVICE_PROFILES = Some profile ->
        exists v out,
          updateUI st = Some v
          /\ correctColor (currentColor st) (currentDevice st) = Some out
          /\ valid_color out
          /\ hexToRgb (targetHex v) = Some (currentColor st)).
Proof.
  intros st.
  assert (V : valid_color (currentColor st))
    by (apply run_valid; [exact H|exact initial_valid]).
  destruct (valid_color_hex _ V) as [R W].
  split; [exact V|]. split; [exact W|]. split; [exact R|].
  intros profile Hp. unfold updateUI, correctColor. rewrite Hp.
  destruct V as (kr & kg & kb & Hr & Hg & Hb & Ec).
  destruct (correctWith_channels profile kr kg kb (lookup_In _ _ _ Hp) Hr Hg Hb)
    as (k1 & k2 & k3 & H1 & H2 & H3 & E).
  eexists _, _. split; [reflexivity|]. split; [reflexivity|].
  split; [|exact R].
  rewrite Ec, E. exists k1, k2, k3. auto.
Qed.

Lemma color_stays_valid_witness :
  let st :=
    run [HexTyped "00ff7f"; ChannelTyped rInput 300; BrightnessMoved 50;
         ColorPicked "red"; DeviceClicked false "strimer" "lianli"]
      initial_state in
  valid_color (currentColor st)
  /\ isValidHex (onHexBlur st) = true
  /\ hexToRgb (onHexBlur st) = Some (currentColor st)
  /\ (forall profile,
        lookup (currentDevice st) DEVICE_PROFILES = Some profile ->
        exists v out,
          updateUI st = Some v
          /\ correctColor (currentColor st) (currentDevice st) = Some out
          /\ valid_color out
          /\ hexToRgb (targetHex v) = Some (currentColor st)).
Proof.
  apply (color_stays_valid
           [HexTyped "00ff7f"; ChannelTyped rInput 300; BrightnessMoved 50;
            ColorPicked "red"; DeviceClicked false "strimer" "lianli"]).
  apply Forall_cons; [exact I|].
  apply Forall_cons; [reflexivity|].
  apply Forall_cons; [exact I|].
  apply Forall_cons; [exact I|].
  apply Forall_cons; [exact I|].
  apply Forall_nil.
Defined.

(** * A brightness that is not a number *)

Lemma mul_nan_r x y : is_nan y = true -> is_nan (x * y) = true.
Proof.
  rewrite !NumberOrder.is_nan_spec, FloatAxioms.mul_spec. intros ->.
  destruct (Prim2SF x); reflexivity.
Qed.

Lemma div_nan_l x y : is_nan x = true -> is_nan (x / y) = true.
Proof.
  rewrite !NumberOrder.is_nan_spec, FloatAxioms.div_spec. intros ->.
  destruct (Prim2SF y); reflexivity.
Qed.

Lemma Math_round_nan x : is_nan x = true -> is_nan (Math_round x) = true.
Proof. intros H. unfold Math_round. rewrite H. exact H. Qed.

(** X8.  The slider's handler stores what [parseInt] returned unguarded.
    When that is NaN, [updateUI] (under a registered device, whatever
    the colour) turns every corrected channel into NaN and shows the
    text [#NANNANNAN], which is no hex colour; the target colour's text
    is not affected. *)
Theorem brightness_nan (parsed : number) (st : State) (profile : Profile.t)
  (N : is_nan parsed = true)
  (Hdevice : lookup (currentDevice st) DEVICE_PROFILES = Some profile) :
  let st' := state (onBrightness parsed st) in
  exists v,
    updateUI st' = Some v
    /\ is_nan (r (adjustedCorrected v)) = true
    /\ is_nan (g (adjustedCorrected v)) = true
    /\ is_nan (b (adjustedCorrected v)) = true
    /\ correctedHex v = "#NANNANNAN"%string
    /\ isValidHex (correctedHex v) = false
    /\ hexToRgb (correctedHex v) = None
    /\ targetHex v = onHexBlur st.
Proof.
  intros st'. unfold st', onBrightness, set_brightness. cbn [state].
  unfold updateUI, correctColor. cbn [currentColor currentDevice currentBrightness].
  rewrite Hdevice.
  eexists. split; [reflexivity|]. cbn [adjustedCorrected correctedHex targetHex r g b].
  assert (F : is_nan (parsed / 100) = true) by (apply div_nan_l, N).
  set (c := correctWith profile (currentColor st)).
  pose proof (Math_round_nan _ (mul_nan_r (r c) _ F)) as Nr.
  pose proof (Math_round_nan _ (mul_nan_r (g c) _ F)) as Ng.
  pose proof (Math_round_nan _ (mul_nan_r (b c) _ F)) as Nb.
  split; [exact Nr|]. split; [exact Ng|]. split; [exact Nb|].
  destruct (rgbToHex_nan_text _ _ _ Nr Ng Nb) as (T & W & X).
  rewrite T. split; [reflexivity|]. split; [reflexivity|]. split; reflexivity.
Qed.

Lemma brightness_nan_witness :
  let st' := state (onBrightness nan initial_state) in
  exists v,
    updateUI st' = Some v
    /\ is_nan (r (adjustedCorrected v)) = true
    /\ is_nan (g (adjustedCorrected v)) = true
    /\ is_nan (b (adjustedCorrected v)) = true
    /\ correctedHex v = "#NANNANNAN"%string
    /\ isValidHex (correctedHex v) = false
    /\ hexToRgb (correctedHex v) = None
    /\ targetHex v = onHexBlur initial_state.
Proof.
  apply (brightness_nan nan initial_state (profile_named "tl-fans")); reflexivity.
Defined.

(** * The tip *)

(** X10.  The fallback of the tip is never taken: for every hue, any
    number at all, [getColorCategory] returns one of the eight names
    [COLOR_TIPS] has a text for, so the tip shown is that text and not
    the default one. *)
Theorem tip_never_default (hue : number) :
  In (getColorCategory hue)
     [ "red"; "orange"; "yellow"; "green"; "teal"; "blue"; "purple"; "pink" ]%string
  /\ (exists text,
        tip_of (getColorCategory hue) COLOR_TIPS = Some text
        /\ choose_tip (getColorCategory hue) = Some text
        /\ Some text <> tip_of "default" COLOR_TIPS)
  /\ (forall st, tipText st <> None /\ tipText st <> tip_of "default" COLOR_TIPS).
Proof.
  assert (G : forall x,
             In (getColorCategory x)
                [ "red"; "orange"; "yellow"; "green"; "teal"; "blue"; "purple";
                  "pink" ]%string).
  { intros x. unfold getColorCategory.
    repeat match goal with
      | |- context [if ?c then _ else _] => destruct c
      end; cbn [In]; auto 10. }
  assert (T : forall c,
             In c [ "red"; "orange"; "yellow"; "green"; "teal"; "blue"; "purple";
                    "pink" ]%string ->
             exists text,
               tip_of c COLOR_TIPS = Some text /\ choose_tip c = Some text
               /\ Some text <> tip_of "default" COLOR_TIPS).
  { intros c Hc. cbn [In] in Hc.
    repeat (destruct Hc as [<-|Hc];
            [eexists; split; [reflexivity|split; [reflexivity|discriminate]]|]).
    contradiction. }
  split; [apply G|]. split; [apply T, G|].
  intros st. unfold tipText. cbv zeta.
  destruct (T _ (G (h (rgbToHsl (r (currentColor st)) (g (currentColor st))
                                (b (currentColor st))))))
    as (text & _ & -> & D).
  split; [discriminate|exact D].
Qed.

(** * Grays *)

(** X11.  A gray has no hue and no saturation: for every number [v] but
    NaN, [rgbToHsl(v, v, v)] has [h = 0] and [s = 0], and its lightness
    is [v / 255] as a rounded percentage; the classifier therefore
    calls every gray red. *)
Theorem rgbToHsl_gray (v : number) (N : is_nan v = false) :
  rgbToHsl v v v
  = mkHSL 0 0 (Math_round ((v / 255 + v / 255) / 2 * 100))
  /\ getColorCategory (h (rgbToHsl v v v)) = "red"%string.
Proof.
  assert (E0 : rgbToHsl v v v
               = mkHSL 0 0 (Math_round ((v / 255 + v / 255) / 2 * 100)));
    [|rewrite E0; split; reflexivity].
  rewrite rgbToHsl_parts. cbv zeta.
  unfold Math_max3, Math_min3. rewrite !Math_max_same, !Math_min_same.
  assert (Nx : is_nan (v / 255) = false)
    by (apply NumberFacts.div_not_nan; [exact N|reflexivity|reflexivity]).
  assert (E : strict_eq (v / 255) (v / 255) = true).
  { unfold strict_eq. unfold is_nan in Nx. apply negb_false_iff in Nx. exact Nx. }
  unfold hue_of, sat_of, light_of. rewrite E. reflexivity.
Qed.

Lemma rgbToHsl_gray_witness :
  rgbToHsl 128 128 128
  = mkHSL 0 0 (Math_round ((128 / 255 + 128 / 255) / 2 * 100))
  /\ getColorCategory (h (rgbToHsl 128 128 128)) = "red"%string.
Proof. apply (rgbToHsl_gray 128). reflexivity. Defined.

Lemma int_upto_spec bound y :
  int_upto bound y = true -> exists k, (0 <= k <= bound)%Z /\ y = of_Z k.
Proof.
  unfold int_upto. cbv zeta.
  rewrite !andb_true_iff, !Z.leb_le, num_eqb_eq. intros [[H0 H1] E].
  exists (to_integer y). split; [lia|congruence].
Qed.

Lemma gray_correct_checked :
  forallb (fun p => forallb (gray_correct_check p) channels) profiles = true.
Proof. vm_compute. reflexivity. Qed.

(** X12.  The correction tints a gray: under every registered device the
    gray [(v, v, v)] of an integer [v] of 0..255 keeps its red and blue,
    and its green is scaled by the profile's [greenReduction] to an
    integer that is at most [v].  Black stays black. *)
Theorem gray_is_tinted (v : Z) (key : string) (profile : Profile.t)
  (Hv : In v channels) (Hkey : lookup key DEVICE_PROFILES = Some profile) :
  let green := Math_round (of_Z v * (1 - (1 - Profile.greenReduction profile))) in
  correctColor (gray v) key = Some (mkRGB (of_Z v) green (of_Z v))
  /\ (exists k, (0 <= k <= v)%Z /\ green = of_Z k)
  /\ correctColor (gray 0) key = Some (gray 0).
Proof.
  intros green.
  pose proof gray_correct_checked as E. rewrite forallb_forall in E.
  specialize (E profile (lookup_In _ _ _ Hkey)). rewrite forallb_forall in E.
  pose proof (E v Hv) as Ev.
  pose proof (E 0%Z ltac:(apply In_channels; lia)) as E0.
  unfold gray_correct_check in Ev, E0.
  rewrite !andb_true_iff, rgb_eqb_eq in Ev, E0.
  destruct Ev as [Ev Iv]. destruct E0 as [E0 I0].
  apply int_upto_spec in Iv, I0.
  unfold correctColor. rewrite Hkey, Ev.
  split; [reflexivity|]. split; [exact Iv|].
  rewrite E0. destruct I0 as (k & Hk & ->).
  replace k with 0%Z by lia. reflexivity.
Qed.

Lemma gray_is_tinted_witness :
  let green :=
    Math_round (of_Z 128 * (1 - (1 - Profile.greenReduction (profile_named "tl-fans")))) in
  correctColor (gray 128) "tl-fans" = Some (mkRGB (of_Z 128) green (of_Z 128))
  /\ (exists k, (0 <= k <= 128)%Z /\ green = of_Z k)
  /\ correctColor (gray 0) "tl-fans" = Some (gray 0).
Proof.
  apply (gray_is_tinted 128 "tl-fans" (profile_named "tl-fans")).
  - apply In_channels. lia.
  - reflexivity.
Defined.

(** * Rounding below a bound *)

Module RoundBound.

Section Bound.

(** The bound: an integer [B] with mantissa [mB] and exponent [- sB]. *)
Variables (bound : number) (B : Z) (mB : positive) (sB : Z).
Hypothesis bound_SF : Prim2SF bound = S754_finite false mB (- sB).
Hypothesis shift_range : (1 <= sB <= 52)%Z.
Hypothesis mantissa_value : Z.pos mB = (B * 2 ^ sB)%Z.
Hypothesis mantissa_normal : (2 ^ 52 <= Z.pos mB < 2 ^ 53)%Z.
Hypothesis half_bit :
  Uint63.bit (Uint63.of_Z (Z.pos mB)) (Uint63.sub (Uint63.of_Z sB) 1) = false.

Lemma below_finite u :
  (0 <? u) = true -> (u <=? bound) = true ->
  exists m ey, Prim2SF u = S754_finite false m ey
    /\ ((ey < - sB)%Z \/ (ey = (- sB)%Z /\ (Z.pos m <= Z.pos mB)%Z)).
Proof.
  rewrite FloatAxioms.ltb_spec, FloatAxioms.leb_spec, bound_SF.
  change (Prim2SF 0) with (S754_zero false).
  destruct (Prim2SF u) as [sx|sx| |sx mx ex]; try discriminate.
  - destruct sx; discriminate.
  - destruct sx; try discriminate. intros _ H.
    exists mx, ex. split; [reflexivity|]. apply Degree.SFleb_finite_pos, H.
Qed.

(** [Math.round] of [+0] or of a positive number of at most [B] is one
    of the integers 0..[B]. *)
Lemma Math_round_below u :
  (u <=? bound) = true -> ((0 <? u) || num_eqb u 0) = true ->
  exists k, (0 <= k <= B)%Z /\ Math_round u = of_Z k.
Proof.
  assert (P : (0 < 2 ^ sB)%Z) by (apply Z.pow_pos_nonneg; lia).
  assert (B0 : (0 <= B)%Z) by nia.
  rewrite orb_true_iff. intros Hle [Hpos|Hz].
  2:{ apply num_eqb_eq in Hz. subst u. exists 0%Z. split; [lia|reflexivity]. }
  destruct (below_finite u Hpos Hle) as (m & ey & E & Hey).
  assert (N : is_nan u = false) by (apply (Clamp.ltb_not_nan_r _ _ Hpos)).
  assert (A : (two52 <=? abs u) = false).
  { rewrite FloatAxioms.leb_spec, FloatAxioms.abs_spec, E. cbn [SFabs].
    change (Prim2SF two52) with (S754_finite false 4503599627370496 0).
    destruct (SFleb _ _) eqn:L; [|reflexivity].
    apply Degree.SFleb_finite_pos in L. lia. }
  assert (Z0 : (u =? 0) = false).
  { rewrite FloatAxioms.eqb_spec, E. reflexivity. }
  assert (L0 : (u <? 0) = false).
  { rewrite FloatAxioms.ltb_spec, E. reflexivity. }
  unfold Math_round. rewrite N, A, Z0.
  destruct (frshiftexp u) as [fr e] eqn:F. rewrite L0.
  destruct (Degree.frexp_finite u m ey fr e E F) as (dd & Hdd & Hlo & He & HM & Hcase).
  set (M := normfr_mantissa fr) in *.
  set (sh := Uint63.sub 2154 e).
  assert (Hsh : Uint63.to_Z sh = (dd - ey)%Z).
  { unfold sh. rewrite Uint63.sub_spec, He. change (Uint63.to_Z 2154) with 2154%Z.
    change wB with (2 ^ 63)%Z.
    replace (2154 - (ey + 2154 - dd))%Z with (dd - ey)%Z by lia.
    apply Z.mod_small. lia. }
  set (q := Uint63.lsr M sh).
  assert (Hq : Uint63.to_Z q = (Uint63.to_Z M / 2 ^ (dd - ey))%Z).
  { unfold q. rewrite Uint63.lsr_spec, Hsh. reflexivity. }
  pose proof (Uint63.to_Z_bounded M) as [BM _].
  pose proof (Uint63.to_Z_bounded q) as [Bq _].
  assert (Hlow : (2 ^ (52 - sB) <= B)%Z).
  { apply Z.mul_le_mono_pos_r with (p := (2 ^ sB)%Z); [exact P|].
    rewrite <- Z.pow_add_r by lia. replace (52 - sB + sB)%Z with 52%Z by lia. lia. }
  assert (Q : (Uint63.to_Z q <= B)%Z
              /\ (Uint63.to_Z q = B -> Uint63.bit M (Uint63.sub sh 1) = false)).
  { destruct Hcase as [C|[C1 C2]].
    - assert (Uint63.to_Z q = 0)%Z.
      { rewrite Hq. apply Z.div_small. split; [assumption|].
        apply Z.lt_le_trans with (2 ^ 53)%Z; [assumption|].
        apply Z.pow_le_mono_r; lia. }
      assert (0 < 2 ^ (52 - sB))%Z by (apply Z.pow_pos_nonneg; lia).
      lia.
    - subst dd. rewrite Z.sub_0_l in Hq, Hsh.
      destruct Hey as [Hey|[Hey Hm]].
      + assert (Uint63.to_Z q < 2 ^ (52 - sB))%Z.
        { rewrite Hq. apply Z.div_lt_upper_bound; [apply Z.pow_pos_nonneg; lia|].
          apply Z.lt_le_trans with (2 ^ 53)%Z; [assumption|].
          rewrite <- Z.pow_add_r by lia.
          apply Z.pow_le_mono_r; lia. }
        lia.
      + subst ey. rewrite Z.opp_involutive in *.
        assert (Uint63.to_Z q <= B)%Z.
        { rewrite Hq. apply Z.div_le_upper_bound; [exact P|].
          rewrite C2. lia. }
        split; [assumption|]. intros QB.
        assert (EM : M = Uint63.of_Z (Z.pos mB)).
        { apply Uint63.to_Z_inj. rewrite Uint63.of_Z_spec.
          change wB with (2 ^ 63)%Z.
          rewrite Z.mod_small by lia.
          rewrite QB in Hq.
          pose proof (Z.mul_div_le (Uint63.to_Z M) (2 ^ sB) P) as D.
          rewrite <- Hq in D. lia. }
        assert (ES : sh = Uint63.of_Z sB).
        { apply Uint63.to_Z_inj. rewrite Hsh, Uint63.of_Z_spec.
          change wB with (2 ^ 63)%Z. rewrite Z.mod_small by lia. reflexivity. }
        rewrite EM, ES. exact half_bit. }
  destruct Q as [Q1 Q2].
  assert (B53 : (B < 2 ^ 53)%Z).
  { assert (1 <= 2 ^ sB)%Z by lia. nia. }
  destruct (Uint63.bit M (Uint63.sub sh 1)) eqn:Hb.
  - exists (Uint63.to_Z q + 1)%Z.
    assert (Uint63.to_Z q <> B) by (intros X; specialize (Q2 X); discriminate).
    split; [lia|].
    rewrite Clamp.of_uint63_of_Z, RoundShape.succ_small by lia. reflexivity.
  - exists (Uint63.to_Z q). split; [lia|]. apply Clamp.of_uint63_of_Z.
Qed.

End Bound.

(** The instance for a colour channel. *)
Lemma Math_round_channel u :
  (u <=? 255) = true -> ((0 <? u) || num_eqb u 0) = true ->
  exists k, In k channels /\ Math_round u = of_Z k.
Proof.
  intros H1 H2.
  destruct (Math_round_below 255 255 8972014882652160 45
              eq_refl ltac:(lia) eq_refl ltac:(lia) eq_refl u H1 H2)
    as (k & Hk & E).
  exists k. split; [apply In_channels; lia|exact E].
Qed.

End RoundBound.

(** * The range of [hslToRgb] *)

Lemma percents_eq : percents = map (fun k => of_Z k / 100) (Zrange 0 101).
Proof. vm_compute. reflexivity. Qed.

Lemma wrapped_hues_eq : wrapped_hues = flat_map hue_args (Zrange 0 361).
Proof. vm_compute. reflexivity. Qed.

Lemma In_percents k : (0 <= k <= 100)%Z -> In (of_Z k / 100) percents.
Proof.
  intros H. rewrite percents_eq.
  apply (in_map (fun k => of_Z k / 100)), In_Zrange. simpl. lia.
Qed.

Lemma In_wrapped_hues kh t :
  (0 <= kh <= 360)%Z -> In t (hue_args kh) -> In t wrapped_hues.
Proof.
  intros H Ht. rewrite wrapped_hues_eq. apply in_flat_map.
  exists kh. split; [apply In_Zrange; simpl; lia|exact Ht].
Qed.

Lemma hsl_checked :
  forallb (fun s => forallb (hsl_row s) percents) percents = true.
Proof. vm_compute. reflexivity. Qed.

Lemma channel_ok_round y :
  channel_ok y = true -> exists k, In k channels /\ Math_round y = of_Z k.
Proof.
  unfold channel_ok. rewrite andb_true_iff. intros [H1 H2].
  apply RoundBound.Math_round_channel; assumption.
Qed.

(** X13.  [hslToRgb] returns a colour for every colour it is given: for an
    integer hue of 0..360 and integer saturation and lightness of
    0..100, each channel it returns is one of the integers 0..255. *)
Theorem hslToRgb_integers (kh ks kl : Z)
  (Hh : (0 <= kh <= 360)%Z) (Hs : (0 <= ks <= 100)%Z) (Hl : (0 <= kl <= 100)%Z) :
  valid_color (hslToRgb (of_Z kh) (of_Z ks) (of_Z kl)).
Proof.
  rewrite hslToRgb_parts. cbv zeta.
  pose proof hsl_checked as E. rewrite forallb_forall in E.
  specialize (E _ (In_percents ks Hs)). rewrite forallb_forall in E.
  specialize (E _ (In_percents kl Hl)). unfold hsl_row in E.
  destruct (strict_eq (of_Z ks / 100) 0).
  - apply channel_ok_round in E. destruct E as (k & Hk & ->).
    exists k, k, k. auto.
  - cbv zeta in E. rewrite forallb_forall in E.
    assert (T : forall t, In t (hue_args kh) ->
                exists k, In k channels
                  /\ Math_round (hue2rgb_tail (hsl_p (of_Z ks / 100) (of_Z kl / 100))
                                   (hsl_q (of_Z ks / 100) (of_Z kl / 100)) t * 255)
                     = of_Z k).
    { intros t Ht. apply channel_ok_round, E, (In_wrapped_hues kh), Ht. exact Hh. }
    unfold hue_args in T. cbv zeta in T.
    destruct (T _ (or_introl eq_refl)) as (kr & Hr & ->).
    destruct (T _ (or_intror (or_introl eq_refl))) as (kg & Hg & ->).
    destruct (T _ (or_intror (or_intror (or_introl eq_refl)))) as (kb & Hb & ->).
    exists kr, kg, kb. auto.
Qed.

Lemma hslToRgb_integers_witness :
  valid_color (hslToRgb (of_Z 24) (of_Z 100) (of_Z 50)).
Proof. apply (hslToRgb_integers 24 100 50); lia. Defined.

Lemma hue_wrap_checked :
  forallb (fun ks => forallb (hue_wrap_check ks) (Zrange 0 101)) (Zrange 0 101) = true.
Proof. vm_compute. reflexivity. Qed.

(** X14.  The hue is a circle: for integer saturation and lightness of
    0..100, hue 360 (which [rgbToHsl] can return) gives the colour of
    hue 0. *)
Theorem hslToRgb_hue_wraps (ks kl : Z)
  (Hs : (0 <= ks <= 100)%Z) (Hl : (0 <= kl <= 100)%Z) :
  hslToRgb 360 (of_Z ks) (of_Z kl) = hslToRgb 0 (of_Z ks) (of_Z kl).
Proof.
  pose proof hue_wrap_checked as E.
  pose proof (forallb_Zrange _ _ _ E ks ltac:(simpl; lia)) as E'.
  pose proof (forallb_Zrange _ _ _ E' kl ltac:(simpl; lia)) as W.
  apply rgb_eqb_eq, W.
Qed.

Lemma hslToRgb_hue_wraps_witness :
  hslToRgb 360 (of_Z 100) (of_Z 50) = hslToRgb 0 (of_Z 100) (of_Z 50).
Proof. apply (hslToRgb_hue_wraps 100 50); lia. Defined.

Lemma lightness_ends_checked :
  forallb (fun kh => forallb (lightness_ends_check kh) (Zrange 0 101)) (Zrange 0 361)
  = true.
Proof. vm_compute. reflexivity. Qed.

(** X15.  The ends of [hslToRgb]: without saturation the hue is ignored,
    whatever number it is, and the three channels are the lightness as a
    rounded share of 255; for an integer hue of 0..360 and an integer
    saturation of 0..100, lightness 0 is black and lightness 100 is
    white. *)
Theorem hslToRgb_ends :
  (forall hue light : number,
      let y := Math_round (light / 100 * 255) in
      hslToRgb hue 0 light = mkRGB y y y)
  /\ (forall kh ks : Z,
        (0 <= kh <= 360)%Z -> (0 <= ks <= 100)%Z ->
        hslToRgb (of_Z kh) (of_Z ks) 0 = gray 0
        /\ hslToRgb (of_Z kh) (of_Z ks) 100 = gray 255).
Proof.
  split.
  - intros hue light y. rewrite hslToRgb_parts. cbv zeta.
    change (strict_eq (0 / 100) 0) with true. reflexivity.
  - intros kh ks Hh Hs.
    pose proof lightness_ends_checked as E.
    pose proof (forallb_Zrange _ _ _ E kh ltac:(simpl; lia)) as E'.
    pose proof (forallb_Zrange _ _ _ E' ks ltac:(simpl; lia)) as W.
    unfold lightness_ends_check in W.
    rewrite andb_true_iff, !rgb_eqb_eq in W. exact W.
Qed.

(** * The range of [rgbToHsl], and what [hslToRgb] is called with *)

(** X16.  [rgbToHsl] returns a colour in HSL terms for every colour: for
    integer channels of 0..255 the hue is an integer of 0..360 and
    saturation and lightness are integers of 0..100; the [switch] always
    finds its case, so the hue is never left undefined.  Hue 360 is
    reached, by (255, 0, 1). *)
Theorem rgbToHsl_integers (cr cg cb : Z)
  (Hr : In cr channels) (Hg : In cg channels) (Hb : In cb channels) :
  (exists kh ks kl,
      (0 <= kh <= 360)%Z /\ (0 <= ks <= 100)%Z /\ (0 <= kl <= 100)%Z
      /\ rgbToHsl (of_Z cr) (of_Z cg) (of_Z cb) = mkHSL (of_Z kh) (of_Z ks) (of_Z kl))
  /\ is_nan (h (rgbToHsl (of_Z cr) (of_Z cg) (of_Z cb))) = false
  /\ rgbToHsl (of_Z 255) (of_Z 0) (of_Z 1) = mkHSL (of_Z 360) (of_Z 100) (of_Z 50).
Proof.
  destruct (rgbToHsl_range cr cg cb Hr Hg Hb) as (kh & ks & kl & Hkh & Hks & Hkl & E).
  split; [exists kh, ks, kl; auto|]. split; [|reflexivity].
  rewrite E. cbn [h].
  assert (F : forallb (fun k => negb (is_nan (of_Z k))) (Zrange 0 361) = true)
    by (vm_compute; reflexivity).
  apply negb_true_iff, (forallb_Zrange _ _ _ F kh). simpl. lia.
Qed.

Lemma rgbToHsl_integers_witness :
  (exists kh ks kl,
      (0 <= kh <= 360)%Z /\ (0 <= ks <= 100)%Z /\ (0 <= kl <= 100)%Z
      /\ rgbToHsl (of_Z 255) (of_Z 102) (of_Z 0) = mkHSL (of_Z kh) (of_Z ks) (of_Z kl))
  /\ is_nan (h (rgbToHsl (of_Z 255) (of_Z 102) (of_Z 0))) = false
  /\ rgbToHsl (of_Z 255) (of_Z 0) (of_Z 1) = mkHSL (of_Z 360) (of_Z 100) (of_Z 50).
Proof. apply (rgbToHsl_integers 255 102 0); apply In_channels; lia. Defined.

Lemma hue_range_checked :
  forallb (fun p => forallb (hue_range_check p) (Zrange 0 361)) profiles = true.
Proof. vm_compute. reflexivity. Qed.

Lemma sat_range_checked :
  forallb (fun p => forallb (sat_range_check p) (Zrange 0 101)) profiles = true.
Proof. vm_compute. reflexivity. Qed.

(** X17.  The correction keeps hue and saturation in range: for integer
    channels of 0..255 under a registered device, the corrected hue lies
    in [0, 360] and the corrected saturation in [0, 100], so that
    [hslToRgb], when the two moved far enough for it to be called, gets
    a hue, a saturation and a lightness within their ranges. *)
Theorem corrected_hsl_in_range (cr cg cb : Z) (key : string) (profile : Profile.t)
  (Hr : In cr channels) (Hg : In cg channels) (Hb : In cb channels)
  (Hkey : lookup key DEVICE_PROFILES = Some profile) :
  let rgb := mkRGB (of_Z cr) (of_Z cg) (of_Z cb) in
  let hsl := rgbToHsl (r rgb) (g rgb) (b rgb) in
  let d := spec_direct profile rgb hsl in
  let sat := spec_saturation profile hsl in
  correctColor rgb key
  = Some (spec_clamp (if significant hsl (directHue d) sat
                      then
                        let derived := hslToRgb (directHue d) sat (l hsl) in
                        mkRGB (average (directR d) (r derived))
                              (average (directG d) (g derived))
                              (average (directB d) (b derived))
                      else mkRGB (directR d) (directG d) (directB d)))
  /\ (0 <=? directHue d) = true /\ (directHue d <=? 360) = true
  /\ (0 <=? sat) = true /\ (sat <=? 100) = true
  /\ (0 <=? l hsl) = true /\ (l hsl <=? 100) = true.
Proof.
  intros rgb hsl d sat.
  split.
  { unfold correctColor. rewrite Hkey, correctWith_pipeline. reflexivity. }
  destruct (rgbToHsl_range cr cg cb Hr Hg Hb) as (kh & ks & kl & Hkh & Hks & Hkl & E).
  assert (Eh : hsl = mkHSL (of_Z kh) (of_Z ks) (of_Z kl)) by exact E.
  pose proof (lookup_In _ _ _ Hkey) as Hp.
  pose proof hue_range_checked as C1. rewrite forallb_forall in C1.
  pose proof (forallb_Zrange _ _ _ (C1 profile Hp) kh ltac:(simpl; lia)) as Ch.
  pose proof sat_range_checked as C2. rewrite forallb_forall in C2.
  pose proof (forallb_Zrange _ _ _ (C2 profile Hp) ks ltac:(simpl; lia)) as Cs.
  unfold hue_range_check in Ch. unfold sat_range_check in Cs.
  cbv zeta in Ch, Cs. rewrite andb_true_iff in Ch, Cs.
  unfold d, sat. rewrite spec_direct_hue. unfold spec_saturation.
  rewrite Eh. cbn [h s l].
  destruct Ch as [Ch1 Ch2]. destruct Cs as [Cs1 Cs2].
  split; [exact Ch1|]. split; [exact Ch2|]. split; [exact Cs1|]. split; [exact Cs2|].
  assert (L : forallb (fun k => (0 <=? of_Z k) && (of_Z k <=? 100)) (Zrange 0 101) = true)
    by (vm_compute; reflexivity).
  pose proof (forallb_Zrange _ _ _ L kl ltac:(simpl; lia)) as Cl.
  cbv beta in Cl. apply andb_true_iff in Cl. exact Cl.
Qed.

Lemma corrected_hsl_in_range_witness :
  let rgb := mkRGB (of_Z 255) (of_Z 102) (of_Z 0) in
  let profile := profile_named "tl-fans" in
  let hsl := rgbToHsl (r rgb) (g rgb) (b rgb) in
  let d := spec_direct profile rgb hsl in
  let sat := spec_saturation profile hsl in
  correctColor rgb "tl-fans"
  = Some (spec_clamp (if significant hsl (directHue d) sat
                      then
                        let derived := hslToRgb (directHue d) sat (l hsl) in
                        mkRGB (average (directR d) (r derived))
                              (average (directG d) (g derived))
                              (average (directB d) (b derived))
                      else mkRGB (directR d) (directG d) (directB d)))
  /\ (0 <=? directHue d) = true /\ (directHue d <=? 360) = true
  /\ (0 <=? sat) = true /\ (sat <=? 100) = true
  /\ (0 <=? l hsl) = true /\ (l hsl <=? 100) = true.
Proof.
  apply (corrected_hsl_in_range 255 102 0 "tl-fans" (profile_named "tl-fans"));
    try (apply In_channels; lia).
  reflexivity.
Defined.

(** * What the page shows *)

Lemma dim_checked :
  forallb (fun p => forallb (dim_check p) channels) (Zrange 0 101) = true.
Proof. vm_compute. reflexivity. Qed.

Lemma dim_zero_checked :
  forallb (fun c => num_eqb (Math_round (of_Z c * (of_Z 0 / 100))) (of_Z 0)) channels
  = true.
Proof. vm_compute. reflexivity. Qed.

Lemma dimmed_channel kp c :
  (0 <= kp <= 100)%Z -> In c channels ->
  exists a, (0 <= a <= c)%Z /\ Math_round (of_Z c * (of_Z kp / 100)) = of_Z a
            /\ (kp = 0%Z -> a = 0%Z).
Proof.
  intros Hp Hc. pose proof dim_checked as E.
  pose proof (forallb_Zrange _ _ _ E kp ltac:(simpl; lia)) as E'.
  rewrite forallb_forall in E'. specialize (E' c Hc).
  apply int_upto_spec in E'. destruct E' as (a & Ha & Ea).
  destruct (Z.eq_dec kp 0) as [->|Hne].
  - exists 0%Z. split; [apply In_channels in Hc; lia|]. split; [|reflexivity].
    pose proof dim_zero_checked as Z0. rewrite forallb_forall in Z0.
    apply num_eqb_eq, Z0, Hc.
  - exists a. split; [exact Ha|]. split; [exact Ea|]. intros; contradiction.
Qed.

(** X18.  With the slider at an integer of 0..100, what [updateUI] shows
    is consistent: for a colour of integer channels 0..255 under a
    registered device, the displayed channels are integers, none above
    the corrected channel it is the dimmed value of, the corrected hex
    text reads back as exactly the displayed channels and the target hex
    text as the current colour; at brightness 0 the displayed colour is
    black. *)
Theorem display_is_consistent (st : State) (profile : Profile.t) (kp : Z)
  (Hcolor : valid_color (currentColor st))
  (Hdevice : lookup (currentDevice st) DEVICE_PROFILES = Some profile)
  (Hp : (0 <= kp <= 100)%Z)
  (Hbrightness : currentBrightness st = of_Z kp) :
  exists v c1 c2 c3 a1 a2 a3,
    updateUI st = Some v
    /\ correctColor (currentColor st) (currentDevice st)
       = Some (mkRGB (of_Z c1) (of_Z c2) (of_Z c3))
    /\ adjustedCorrected v = mkRGB (of_Z a1) (of_Z a2) (of_Z a3)
    /\ (0 <= a1 <= c1 /\ c1 <= 255)%Z
    /\ (0 <= a2 <= c2 /\ c2 <= 255)%Z
    /\ (0 <= a3 <= c3 /\ c3 <= 255)%Z
    /\ hexToRgb (correctedHex v) = Some (adjustedCorrected v)
    /\ hexToRgb (targetHex v) = Some (currentColor st)
    /\ (kp = 0%Z -> adjustedCorrected v = gray 0).
Proof.
  destruct st as [device brand brightness color].
  cbn [currentColor currentDevice currentBrightness] in *. subst brightness.
  destruct (valid_color_hex _ Hcolor) as [R _].
  destruct Hcolor as (kr & kg & kb & Hr & Hg & Hb & ->).
  destruct (correctWith_channels profile kr kg kb (lookup_In _ _ _ Hdevice) Hr Hg Hb)
    as (c1 & c2 & c3 & H1 & H2 & H3 & E).
  destruct (dimmed_channel kp c1 Hp H1) as (a1 & B1 & D1 & Z1).
  destruct (dimmed_channel kp c2 Hp H2) as (a2 & B2 & D2 & Z2).
  destruct (dimmed_channel kp c3 Hp H3) as (a3 & B3 & D3 & Z3).
  apply In_channels in H1, H2, H3.
  unfold updateUI, correctColor.
  cbn [currentColor currentDevice currentBrightness]. rewrite Hdevice, E.
  cbn [r g b]. rewrite D1, D2, D3.
  eexists _, c1, c2, c3, a1, a2, a3.
  split; [reflexivity|]. split; [reflexivity|].
  cbn [adjustedCorrected correctedHex targetHex].
  split; [reflexivity|]. split; [lia|]. split; [lia|]. split; [lia|].
  split; [apply rgbToHex_channels; apply In_channels; lia|].
  split; [exact R|].
  intros K. rewrite (Z1 K), (Z2 K), (Z3 K). reflexivity.
Qed.

Lemma display_is_consistent_witness :
  let st := mkState "strimer" "lianli" (of_Z 40) (mkRGB (of_Z 255) (of_Z 102) (of_Z 0)) in
  exists v c1 c2 c3 a1 a2 a3,
    updateUI st = Some v
    /\ correctColor (currentColor st) (currentDevice st)
       = Some (mkRGB (of_Z c1) (of_Z c2) (of_Z c3))
    /\ adjustedCorrected v = mkRGB (of_Z a1) (of_Z a2) (of_Z a3)
    /\ (0 <= a1 <= c1 /\ c1 <= 255)%Z
    /\ (0 <= a2 <= c2 /\ c2 <= 255)%Z
    /\ (0 <= a3 <= c3 /\ c3 <= 255)%Z
    /\ hexToRgb (correctedHex v) = Some (adjustedCorrected v)
    /\ hexToRgb (targetHex v) = Some (currentColor st)
    /\ (40%Z = 0%Z -> adjustedCorrected v = gray 0).
Proof.
  apply (display_is_consistent
           (mkState "strimer" "lianli" (of_Z 40) (mkRGB (of_Z 255) (of_Z 102) (of_Z 0)))
           (profile_named "strimer") 40).
  - exists 255%Z, 102%Z, 0%Z. repeat split; apply In_channels; lia.
  - reflexivity.
  - lia.
  - reflexivity.
Defined.

(** * Colours the correction leaves alone *)

Lemma idle_hue_checked :
  forallb (fun p => forallb (idle_hue_check p) (Zrange 0 361)) profiles = true.
Proof. vm_compute. reflexivity. Qed.

(** X19.  Greens and the reds past hue 340 pass through: for integer
    channels of 0..255 under a registered device, a colour whose hue is
    strictly between 90 and 170, or above 340, and whose saturation the
    boost does not move by more than 5 points is returned by
    [correctColor] exactly as it was given. *)
Theorem idle_hues_unchanged (cr cg cb : Z) (key : string) (profile : Profile.t)
  (Hr : In cr channels) (Hg : In cg channels) (Hb : In cb channels)
  (Hkey : lookup key DEVICE_PROFILES = Some profile)
  (Hhue : idle_hue (h (rgbToHsl (of_Z cr) (of_Z cg) (of_Z cb))) = true)
  (Hsat : (5 <? Math_abs
                  (Math_min 100
                     (s (rgbToHsl (of_Z cr) (of_Z cg) (of_Z cb))
                      * Profile.saturationBoost profile)
                   - s (rgbToHsl (of_Z cr) (of_Z cg) (of_Z cb)))) = false) :
  correctColor (mkRGB (of_Z cr) (of_Z cg) (of_Z cb)) key
  = Some (mkRGB (of_Z cr) (of_Z cg) (of_Z cb)).
Proof.
  unfold correctColor. rewrite Hkey, correctWith_pipeline. unfold spec_correct.
  cbn [r g b].
  destruct (rgbToHsl_range cr cg cb Hr Hg Hb) as (kh & ks & kl & Hkh & Hks & Hkl & E).
  rewrite E in *. cbn [h s l] in *.
  pose proof idle_hue_checked as C. rewrite forallb_forall in C.
  pose proof (forallb_Zrange _ _ _ (C profile (lookup_In _ _ _ Hkey)) kh
                ltac:(simpl; lia)) as Ck.
  unfold idle_hue_check in Ck. cbv zeta in Ck. rewrite Hhue in Ck.
  unfold spec_direct. cbn [h].
  destruct (findCorrection (of_Z kh) (Profile.hueCorrections profile)); [discriminate|].
  rewrite !andb_true_iff, !negb_true_iff in Ck. destruct Ck as [[W K] D].
  unfold spec_branchB. cbn [h r g b]. rewrite W, K.
  unfold spec_reconcile, significant, spec_saturation.
  cbn [directHue directR directG directB h s l].
  rewrite D, Hsat. cbn [orb]. unfold spec_clamp. cbn [r g b].
  rewrite !clamp255_channel by assumption. reflexivity.
Qed.

Lemma idle_hues_unchanged_witness :
  correctColor (mkRGB (of_Z 0) (of_Z 255) (of_Z 0)) "tl-fans"
  = Some (mkRGB (of_Z 0) (of_Z 255) (of_Z 0)).
Proof.
  apply (idle_hues_unchanged 0 255 0 "tl-fans" (profile_named "tl-fans"));
    try (apply In_channels; lia); reflexivity.
Defined.

(** * The RGB -> HSL -> RGB round trip *)

(** ** [hslToRgb] by the hue's sixth of the circle *)

Lemma Forall_Zrange (P : Z -> Prop) lo n :
  Forall P (Zrange lo n) -> forall z, (lo <= z < lo + Z.of_nat n)%Z -> P z.
Proof.
  intros F z Hz. rewrite Forall_forall in F. apply F, In_Zrange, Hz.
Qed.

(** For an integer hue of 0..360 each channel takes the branch of
    [hue2rgb] that [fast_rgb] gives it. *)
Lemma fast_rgb_eq kh p q :
  (0 <= kh <= 360)%Z ->
  let hq := of_Z kh / 360 in
  mkRGB (round_pos (hue2rgb_tail p q (wrap (hq + 1 / 3)) * 255))
        (round_pos (hue2rgb_tail p q (wrap hq) * 255))
        (round_pos (hue2rgb_tail p q (wrap (hq - 1 / 3)) * 255))
  = fast_rgb (round_pos (p * 255)) (round_pos (q * 255)) p ((q - p) * 6) (q - p) (of_Z kh).
Proof.
  intros H. revert p q.
  refine (Forall_Zrange
            (fun kh => forall p q,
               let hq := of_Z kh / 360 in
               mkRGB (round_pos (hue2rgb_tail p q (wrap (hq + 1 / 3)) * 255))
                     (round_pos (hue2rgb_tail p q (wrap hq) * 255))
                     (round_pos (hue2rgb_tail p q (wrap (hq - 1 / 3)) * 255))
               = fast_rgb (round_pos (p * 255)) (round_pos (q * 255)) p
                          ((q - p) * 6) (q - p) (of_Z kh))
            0 361 _ kh _); [|simpl; lia].
  repeat (apply Forall_cons; [intros p q; reflexivity|]).
  apply Forall_nil.
Qed.

Lemma gray_sat mx mn :
  strict_eq mx mn = true -> strict_eq (Math_round (sat_of mx mn * 100) / 100) 0 = true.
Proof. intros E. unfold sat_of. rewrite E. reflexivity. Qed.

(** The round trip of any colour, by the order of its channels. *)
Lemma round_trip_close ca cb cc :
  In ca chan_pairs -> In cb chan_pairs -> In cc chan_pairs ->
  within 5 (round_trip (mkRGB (fst ca) (fst cb) (fst cc)))
           (mkRGB (fst ca) (fst cb) (fst cc))
  = true.
Proof.
  intros Ha Hb Hc.
  destruct (arranged ca cb cc Ha Hb Hc)
    as (o & hi & mid & lo & Hhi & Hmid & Hlo & L1 & L2 & E).
  pose proof (arrange_map snd _ _ _ _ _ _ _ E) as Es.
  pose proof (arrange_map fst _ _ _ _ _ _ _ E) as Ef.
  pose proof (chan_pair_unit _ Hhi) as Uhi.
  pose proof (chan_pair_unit _ Hmid) as Umid.
  pose proof (chan_pair_unit _ Hlo) as Ulo.
  pose proof (NumberOrder.leb_trans _ _ _ L1 L2) as L3.
  destruct (max3_arranged _ _ _ Uhi Umid Ulo L1 L2 o _ _ _ Es) as [Emax Emin].
  destruct (triple_checked o hi mid lo Hhi Hmid Hlo L1 L2) as (T1 & T2 & T3).
  cbv zeta in T1, T2, T3.
  unfold round_trip. cbn [r g b].
  rewrite rgbToHsl_parts. cbv zeta.
  rewrite (chan_pair_share ca Ha), (chan_pair_share cb Hb), (chan_pair_share cc Hc).
  rewrite Emax, Emin. cbn [h s l].
  rewrite hslToRgb_parts. cbv zeta.
  destruct (strict_eq (Math_round (sat_of (snd hi) (snd lo) * 100) / 100) 0) eqn:S0.
  - specialize (T2 eq_refl). rewrite !andb_true_iff in T2.
    destruct T2 as [[N1 N2] N3]. unfold near in N1, N2, N3.
    unfold within. cbn [r g b].
    destruct o; cbn in E; injection E as <- <- <-; rewrite N1, N2, N3; reflexivity.
  - specialize (T3 eq_refl). rewrite Ef in T3.
    assert (F : strict_eq (snd hi) (snd lo) = false).
    { destruct (strict_eq (snd hi) (snd lo)) eqn:F; [|reflexivity].
      rewrite (gray_sat _ _ F) in S0. discriminate. }
    rewrite (hue_of_arranged _ _ _ Uhi Ulo L1 L2 o _ _ _ Es F).
    specialize (T1 F).
    rewrite (RoundPos.round_pos_degree _ T1).
    destruct (Degree.Math_round_degree _ T1) as (kh & Hkh & Eh).
    rewrite (RoundPos.round_pos_degree _ T1) in Eh.
    rewrite Eh in T3 |- *.
    destruct (sat_light_integers _ _ Uhi Ulo L3) as (ks & kl & Hks & Hkl & Es' & El').
    rewrite Es' in S0. rewrite Es', El' in T3 |- *.
    pose proof hsl_checked as C. rewrite forallb_forall in C.
    specialize (C _ (In_percents ks Hks)). rewrite forallb_forall in C.
    specialize (C _ (In_percents kl Hkl)). unfold hsl_row in C.
    rewrite S0 in C. cbv zeta in C. rewrite forallb_forall in C.
    assert (T : forall t, In t (hue_args kh) ->
                Math_round (hue2rgb_tail (hsl_p (of_Z ks / 100) (of_Z kl / 100))
                              (hsl_q (of_Z ks / 100) (of_Z kl / 100)) t * 255)
                = round_pos (hue2rgb_tail (hsl_p (of_Z ks / 100) (of_Z kl / 100))
                               (hsl_q (of_Z ks / 100) (of_Z kl / 100)) t * 255)).
    { intros t Ht. apply RoundPos.round_pos_channel, C, (In_wrapped_hues kh), Ht.
      exact Hkh. }
    unfold hue_args in T. cbv zeta in T.
    rewrite (T _ (or_introl eq_refl)).
    rewrite (T _ (or_intror (or_introl eq_refl))).
    rewrite (T _ (or_intror (or_intror (or_introl eq_refl)))).
    rewrite (fast_rgb_eq kh _ _ Hkh).
    exact T3.
Qed.

(** C6, as stated, fails: (3, 0, 0) becomes HSL (0, 100, 1), which
    [hslToRgb] turns into (5, 0, 0). *)
Lemma round_trip_not_within_1 :
  rgbToHsl 3 0 0 = mkHSL 0 100 1
  /\ round_trip (mkRGB 3 0 0) = mkRGB 5 0 0
  /\ within 1 (round_trip (mkRGB 3 0 0)) (mkRGB 3 0 0) = false.
Proof. repeat split; vm_compute; reflexivity. Qed.

(** C6, amended.  The round trip reproduces every colour within 5 per
    channel: for integer channels of 0..255, [hslToRgb] of [rgbToHsl]
    differs from the colour by at most 5 on red, on green and on blue.
    The tolerance cannot be lowered: (2, 228, 230) comes back as
    (2, 223, 227), 5 off on green. *)
Theorem round_trip_within_5 (cr cg cb : Z)
  (Hr : In cr channels) (Hg : In cg channels) (Hb : In cb channels) :
  within 5 (round_trip (mkRGB (of_Z cr) (of_Z cg) (of_Z cb)))
           (mkRGB (of_Z cr) (of_Z cg) (of_Z cb)) = true
  /\ round_trip (mkRGB 2 228 230) = mkRGB 2 223 227
  /\ within 4 (round_trip (mkRGB 2 228 230)) (mkRGB 2 228 230) = false.
Proof.
  split; [|split; vm_compute; reflexivity].
  exact (round_trip_close _ _ _ (In_chan_pairs cr Hr) (In_chan_pairs cg Hg)
           (In_chan_pairs cb Hb)).
Qed.

Lemma round_trip_within_5_witness :
  within 5 (round_trip (mkRGB (of_Z 3) (of_Z 0) (of_Z 0)))
           (mkRGB (of_Z 3) (of_Z 0) (of_Z 0)) = true
  /\ round_trip (mkRGB 2 228 230) = mkRGB 2 223 227
  /\ within 4 (round_trip (mkRGB 2 228 230)) (mkRGB 2 228 230) = false.
Proof. apply (round_trip_within_5 3 0 0); apply In_channels; lia. Defined.
